(** * OpenNL's BiCGSTAB solver (Packages/OpenNL/include/OpenNL/bicgstab.h)

    A shallow embedding of [Solver_BICGSTAB<MATRIX,VECTOR>::solve] and of
    [IsZero], with the properties of the specification stated over it,
    followed by further properties of the code: the cost of a call, what the
    diagnostic line tells, quotients and NaNs, and runs in exact arithmetic.

    The class is a template: the scalar type [CoeffType], the vector type and
    the matrix type are parameters, reached only through arithmetic, through
    the four BLAS-1 calls and through [mult].  The embedding keeps that shape:
    the solver is written once over three interfaces ([CoeffOps], [VectorOps],
    [MatrixOps]) and run at two scalar types, the exact rationals [Qc] (the
    arithmetic of doubles without rounding) and the IEEE binary64 numbers
    [float].

    The vectors of a call live in a store indexed by their names, so that
    [Vector& s = h] is what it is in the source: two names of one vector.
    A call returns, or stops at a failed [assert], or meets a quotient the
    scalar type does not define. *)

From Stdlib Require Import ZArith QArith Qcanon Floats Lia.
From stdpp Require Import base option decidable list.

Local Open Scope Z_scope.

(** ** Machine integers *)

(** [unsigned int]: values are kept modulo 2^32. *)
Definition UINT_MAX : Z := 4294967295.
Definition uint (z : Z) : Z := z mod (UINT_MAX + 1).

(** ** The interfaces the template is written against *)

(** [CoeffType]: the literals and the operators [solve] and [IsZero] apply to
    scalars.  A quotient may be undefined ([None]): an exact number type has no
    value for [a/0]; binary64 division is total. *)
Class CoeffOps (T : Type) := {
  c0 : T;
  c1 : T;
  c10 : T;
  cmin : T;
  cadd : T → T → T;
  cmul : T → T → T;
  copp : T → T;
  cdiv : T → T → option T;
  cabs : T → T;
  clt : T → T → bool;
  cle : T → T → bool;
}.

(** The vector type: [v.dimension()], the constructor [Vector v(n)], and the
    values [BLAS<Vector>::axpy], [scal] and [dot] compute.  [axpy a x y] is the
    new content of [y], [scal a x] the new content of [x]. *)
Class VectorOps (T V : Type) := {
  dimension : V → Z;
  new_Vector : Z → V;
  axpy : T → V → V → V;
  scal : T → V → V;
  dot : V → V → T;
}.

(** The matrix type: [A.dimension()] and the vector [mult(A,x,y)] writes to [y]. *)
Class MatrixOps (V M : Type) := {
  A_dimension : M → Z;
  mult : M → V → V;
}.

(** ** Outcomes of a call *)

(** A call returns, or stops at a failed [assert], or reaches a quotient that
    the scalar type does not define.  [OutOfFuel] belongs to the embedding of
    the [while] loop only; [solve_variant_fuel] shows it never arises. *)
Inductive Outcome (A : Type) : Type :=
| Returned (a : A)
| AssertionFailed
| DivisionUndefined
| OutOfFuel.
Arguments Returned {A} a.
Arguments AssertionFailed {A}.
Arguments DivisionUndefined {A}.
Arguments OutOfFuel {A}.

#[export] Instance Outcome_ret : MRet Outcome := @Returned.
#[export] Instance Outcome_bind : MBind Outcome := λ A B f o,
  match o with
  | Returned a => f a
  | AssertionFailed => AssertionFailed
  | DivisionUndefined => DivisionUndefined
  | OutOfFuel => OutOfFuel
  end.
#[export] Instance Outcome_fmap : FMap Outcome := λ A B f o,
  match o with
  | Returned a => Returned (f a)
  | AssertionFailed => AssertionFailed
  | DivisionUndefined => DivisionUndefined
  | OutOfFuel => OutOfFuel
  end.

(** [assert(c)]: nothing when [NDEBUG] is defined, otherwise the process is
    aborted when [c] is false. *)
Definition c_assert (ndebug c : bool) : Outcome unit :=
  if ndebug || c then Returned () else AssertionFailed.

(** A quotient [a / b]. *)
Definition quotient `{CoeffOps T} (a b : T) : Outcome T :=
  match cdiv a b with
  | Some q => Returned q
  | None => DivisionUndefined
  end.

(** ** The vectors of a call *)

(** The vectors [solve] names.  [Bs] is storage of its own for [s]; the source
    binds [s] to [h]'s storage ([Vector& s = h]) and never uses [Bs]. *)
Inductive buf : Set := Bx | Bb | BrT | Bd | Bh | Bu | BAd | Bt | Br | Bs.

#[export] Instance buf_eq_dec : EqDecision buf.
Proof. solve_decision. Defined.

Definition all_bufs : list buf := [Bx; Bb; BrT; Bd; Bh; Bu; BAd; Bt; Br; Bs].

Definition buf_code (v : buf) : nat :=
  match v with
  | Bx => 0 | Bb => 1 | BrT => 2 | Bd => 3 | Bh => 4
  | Bu => 5 | BAd => 6 | Bt => 7 | Br => 8 | Bs => 9
  end%nat.
Definition buf_eqb (v w : buf) : bool := Nat.eqb (buf_code v) (buf_code w).

(** What a call can change and what can be seen of it from outside: the
    content of every vector that exists ([None] for one that was not
    constructed), and how often [mult] was called. *)
Record Machine (V : Type) := {
  heap : buf → option V;
  mult_calls : nat;
}.
Arguments heap {V} _ _.
Arguments mult_calls {V} _.

(** The solver's configuration: [epsilon_] and [max_iter_] (an [unsigned int],
    read modulo 2^32). *)
Record Config (T : Type) := {
  epsilon_ : T;
  max_iter_ : Z;
}.
Arguments epsilon_ {T} _.
Arguments max_iter_ {T} _.

(** [set_epsilon] and [set_max_iter] (lines 96-97); the argument of the
    latter is an [unsigned int]. *)
Definition set_epsilon {T : Type} (eps : T) (cfg : Config T) : Config T :=
  {| epsilon_ := eps; max_iter_ := max_iter_ cfg |}.
Definition set_max_iter {T : Type} (max_iter : Z) (cfg : Config T) : Config T :=
  {| epsilon_ := epsilon_ cfg; max_iter_ := uint max_iter |}.

(** The scalars that live across iterations, with the vectors. [omega] has no
    value before the first iteration assigns it. *)
Record LoopState (T V : Type) := {
  mach : Machine V;
  rTh : T;
  rTr : T;
  omega : option T;
  its : Z;
}.
Arguments mach {T V} _.
Arguments rTh {T V} _.
Arguments rTr {T V} _.
Arguments omega {T V} _.
Arguments its {T V} _.

(** The line written to [std::cerr] before [solve] returns. *)
Record Report (T : Type) := {
  rep_success : bool;
  rep_its : Z;
  rep_max_iter : Z;
  rep_rTr : T;
  rep_err : T;
  rep_omega : option T;
  rep_rTh : T;
}.
Arguments rep_success {T} _.
Arguments rep_its {T} _.
Arguments rep_max_iter {T} _.
Arguments rep_rTr {T} _.
Arguments rep_err {T} _.
Arguments rep_omega {T} _.
Arguments rep_rTh {T} _.

(** What a returning call leaves: the boolean, the vectors as they are at the
    [return], and the diagnostic line when one was written. *)
Record Exit (T V : Type) := {
  success : bool;
  final : Machine V;
  trace : option (Report T);
}.
Arguments success {T V} _.
Arguments final {T V} _.
Arguments trace {T V} _.

Section Vectors.
Context {T V M : Type} `{!CoeffOps T, !VectorOps T V, !MatrixOps V M, !Inhabited V}.

(** [IsZero]: [fabs(a) < 10.0 * numeric_limits<CoeffType>::min()]. *)
Definition IsZero (a : T) : bool := clt (cabs a) (cmul c10 cmin).

(** The content of vector [v]. *)
Definition vec (m : Machine V) (v : buf) : V := default inhabitant (heap m v).

Definition store (v : buf) (c : V) (m : Machine V) : Machine V :=
  {| heap := λ w, if buf_eqb w v then Some c else heap m w;
     mult_calls := mult_calls m |}.

(** The vectors that exist. *)
Definition live (m : Machine V) : list buf :=
  filter (λ v, is_Some (heap m v)) all_bufs.

(** [Vector v(n)]. *)
Definition declare (v : buf) (n : Z) (m : Machine V) : Machine V :=
  store v (new_Vector n) m.

(** [BLAS<Vector>::copy(x,y)]: [y] is overwritten with [x]. *)
Definition blas_copy (x y : buf) (m : Machine V) : Machine V :=
  store y (vec m x) m.

(** [BLAS<Vector>::axpy(a,x,y)]: y <- y + a*x. *)
Definition blas_axpy (a : T) (x y : buf) (m : Machine V) : Machine V :=
  store y (axpy a (vec m x) (vec m y)) m.

(** [BLAS<Vector>::scal(a,x)]: x <- a*x. *)
Definition blas_scal (a : T) (x : buf) (m : Machine V) : Machine V :=
  store x (scal a (vec m x)) m.

(** [BLAS<Vector>::dot(x,y)]. *)
Definition blas_dot (x y : buf) (m : Machine V) : T :=
  dot (vec m x) (vec m y).

(** [mult(A,x,y)]: [y] is written, and the call is counted. *)
Definition call_mult (A : M) (x y : buf) (m : Machine V) : Machine V :=
  {| heap := λ w, if buf_eqb w y then Some (mult A (vec m x)) else heap m w;
     mult_calls := S (mult_calls m) |}.

End Vectors.

(** ** The solver *)

(** How an iteration of the [while] loop ends: at a [break], or at the end of
    its body. *)
Inductive Control (S : Type) : Type :=
| Break (st : S)
| Continue (st : S).
Arguments Break {S} st.
Arguments Continue {S} st.

Section Solver.
Context {T V M : Type} `{!CoeffOps T, !VectorOps T V, !MatrixOps V M, !Inhabited V}.

(** The three things a build or a rewrite of [solve] can choose, and the
    source's choice of each:
    - [ndebug]: whether [NDEBUG] is defined, so that [assert] does nothing;
    - [s]: the storage that the name [s] denotes ([Bh] in the source, line 125);
    - [keep_u]: whether the two calls on [u] (lines 153-154) are made
      ([true] in the source). *)
Variable ndebug : bool.
Variable s : buf.
Variable keep_u : bool.

Variable cfg : Config T.
Variable A : M.

(** Line 143: [rTr > err && its < max_iter]. *)
Definition loop_condition (err : T) (max_iter : Z) (st : LoopState T V) : bool :=
  clt err (rTr st) && (its st <? max_iter).

(** Lines 149-154, from [alpha] and the vectors after line 145: the BiCG half
    of the step, [r], [s], [t] and [u]. *)
Definition bicg_step (alpha : T) (m : Machine V) : Machine V :=
  let m := blas_axpy (copp alpha) BAd Br m in                    (* 149 *)
  let m := blas_copy Bh s m in                                   (* 150 *)
  let m := blas_axpy (copp alpha) BAd s m in                     (* 151 *)
  let m := call_mult A s Bt m in                                 (* 152 *)
  let m := if keep_u then blas_axpy c1 Bt Bu m else m in         (* 153 *)
  if keep_u then blas_scal alpha Bu m else m.                    (* 154 *)

(** Lines 157-160: [omega] from [st] and [tt]. *)
Definition choose_omega (st_ tt : T) : Outcome T :=
  if IsZero st_ || IsZero tt then Returned c0                    (* 157-158 *)
  else quotient st_ tt.                                          (* 160 *)

(** Lines 161-166: the new [x], [h], [r] and [rTr]. *)
Definition stabilise (alpha omega : T) (m : Machine V) (st : LoopState T V)
  : LoopState T V :=
  let m := blas_axpy (copp alpha) Bd Bx m in                     (* 161 *)
  let m := blas_axpy (copp omega) s Bx m in                      (* 162 *)
  let m := blas_copy s Bh m in                                   (* 163 *)
  let m := blas_axpy (copp omega) Bt Br m in                     (* 164 *)
  let rTr := blas_dot Br Br m in                                 (* 165 *)
  let m := blas_axpy (copp omega) Bt Bh m in                     (* 166 *)
  {| mach := m; rTh := rTh st; rTr := rTr;
     omega := Some omega; its := its st |}.

(** Lines 171-177: [beta], the new [rTh], the new direction [d], [its++]. *)
Definition next_direction (alpha omega : T) (st : LoopState T V)
  : Outcome (LoopState T V) :=
  q ← quotient alpha omega;
  beta ← quotient q (rTh st);                                    (* 171 *)
  let m := mach st in
  let rTh := blas_dot BrT Bh m in                                (* 172 *)
  let beta := cmul beta rTh in                                   (* 173 *)
  let m := blas_scal beta Bd m in                                (* 174 *)
  let m := blas_axpy c1 Bh Bd m in                               (* 175 *)
  let m := blas_axpy (cmul (copp beta) omega) BAd Bd m in        (* 176 *)
  Returned {| mach := m; rTh := rTh; rTr := rTr st;
              omega := Some omega; its := uint (its st + 1) |}.  (* 177 *)

(** Lines 149-177: the iteration once [alpha] is known. *)
Definition after_alpha (alpha : T) (m : Machine V) (st : LoopState T V)
  : Outcome (Control (LoopState T V)) :=
  let m := bicg_step alpha m in                                  (* 149-154 *)
  let st_ := blas_dot s Bt m in                                  (* 155 *)
  let tt := blas_dot Bt Bt m in                                  (* 156 *)
  omega ← choose_omega st_ tt;                                   (* 157-160 *)
  let st := stabilise alpha omega m st in                        (* 161-166 *)
  if IsZero omega then Returned (Break st)                       (* 167-168 *)
  else if IsZero (rTh st) then Returned (Break st)               (* 169-170 *)
  else Continue <$> next_direction alpha omega st.               (* 171-177 *)

(** The body of the loop, lines 145-177. *)
Definition iteration (st : LoopState T V) : Outcome (Control (LoopState T V)) :=
  let m := call_mult A Bd BAd (mach st) in                       (* 145 *)
  let rTAd := blas_dot BrT BAd m in                              (* 146 *)
  _ ← c_assert ndebug (negb (IsZero rTAd));                      (* 147 *)
  alpha ← quotient (rTh st) rTAd;                                (* 148 *)
  after_alpha alpha m st.

(** The [while] loop, lines 143-178. *)
Fixpoint loop (err : T) (max_iter : Z) (fuel : nat) (st : LoopState T V)
  : Outcome (LoopState T V) :=
  if loop_condition err max_iter st then
    match fuel with
    | O => OutOfFuel
    | S fuel =>
        c ← iteration st;
        match c with
        | Break st => Returned st
        | Continue st => loop err max_iter fuel st
        end
    end
  else Returned st.

(** Lines 113-118: the iteration cap, from [max_iter_] and the dimension. *)
Definition effective_max_iter (n : Z) : Z :=
  let max_iter := uint (max_iter_ cfg) in
  if max_iter =? 0 then uint (10 * n) else max_iter.

(** The caller's vectors at entry, for a call whose [b] and [x] are two
    objects.  ([solve] takes both by reference; when the caller passes one
    object for both, every read of [b], at lines 106, 128 and 132, comes before
    the first write to [x] at line 161, so that the run is the same: only what
    [b] holds after the call differs.) *)
Definition at_entry (b x : V) : Machine V :=
  {| heap := λ w, match w with Bx => Some x | Bb => Some b | _ => None end;
     mult_calls := 0 |}.

(** Lines 119-125: the working vectors [rT], [d], [h], [u], [Ad], [t], and
    [s] where it is a vector of its own. *)
Definition working_vectors (n : Z) (m : Machine V) : Machine V :=
  let m := declare BrT n m in                                    (* 119 *)
  let m := declare Bd n m in                                     (* 120 *)
  let m := declare Bh n m in                                     (* 121 *)
  let m := declare Bu n m in                                     (* 122 *)
  let m := declare BAd n m in                                    (* 123 *)
  let m := declare Bt n m in                                     (* 124 *)
  if buf_eqb s Bh then m else declare s n m.                     (* 125 *)

(** Lines 119-141: the state the loop starts from, and [err]. *)
Definition initialise (n : Z) (m : Machine V) : Outcome (T * LoopState T V) :=
  let m := working_vectors n m in                                (* 119-125 *)
  let err :=
    cmul (cmul (epsilon_ cfg) (epsilon_ cfg)) (blas_dot Bb Bb m) in  (* 128 *)
  let m := declare Br n m in                                     (* 130 *)
  let m := call_mult A Bx Br m in                                (* 131 *)
  let m := blas_axpy (copp c1) Bb Br m in                        (* 132 *)
  let m := blas_copy Br Bd m in                                  (* 135 *)
  let m := blas_copy Bd Bh m in                                  (* 136 *)
  let m := blas_copy Bh BrT m in                                 (* 137 *)
  _ ← c_assert ndebug (negb (IsZero (blas_dot BrT BrT m)));      (* 138 *)
  let rTh := blas_dot BrT Bh m in                                (* 140 *)
  let rTr := blas_dot Br Br m in                                 (* 141 *)
  Returned (err, {| mach := m; rTh := rTh; rTr := rTr;
                    omega := None; its := 0 |}).

(** Lines 180-182. *)
Definition finish (err : T) (max_iter : Z) (st : LoopState T V) : Exit T V :=
  let success := cle (rTr st) err in
  {| success := success;
     final := mach st;
     trace := Some {| rep_success := success; rep_its := its st;
                      rep_max_iter := max_iter; rep_rTr := rTr st;
                      rep_err := err; rep_omega := omega st;
                      rep_rTh := rTh st |} |}.

(** Lines 106-111: [return false] with nothing done. *)
Definition reject (m : Machine V) : Exit T V :=
  {| success := false; final := m; trace := None |}.

(** [solve], lines 104-183. *)
Definition solve_variant (b x : V) : Outcome (Exit T V) :=
  let m := at_entry b x in
  if negb (A_dimension A =? dimension b) then Returned (reject m)     (* 106 *)
  else if negb (A_dimension A =? dimension x) then Returned (reject m) (* 108 *)
  else if A_dimension A <=? 0 then Returned (reject m)                (* 110 *)
  else
    let n := uint (A_dimension A) in                             (* 113 *)
    let max_iter := effective_max_iter n in                      (* 114-118 *)
    '(err, st) ← initialise n m;
    st ← loop err max_iter (Z.to_nat max_iter) st;
    Returned (finish err max_iter st).

End Solver.

(** [Solver_BICGSTAB::solve] as the source has it: [s] is [h]'s storage and
    [u] is updated. *)
Definition solve {T V M : Type}
    `{!CoeffOps T, !VectorOps T V, !MatrixOps V M, !Inhabited V}
    (ndebug : bool) (cfg : Config T) (A : M) (b x : V) : Outcome (Exit T V) :=
  solve_variant ndebug Bh true cfg A b x.

(** The variant of section 9 of the specification that keeps [s] and [h] as two
    vectors and makes the same calls in the same order. *)
Definition solve_distinct_s {T V M : Type}
    `{!CoeffOps T, !VectorOps T V, !MatrixOps V M, !Inhabited V}
    (ndebug : bool) (cfg : Config T) (A : M) (b x : V) : Outcome (Exit T V) :=
  solve_variant ndebug Bs true cfg A b x.

(** The variant of section 9 of the specification that omits the two calls
    that update [u]. *)
Definition solve_without_u {T V M : Type}
    `{!CoeffOps T, !VectorOps T V, !MatrixOps V M, !Inhabited V}
    (ndebug : bool) (cfg : Config T) (A : M) (b x : V) : Outcome (Exit T V) :=
  solve_variant ndebug Bh false cfg A b x.

(** What a caller sees of a returned call: the final [x] and the iteration
    count of the diagnostic line. *)
Definition x_of {T V : Type} `{!Inhabited V} (e : Exit T V) : V :=
  vec (final e) Bx.
Definition its_of {T V : Type} (e : Exit T V) : option Z :=
  rep_its <$> trace e.

(** ** Dense vectors and matrices *)

Section Dense.
Context {T : Type} `{!CoeffOps T}.

(** Modelled from the spec: the BLAS-1 surface of section 4.2 on dense vectors
    ([BLAS<Vector>] and the vector class are not part of bicgstab.h).
    [axpy(a,x,y)] is [y <- y + a*x] element by element. *)
Definition dense_axpy (a : T) (x y : list T) : list T :=
  zip_with (λ xi yi, cadd yi (cmul a xi)) x y.

(** Modelled from the spec: [scal(a,v)] is [v <- a*v] element by element
    (section 4.2). *)
Definition dense_scal (a : T) (v : list T) : list T :=
  map (cmul a) v.

(** Modelled from the spec: [dot(x,y)] is the sum of the products
    [x_i * y_i] (section 4.2), accumulated from index 0. *)
Definition dense_dot (x y : list T) : T :=
  foldl (λ acc p, cadd acc (cmul p.1 p.2)) c0 (zip x y).

(** Modelled from the spec: a vector constructed by dimension is
    zero-initialised (section 6). *)
Definition dense_new (n : Z) : list T := replicate (Z.to_nat n) c0.

#[export] Instance dense_vector : VectorOps T (list T) := {|
  dimension v := Z.of_nat (length v);
  new_Vector := dense_new;
  axpy := dense_axpy;
  scal := dense_scal;
  dot := dense_dot;
|}.

(** Modelled from the spec: [mult(A,x,y)] writes [y <- A*x] (section 4.3); the
    matrix class is not part of bicgstab.h.  A matrix is the list of its
    rows. *)
Definition dense_mult (A : list (list T)) (x : list T) : list T :=
  map (λ row, dense_dot row x) A.

#[export] Instance dense_matrix : MatrixOps (list T) (list (list T)) := {|
  A_dimension A := Z.of_nat (length A);
  mult := dense_mult;
|}.

End Dense.

(** ** Exact scalars: [CoeffType] a type of rational numbers *)

(** The rational of an integer. *)
Definition Qz (z : Z) : Qc := Q2Qc (inject_Z z).

Definition Qc_ltb (a b : Qc) : bool :=
  match (a ?= b)%Qc with Lt => true | _ => false end.
Definition Qc_leb (a b : Qc) : bool :=
  match (a ?= b)%Qc with Gt => false | _ => true end.

Definition Qc_abs (a : Qc) : Qc :=
  if Qc_ltb a (Q2Qc 0) then (- a)%Qc else a.

(** [numeric_limits<double>::min()], the smallest positive normalised
    binary64 number, 2^-1022. *)
Definition DBL_MIN_Qc : Qc := Q2Qc (1 # (2 ^ 1022)).

#[export] Instance exact_coeff : CoeffOps Qc := {|
  c0 := Q2Qc 0;
  c1 := Q2Qc 1;
  c10 := Q2Qc 10;
  cmin := DBL_MIN_Qc;
  cadd := Qcplus;
  cmul := Qcmult;
  copp := Qcopp;
  cdiv a b := if Qc_eq_dec b (Q2Qc 0) then None else Some (a / b)%Qc;
  cabs := Qc_abs;
  clt := Qc_ltb;
  cle := Qc_leb;
|}.

(** ** Binary64 scalars: [CoeffType = double] *)

#[export] Instance double_coeff : CoeffOps float := {|
  c0 := 0%float;
  c1 := 1%float;
  c10 := 10%float;
  cmin := 0x1p-1022%float;
  cadd := PrimFloat.add;
  cmul := PrimFloat.mul;
  copp := PrimFloat.opp;
  cdiv a b := Some (PrimFloat.div a b);
  cabs := PrimFloat.abs;
  clt := PrimFloat.ltb;
  cle := PrimFloat.leb;
|}.

(** The rational a finite binary64 number stands for ([None] for an infinity
    or a NaN). *)
Definition exact_value (f : float) : option Q :=
  match Prim2SF f with
  | S754_zero _ => Some 0%Q
  | S754_finite sign m e =>
      let mag := (inject_Z (Z.pos m) * Qpower 2 e)%Q in
      Some (if sign then Qopp mag else mag)
  | S754_infinity _ => None
  | S754_nan => None
  end.

(** The state an iteration ends in. *)
Definition state_of {S : Type} (c : Control S) : S :=
  match c with Break st => st | Continue st => st end.

(** ** Notions the properties are stated with *)

(** The boolean, the final [x] and the iteration count: what section 9 of the
    specification compares between variants. *)
Definition observe {T V : Type} `{!Inhabited V} (e : Exit T V)
  : bool * V * option Z :=
  (success e, x_of e, its_of e).

(** Two outcomes of the same kind, with related results. *)
Definition outcome_rel {X Y : Type} (R : X → Y → Prop)
    (o1 : Outcome X) (o2 : Outcome Y) : Prop :=
  match o1, o2 with
  | Returned a, Returned b => R a b
  | AssertionFailed, AssertionFailed => True
  | DivisionUndefined, DivisionUndefined => True
  | OutOfFuel, OutOfFuel => True
  | _, _ => False
  end.

(** A correspondence [rho] pairs vectors of one run with vectors of another:
    [rho v = Some w] when the first run's [v] must hold what the second run's
    [w] holds. *)
Definition Correspondence : Type := buf → option buf.

Definition option_buf_eqb (o1 o2 : option buf) : bool :=
  match o1, o2 with
  | Some v, Some w => buf_eqb v w
  | None, None => true
  | _, _ => false
  end.

(** Writing equal contents to [y1] in the first run and to [y2] in the second
    turns correspondence [rho] into [rho']: [rho'] pairs [y1] with [y2] only,
    and elsewhere pairs what [rho] pairs. *)
Definition write_ok (rho rho' : Correspondence) (y1 y2 : buf) : bool :=
  forallb (λ v, match rho' v with
                | None => true
                | Some w =>
                    if buf_eqb v y1 then buf_eqb w y2
                    else negb (buf_eqb w y2) && option_buf_eqb (rho v) (Some w)
                end) all_bufs.

(** Everything but [u] is paired with itself. *)
Definition rho_u : Correspondence :=
  λ v, match v with Bu => None | _ => Some v end.

(** Everything but the separate [s] is paired with itself. *)
Definition rho_head : Correspondence :=
  λ v, match v with Bs => None | _ => Some v end.

(** Between lines 150 and 163 the first run's [h] is the second run's [s]. *)
Definition rho_mid : Correspondence :=
  λ v, match v with Bs => None | Bh => Some Bs | _ => Some v end.

Section Correspondences.
Context {T V : Type} `{!Inhabited V}.

Definition corr (rho : Correspondence) (m1 m2 : Machine V) : Prop :=
  mult_calls m1 = mult_calls m2 ∧
  ∀ v w, rho v = Some w → vec m1 v = vec m2 w.

Definition corr_state (rho : Correspondence) (st1 st2 : LoopState T V) : Prop :=
  corr rho (mach st1) (mach st2) ∧
  rTh st1 = rTh st2 ∧ rTr st1 = rTr st2 ∧ omega st1 = omega st2 ∧
  its st1 = its st2.

Definition corr_control (rho : Correspondence)
    (c1 c2 : Control (LoopState T V)) : Prop :=
  match c1, c2 with
  | Break st1, Break st2 => corr_state rho st1 st2
  | Continue st1, Continue st2 => corr_state rho st1 st2
  | _, _ => False
  end.

End Correspondences.

(** [rho] pairs each of these vectors with itself, and allows writes to it. *)
Definition stable (rho : Correspondence) : bool :=
  forallb (λ v, option_buf_eqb (rho v) (Some v) && write_ok rho rho v v)
          [Bx; Bb; BrT; Bd; Bh; BAd; Bt; Br].

(** The states in which the loop condition of line 143 is evaluated during a
    call [solve(A,b,x)]: the state the initialisation leaves, and the state
    every iteration that reaches its end leaves. *)
Inductive at_loop_condition {T V M : Type}
    `{!CoeffOps T, !VectorOps T V, !MatrixOps V M, !Inhabited V}
    (ndebug : bool) (cfg : Config T) (A : M) (b x : V)
  : LoopState T V → Prop :=
| at_first (err : T) (st : LoopState T V) :
    A_dimension A = dimension b →
    A_dimension A = dimension x →
    0 < A_dimension A →
    initialise ndebug Bh cfg A (uint (A_dimension A)) (at_entry b x)
      = Returned (err, st) →
    at_loop_condition ndebug cfg A b x st
| at_next (st st' : LoopState T V) :
    at_loop_condition ndebug cfg A b x st →
    loop_condition (cmul (cmul (epsilon_ cfg) (epsilon_ cfg)) (dot b b))
                   (effective_max_iter cfg (uint (A_dimension A))) st = true →
    iteration ndebug Bh true A st = Returned (Continue st') →
    at_loop_condition ndebug cfg A b x st'.

Section Residual.
Context {T V M : Type} `{!CoeffOps T, !VectorOps T V, !MatrixOps V M, !Inhabited V}.
Variable A : M.
Variable b : V.

(** [r = A*x - b], as [mult] and [axpy] compute it, with the dimensions that
    make the updates meaningful. *)
Definition residual_holds (st : LoopState T V) : Prop :=
  let m := mach st in
  vec m Bb = b ∧
  vec m Br = axpy (copp c1) b (mult A (vec m Bx)) ∧
  dimension (vec m Bx) = A_dimension A ∧
  dimension (vec m Bd) = A_dimension A ∧
  dimension (vec m Bh) = A_dimension A.

End Residual.

(** A call that ran to an end: it returned, or stopped at an assertion or at
    an undefined quotient. *)
Definition ended {X : Type} (o : Outcome X) : bool :=
  match o with OutOfFuel => false | _ => true end.

(** The residual [A*x - b] and the squared norm [v.v] in rational arithmetic,
    written without the BLAS calls of the solver. *)
Definition sum_Qc (l : list Qc) : Qc := foldr Qcplus 0%Qc l.
Definition matvec (A : list (list Qc)) (x : list Qc) : list Qc :=
  map (λ row, sum_Qc (zip_with Qcmult row x)) A.
Definition residual (A : list (list Qc)) (b x : list Qc) : list Qc :=
  zip_with Qcminus (matvec A x) b.
Definition norm2 (v : list Qc) : Qc := sum_Qc (map (λ c, c * c)%Qc v).

(** ** Block-periodic systems *)

(** A vector type and a matrix type to instantiate the template with, for
    systems too large to write out: a vector made of [reps] copies of a block
    of five rationals, and a block-diagonal matrix made of [copies] copies of
    one 5x5 block.  Element by element the operations are those of dense
    vectors; a dot product is [reps] times the dot product of the blocks. *)
Record Periodic : Type := {
  reps : Z;
  block : list Qc;
}.
Record BlockDiagonal : Type := {
  copies : Z;
  diagonal_block : list (list Qc);
}.

#[export] Instance Periodic_inhabited : Inhabited Periodic :=
  populate {| reps := 0; block := [] |}.

#[export] Instance periodic_vector : VectorOps Qc Periodic := {|
  dimension v := reps v * Z.of_nat (length (block v));
  new_Vector n := {| reps := n / 5; block := replicate 5 (Qz 0) |};
  axpy a x y := {| reps := reps y; block := dense_axpy a (block x) (block y) |};
  scal a x := {| reps := reps x; block := dense_scal a (block x) |};
  dot x y := (Qz (reps x) * dense_dot (block x) (block y))%Qc;
|}.

#[export] Instance block_diagonal_matrix : MatrixOps Periodic BlockDiagonal := {|
  A_dimension A := copies A * Z.of_nat (length (diagonal_block A));
  mult A x := {| reps := reps x;
                 block := dense_mult (diagonal_block A) (block x) |};
|}.

(** 85899346 copies of the 5x5 matrix tridiag(-1,2,-1), with the right-hand
    side (1,0,0,0,0) in every block and the first guess 0: a system of
    dimension 429496730. *)
Definition laplace5 : list (list Qc) :=
  map (map Qz) [[2; -1; 0; 0; 0]; [-1; 2; -1; 0; 0]; [0; -1; 2; -1; 0];
                [0; 0; -1; 2; -1]; [0; 0; 0; -1; 2]].
Definition A_large : BlockDiagonal :=
  {| copies := 85899346; diagonal_block := laplace5 |}.
Definition b_large : Periodic :=
  {| reps := 85899346; block := map Qz [1; 0; 0; 0; 0] |}.
Definition x_large : Periodic :=
  {| reps := 85899346; block := map Qz [0; 0; 0; 0; 0] |}.
Definition cfg_cap5 : Config Qc :=
  {| epsilon_ := Q2Qc (1 # 10000); max_iter_ := 5 |}.

(** ** Example inputs *)

(** Scenario 1 of the specification: n = 1, A = [[2]], b = [4], x0 = [0],
    eps = 1e-6. *)
Definition cfg_scenario1 : Config Qc :=
  {| epsilon_ := Q2Qc (1 # 1000000); max_iter_ := 0 |}.
Definition A_scenario1 : list (list Qc) := [[Qz 2]].
Definition b_scenario1 : list Qc := [Qz 4].
Definition x_scenario1 : list Qc := [Qz 0].

(** Scenario 5 of the specification: a matrix of dimension 3 and a right-hand
    side of dimension 2. *)
Definition A_scenario5 : list (list Qc) :=
  [[Qz 1; Qz 0; Qz 0]; [Qz 0; Qz 1; Qz 0]; [Qz 0; Qz 0; Qz 1]].
Definition b_scenario5 : list Qc := [Qz 3; Qz (-5)].

(** The state the loop starts from, for a call that passes validation and the
    assertion of line 138. *)
Definition start_state {T V M : Type}
    `{!CoeffOps T, !VectorOps T V, !MatrixOps V M, !Inhabited V}
    (cfg : Config T) (A : M) (b x : V) : option (T * LoopState T V) :=
  match initialise true Bh cfg A (uint (A_dimension A)) (at_entry b x) with
  | Returned p => Some p
  | _ => None
  end.

(** The configuration the constructor leaves (lines 90-94): [epsilon_ = 1e-4],
    [max_iter_ = 0]. *)
Definition cfg_default : Config Qc :=
  {| epsilon_ := Q2Qc (1 # 10000); max_iter_ := 0 |}.

(** A quarter turn of the plane: n = 2, A = [[0,1],[-1,0]], b = [1,0],
    x0 = [0,0].  The first direction [d] is orthogonal to [A*d]. *)
Definition A_turn : list (list Qc) := [[Qz 0; Qz 1]; [Qz (-1); Qz 0]].
Definition b_turn : list Qc := [Qz 1; Qz 0].
Definition x_turn : list Qc := [Qz 0; Qz 0].

(** The same inputs in binary64; [epsilon_] is the double nearest to 1e-4,
    the constructor's default. *)
Definition cfg_default_double : Config float :=
  {| epsilon_ := 0x1.a36e2eb1c432dp-14%float; max_iter_ := 0 |}.
Definition A_turn_double : list (list float) := [[0; 1]; [-1; 0]]%float.
Definition b_turn_double : list float := [1; 0]%float.
Definition x_turn_double : list float := [0; 0]%float.

(** Scenario 1 in binary64; [epsilon_] is the double nearest to 1e-6. *)
Definition cfg_scenario1_double : Config float :=
  {| epsilon_ := 0x1.0c6f7a0b5ed8dp-20%float; max_iter_ := 0 |}.

(** The state scenario 1 enters the loop with, and its [err]. *)
Definition empty_state : LoopState Qc (list Qc) :=
  {| mach := at_entry [] []; rTh := Qz 0; rTr := Qz 0; omega := None;
     its := 0 |}.
Definition st_scenario1 : LoopState Qc (list Qc) :=
  match start_state cfg_scenario1 A_scenario1 b_scenario1 x_scenario1 with
  | Some p => p.2
  | None => empty_state
  end.
Definition err_scenario1 : Qc :=
  match start_state cfg_scenario1 A_scenario1 b_scenario1 x_scenario1 with
  | Some p => p.1
  | None => Qz 0
  end.

(** The state the quarter turn enters the loop with, and its [err]. *)
Definition st_turn : LoopState Qc (list Qc) :=
  match start_state cfg_default A_turn b_turn x_turn with
  | Some p => p.2
  | None => empty_state
  end.
Definition err_turn : Qc :=
  match start_state cfg_default A_turn b_turn x_turn with
  | Some p => p.1
  | None => Qz 0
  end.

(** Scenario 2: n = 2, A = [[4,1],[1,3]], b = [1,2], x0 = [0,0], eps = 1e-8. *)
Definition cfg_scenario2 : Config Qc :=
  {| epsilon_ := Q2Qc (1 # 100000000); max_iter_ := 0 |}.
Definition A_scenario2 : list (list Qc) := [[Qz 4; Qz 1]; [Qz 1; Qz 3]].
Definition b_scenario2 : list Qc := [Qz 1; Qz 2].
Definition x_scenario2 : list Qc := [Qz 0; Qz 0].

(** The states of scenario 2 at the first and at the second evaluation of the
    loop condition. *)
Definition st_scenario2 : LoopState Qc (list Qc) :=
  match start_state cfg_scenario2 A_scenario2 b_scenario2 x_scenario2 with
  | Some p => p.2
  | None => empty_state
  end.
Definition err_scenario2 : Qc :=
  match start_state cfg_scenario2 A_scenario2 b_scenario2 x_scenario2 with
  | Some p => p.1
  | None => Qz 0
  end.
Definition st_scenario2_next : LoopState Qc (list Qc) :=
  match iteration false Bh true A_scenario2 st_scenario2 with
  | Returned (Continue st) => st
  | _ => empty_state
  end.

(** Scenario 4: n = 2, A the identity, b = x0 = [3,-5]. *)
Definition A_scenario4 : list (list Qc) := [[Qz 1; Qz 0]; [Qz 0; Qz 1]].
Definition b_scenario4 : list Qc := [Qz 3; Qz (-5)].
Definition A_scenario4_double : list (list float) := [[1; 0]; [0; 1]]%float.
Definition b_scenario4_double : list float := [3; -5]%float.

(** A system of one equation, x = 1, with the first guess x0 = 1e20. *)
Definition A_far : list (list float) := [[1]]%float.
Definition b_far : list float := [1]%float.
Definition x_far : list float := [1e20]%float.

(** Whether [|A*x - b|^2 <= eps^2 * |b|^2] for binary64 data, every number
    taken as the rational it stands for and all arithmetic exact
    ([None] when a number is infinite or a NaN). *)
Definition exact_vector (v : list float) : option (list Q) :=
  mapM exact_value v.
Definition exact_residual_ok (eps : float) (A : list (list float))
    (b x : list float) : option bool :=
  A' ← mapM exact_vector A;
  b' ← exact_vector b;
  x' ← exact_vector x;
  eps' ← exact_value eps;
  let dotQ (u v : list Q) : Q := foldr Qplus 0%Q (zip_with Qmult u v) in
  let r := zip_with Qminus (map (λ row, dotQ row x') A') b' in
  Some (Qle_bool (dotQ r r) (eps' * eps' * dotQ b' b')%Q).

(** Scenario 6 of the specification in small: the 5x5 system with a cap
    of 1. *)
Definition cfg_cap1 : Config Qc :=
  {| epsilon_ := Q2Qc (1 # 10000); max_iter_ := 1 |}.
Definition b_laplace5 : list Qc := map Qz [1; 0; 0; 0; 0].
Definition x_laplace5 : list Qc := map Qz [0; 0; 0; 0; 0].

(** A system of one equation whose first step overflows in binary64:
    A = [[2^-600]], b = [2^500], x0 = [0]. *)
Definition A_overflow : list (list float) := [[0x1p-600]]%float.
Definition b_overflow : list float := [0x1p500]%float.
Definition x_overflow : list float := [0]%float.

(** A system of dimension 3 whose first iteration ends with [rTh = 0] and
    whose second iteration finds [rTAd = 0]:
    A = [[1,0,0],[-1,1,0],[0,1,1]], b = [-1,0,0], x0 = 0. *)
Definition A_stall : list (list Qc) :=
  map (map Qz) [[1; 0; 0]; [-1; 1; 0]; [0; 1; 1]].
Definition b_stall : list Qc := map Qz [-1; 0; 0].
Definition x_stall : list Qc := map Qz [0; 0; 0].
Definition A_stall_double : list (list float) :=
  [[1; 0; 0]; [-1; 1; 0]; [0; 1; 1]]%float.
Definition b_stall_double : list float := [-1; 0; 0]%float.
Definition x_stall_double : list float := [0; 0; 0]%float.

(** The states of that system at the first and at the second evaluation of
    the loop condition, in exact arithmetic and in binary64. *)
Definition st_stall : LoopState Qc (list Qc) :=
  match start_state cfg_default A_stall b_stall x_stall with
  | Some p => p.2
  | None => empty_state
  end.
Definition st_stall_next : LoopState Qc (list Qc) :=
  match iteration false Bh true A_stall st_stall with
  | Returned (Continue st) => st
  | _ => empty_state
  end.
Definition empty_state_double : LoopState float (list float) :=
  {| mach := at_entry [] []; rTh := 0%float; rTr := 0%float; omega := None;
     its := 0 |}.
Definition st_stall_double : LoopState float (list float) :=
  match start_state cfg_default_double A_stall_double b_stall_double
          x_stall_double with
  | Some p => p.2
  | None => empty_state_double
  end.
Definition st_stall_double_next : LoopState float (list float) :=
  match iteration true Bh true A_stall_double st_stall_double with
  | Returned (Continue st) => st
  | _ => empty_state_double
  end.

(** A tolerance whose square overflows in binary64: the double nearest to
    1e200. *)
Definition cfg_huge_epsilon : Config float :=
  {| epsilon_ := 0x1.4e718d7d7625ap+664%float; max_iter_ := 0 |}.
Definition zeros2_double : list float := [0; 0]%float.

(** A binary64 number that is a NaN or has a clear sign bit. *)
Definition sign_clear (x : spec_float) : bool :=
  match x with
  | S754_zero s => negb s
  | S754_infinity s => negb s
  | S754_finite s _ _ => negb s
  | S754_nan => true
  end.

(** * Properties *)

(** ** The outcome monad *)

Lemma bind_Returned {A B : Type} (o : Outcome A) (f : A → Outcome B) (b : B) :
  o ≫= f = Returned b ↔ ∃ a, o = Returned a ∧ f a = Returned b.
Proof.
  destruct o; simpl; split; try (intros (a' & Ha & _); discriminate Ha);
    try discriminate.
  - intros Hf. by exists a.
  - by intros (a' & [= <-] & Hf).
Qed.

Lemma fmap_Returned {A B : Type} (o : Outcome A) (f : A → B) (b : B) :
  f <$> o = Returned b ↔ ∃ a, o = Returned a ∧ f a = b.
Proof.
  destruct o; simpl; split; try (intros (a' & Ha & _); discriminate Ha);
    try discriminate.
  - intros [= <-]. by exists a.
  - by intros (a' & [= <-] & <-).
Qed.

Lemma c_assert_Returned (ndebug c : bool) (u : unit) :
  c_assert ndebug c = Returned u ↔ ndebug || c = true.
Proof.
  unfold c_assert. destruct u, (ndebug || c); split; try done.
Qed.

Lemma quotient_Returned `{CoeffOps T} (a b q : T) :
  quotient a b = Returned q ↔ cdiv a b = Some q.
Proof.
  unfold quotient. destruct (cdiv a b); split; intros E; by inversion E.
Qed.

Lemma bind_OutOfFuel {A B : Type} (o : Outcome A) (f : A → Outcome B) :
  o ≫= f = OutOfFuel → o = OutOfFuel ∨ ∃ a, o = Returned a ∧ f a = OutOfFuel.
Proof. destruct o; simpl; try done; eauto. Qed.

Lemma c_assert_fuel (ndebug c : bool) : c_assert ndebug c ≠ OutOfFuel.
Proof. unfold c_assert. by destruct (ndebug || c). Qed.

Lemma quotient_fuel `{CoeffOps T} (a b : T) : quotient a b ≠ OutOfFuel.
Proof. unfold quotient. by destruct (cdiv a b). Qed.

Lemma uint_range (z : Z) : 0 ≤ uint z ≤ UINT_MAX.
Proof.
  unfold uint. change (UINT_MAX + 1) with 4294967296. unfold UINT_MAX.
  pose proof (Z.mod_pos_bound z 4294967296 eq_refl). lia.
Qed.

Lemma uint_small (z : Z) : 0 ≤ z ≤ UINT_MAX → uint z = z.
Proof.
  unfold uint. change (UINT_MAX + 1) with 4294967296. unfold UINT_MAX.
  intros ?. apply Z.mod_small. lia.
Qed.

(** ** The loop *)

Section Loop.
Context {T V M : Type} `{!CoeffOps T, !VectorOps T V, !MatrixOps V M, !Inhabited V}.
Variable ndebug : bool.
Variable s : buf.
Variable keep_u : bool.
Variable A : M.

(** The name [s] stands for [h]'s storage or for storage of its own. *)
Hypothesis s_storage : s = Bh ∨ s = Bs.

(** An iteration that returns, taken apart along its stages. *)
Lemma iteration_Returned (st : LoopState T V) (c : Control (LoopState T V)) :
  iteration ndebug s keep_u A st = Returned c →
  ∃ a w,
    let m1 := call_mult A Bd BAd (mach st) in
    let m2 := bicg_step s keep_u A a m1 in
    let st1 := stabilise s a w m2 st in
    ndebug || negb (IsZero (blas_dot BrT BAd m1)) = true ∧
    cdiv (rTh st) (blas_dot BrT BAd m1) = Some a ∧
    choose_omega (blas_dot s Bt m2) (blas_dot Bt Bt m2) = Returned w ∧
    ((c = Break st1 ∧ IsZero w || IsZero (rTh st) = true) ∨
     (∃ st2, c = Continue st2 ∧ IsZero w = false ∧ IsZero (rTh st) = false ∧
             next_direction a w st1 = Returned st2)).
Proof.
  unfold iteration.
  intros ([] & Has%c_assert_Returned & Hrest)%bind_Returned.
  apply bind_Returned in Hrest as (a & Ha%quotient_Returned & Hrest).
  unfold after_alpha in Hrest.
  apply bind_Returned in Hrest as (w & Hw & Hrest).
  exists a, w. cbv zeta. split_and!; try done.
  destruct (IsZero w) eqn:Ew.
  { left. by inversion Hrest. }
  change (rTh (stabilise s a w _ st)) with (rTh st) in Hrest.
  destruct (IsZero (rTh st)) eqn:Eh.
  { left. by inversion Hrest. }
  right. apply fmap_Returned in Hrest as (st2 & Hst2 & <-).
  by exists st2.
Qed.

Lemma stabilise_rTr (a w : T) (m : Machine V) (st : LoopState T V) :
  rTr (stabilise s a w m st) = blas_dot Br Br (mach (stabilise s a w m st)).
Proof. destruct s_storage as [-> | ->]; reflexivity. Qed.

Lemma next_direction_Returned (a w : T) (st st2 : LoopState T V) :
  next_direction a w st = Returned st2 →
  its st2 = uint (its st + 1) ∧ rTr st2 = rTr st ∧ omega st2 = Some w ∧
  mult_calls (mach st2) = mult_calls (mach st) ∧
  ∀ v, v ≠ Bd → vec (mach st2) v = vec (mach st) v.
Proof.
  unfold next_direction.
  intros (q & _ & (beta & _ & [= <-])%bind_Returned)%bind_Returned.
  split_and!; try reflexivity. by intros [].
Qed.

(** A property of the loop state that the first state has and every
    iteration keeps, holds when the loop is left. *)
Lemma loop_invariant (P : LoopState T V → Prop) (err : T) (max_iter : Z) :
  (∀ st c, P st → loop_condition err max_iter st = true →
           iteration ndebug s keep_u A st = Returned c → P (state_of c)) →
  ∀ fuel st st', P st →
    loop ndebug s keep_u A err max_iter fuel st = Returned st' → P st'.
Proof.
  intros Hstep. induction fuel as [|fuel IH]; intros st st' HP; simpl.
  - destruct (loop_condition err max_iter st); [done|]. by intros [= <-].
  - destruct (loop_condition err max_iter st) eqn:Hc; [|by intros [= <-]].
    intros (c & Hit & Hrest)%bind_Returned.
    pose proof (Hstep st c HP Hc Hit) as HP'.
    destruct c as [st1|st1]; simpl in HP'.
    + by inversion Hrest; subst.
    + by eapply IH.
Qed.

(** The counter stays within the cap. *)
Lemma iteration_its (err : T) (max_iter : Z) (st : LoopState T V)
    (c : Control (LoopState T V)) :
  0 ≤ its st ≤ max_iter → loop_condition err max_iter st = true →
  iteration ndebug s keep_u A st = Returned c →
  0 ≤ its (state_of c) ≤ max_iter.
Proof.
  intros Hits [_ Hlt%Z.ltb_lt]%andb_prop
    (a & w & _ & _ & _ & [[-> _] | (st2 & -> & _ & _ & Hn)])%iteration_Returned.
  - done.
  - simpl. apply next_direction_Returned in Hn as (-> & _).
    change (its (stabilise s a w _ st)) with (its st).
    pose proof (uint_range (its st + 1)).
    assert (uint (its st + 1) ≤ its st + 1); [|lia].
    unfold uint. apply Z.mod_le; [lia|done].
Qed.

(** The fuel [solve] gives the loop is enough: the loop returns, or stops at
    an assertion or at an undefined quotient. *)
Lemma loop_fuel (err : T) (max_iter : Z) (fuel : nat) (st : LoopState T V) :
  max_iter ≤ UINT_MAX → 0 ≤ its st → max_iter - its st ≤ Z.of_nat fuel →
  loop ndebug s keep_u A err max_iter fuel st ≠ OutOfFuel.
Proof.
  intros Hmax. revert st.
  induction fuel as [|fuel IH]; intros st Hits Hfuel; simpl;
    destruct (loop_condition err max_iter st) eqn:Hc; try done.
  - apply andb_prop in Hc as [_ Hlt%Z.ltb_lt]. lia.
  - destruct (iteration ndebug s keep_u A st) as [[st1|st1]| | |] eqn:Hit;
      simpl; try done.
    + apply iteration_Returned in Hit
        as (a & w & _ & _ & _ & [[[=] _] | (st2 & [= <-] & _ & _ & Hn)]).
      apply next_direction_Returned in Hn as (Hn & _).
      change (its (stabilise s a w _ st)) with (its st) in Hn.
      apply andb_prop in Hc as [_ Hlt%Z.ltb_lt].
      rewrite uint_small in Hn by lia.
      apply IH; lia.
    + intros _. unfold iteration, after_alpha in Hit.
      apply bind_OutOfFuel in Hit as [Hit | (? & _ & Hit)];
        [by apply c_assert_fuel in Hit|].
      apply bind_OutOfFuel in Hit as [Hit | (a & _ & Hit)];
        [by apply quotient_fuel in Hit|].
      apply bind_OutOfFuel in Hit as [Hit | (w & _ & Hit)].
      { unfold choose_omega in Hit. destruct (_ || _); [done|].
        by apply quotient_fuel in Hit. }
      destruct (IsZero w); [done|].
      destruct (IsZero _); [done|].
      destruct (next_direction _ _ _) eqn:Hn; try done.
      unfold next_direction in Hn.
      apply bind_OutOfFuel in Hn as [Hn | (q & _ & Hn)];
        [by apply quotient_fuel in Hn|].
      apply bind_OutOfFuel in Hn as [Hn | (beta & _ & Hn)];
        [by apply quotient_fuel in Hn|done].
Qed.

End Loop.

(** ** Calls that pass the validation of lines 106-111 *)

Section Calls.
Context {T V M : Type} `{!CoeffOps T, !VectorOps T V, !MatrixOps V M, !Inhabited V}.
Variable ndebug : bool.
Variable s : buf.
Variable keep_u : bool.
Variable cfg : Config T.
Variable A : M.
Variables b x : V.

Hypothesis s_storage : s = Bh ∨ s = Bs.

(** The three tests of lines 106-111 all fail. *)
Hypothesis dimension_b : A_dimension A = dimension b.
Hypothesis dimension_x : A_dimension A = dimension x.
Hypothesis dimension_pos : 0 < A_dimension A.

Let n : Z := uint (A_dimension A).
Let max_iter : Z := effective_max_iter cfg n.

Lemma effective_max_iter_range (k : Z) :
  0 ≤ effective_max_iter cfg k ≤ UINT_MAX.
Proof.
  unfold effective_max_iter. destruct (_ =? 0); apply uint_range.
Qed.

(** A valid call is the initialisation, the loop and lines 180-182. *)
Lemma solve_variant_valid :
  solve_variant ndebug s keep_u cfg A b x =
  '(err, st) ← initialise ndebug s cfg A n (at_entry b x);
  st ← loop ndebug s keep_u A err max_iter (Z.to_nat max_iter) st;
  Returned (finish err max_iter st).
Proof.
  unfold solve_variant.
  rewrite <-dimension_b, <-dimension_x, Z.eqb_refl. simpl.
  destruct (Z.leb_spec (A_dimension A) 0); [lia|done].
Qed.

(** What the initialisation leaves. *)
Lemma initialise_Returned (err : T) (st : LoopState T V) :
  initialise ndebug s cfg A n (at_entry b x) = Returned (err, st) →
  err = cmul (cmul (epsilon_ cfg) (epsilon_ cfg)) (dot b b) ∧
  its st = 0 ∧ omega st = None ∧
  rTr st = blas_dot Br Br (mach st) ∧
  rTh st = blas_dot BrT Bh (mach st) ∧
  vec (mach st) Bx = x ∧ vec (mach st) Bb = b ∧
  vec (mach st) Br = axpy (copp c1) b (mult A x) ∧
  vec (mach st) Bd = vec (mach st) Br ∧
  vec (mach st) Bh = vec (mach st) Br ∧
  vec (mach st) BrT = vec (mach st) Br.
Proof.
  unfold initialise.
  intros ([] & _ & [= <- <-])%bind_Returned.
  destruct s_storage as [-> | ->]; split_and!; reflexivity.
Qed.

Lemma solve_variant_Returned (e : Exit T V) :
  solve_variant ndebug s keep_u cfg A b x = Returned e →
  ∃ err st0 st,
    initialise ndebug s cfg A n (at_entry b x) = Returned (err, st0) ∧
    loop ndebug s keep_u A err max_iter (Z.to_nat max_iter) st0 = Returned st ∧
    e = finish err max_iter st.
Proof.
  rewrite solve_variant_valid.
  intros ([err st0] & Hinit & (st & Hloop & [= <-])%bind_Returned)%bind_Returned.
  by exists err, st0, st.
Qed.

(** The value of [rTr] is the squared norm of the vector [r] when the loop is
    left, and the counter is within the cap. *)
Lemma solve_variant_exit (e : Exit T V) :
  solve_variant ndebug s keep_u cfg A b x = Returned e →
  ∃ r, trace e = Some r ∧
    success e = cle (rep_rTr r) (rep_err r) ∧
    rep_success r = success e ∧
    rep_err r = cmul (cmul (epsilon_ cfg) (epsilon_ cfg)) (dot b b) ∧
    rep_rTr r = dot (vec (final e) Br) (vec (final e) Br) ∧
    rep_max_iter r = max_iter ∧
    0 ≤ rep_its r ≤ max_iter.
Proof.
  intros (err & st0 & st & Hinit & Hloop & ->)%solve_variant_Returned.
  apply initialise_Returned in Hinit as (-> & Hits & _ & HrTr & _).
  eexists. split; [reflexivity|]. simpl.
  assert (rTr st = blas_dot Br Br (mach st) ∧ 0 ≤ its st ≤ max_iter)
    as [Hr Hi]; [|by rewrite Hr].
  eapply (loop_invariant ndebug s keep_u A
            (λ st, rTr st = blas_dot Br Br (mach st) ∧ 0 ≤ its st ≤ max_iter));
    [ |  | exact Hloop].
  - intros st1 c [_ Hi] Hc Hit. split.
    + apply (iteration_Returned ndebug s keep_u A) in Hit
        as (a & w & _ & _ & _ & [[-> _] | (st2 & -> & _ & _ & Hn)]);
        cbn [state_of].
      * by apply stabilise_rTr.
      * apply next_direction_Returned in Hn as (_ & -> & _ & _ & Hv).
        unfold blas_dot. rewrite Hv by done. by apply stabilise_rTr.
    + by eapply iteration_its.
  - split; [done|]. rewrite Hits. split; [done|].
    apply effective_max_iter_range.
Qed.

(** The loop is given enough fuel. *)
Lemma solve_variant_fuel :
  solve_variant ndebug s keep_u cfg A b x ≠ OutOfFuel.
Proof.
  rewrite solve_variant_valid. intros Hs.
  apply bind_OutOfFuel in Hs as [Hs | ([err st0] & Hinit & Hs)].
  { unfold initialise in Hs.
    apply bind_OutOfFuel in Hs as [Hs | (? & _ & Hs)]; [|done].
    by apply c_assert_fuel in Hs. }
  apply bind_OutOfFuel in Hs as [Hs | (? & _ & Hs)]; [|done].
  apply initialise_Returned in Hinit as (_ & Hits & _).
  revert Hs. apply loop_fuel; try done.
  - apply effective_max_iter_range.
  - lia.
  - pose proof (effective_max_iter_range n). fold max_iter in H. lia.
Qed.

End Calls.

(** The state the loop of a call is left in was met at an evaluation of the
    loop condition, or comes from such a state by an iteration that ends at a
    [break]. *)
Lemma loop_exit_reached {T V M : Type}
    `{!CoeffOps T, !VectorOps T V, !MatrixOps V M, !Inhabited V}
    (ndebug : bool) (cfg : Config T) (A : M) (b x : V) (fuel : nat)
    (st st' : LoopState T V) :
  let err := cmul (cmul (epsilon_ cfg) (epsilon_ cfg)) (dot b b) in
  let max_iter := effective_max_iter cfg (uint (A_dimension A)) in
  at_loop_condition ndebug cfg A b x st →
  loop ndebug Bh true A err max_iter fuel st = Returned st' →
  at_loop_condition ndebug cfg A b x st' ∨
  ∃ st1, at_loop_condition ndebug cfg A b x st1 ∧
         loop_condition err max_iter st1 = true ∧
         iteration ndebug Bh true A st1 = Returned (Break st').
Proof.
  intros err max_iter. revert st.
  induction fuel as [|fuel IH]; intros st Hat; simpl;
    destruct (loop_condition err max_iter st) eqn:Hc; try done;
    try (intros [= <-]; by left).
  intros ([st1|st1] & Hit & Hrest)%bind_Returned.
  - injection Hrest as <-. right. by exists st.
  - apply (IH st1); [|done]. by eapply at_next.
Qed.

(** ** The returned boolean *)

(** C2: for a call that passes the validation of lines 106-111 and returns,
    the boolean returned is [rTr <= err] as the diagnostic line reports them,
    whichever way the loop was left; [err] is [epsilon_*epsilon_*dot(b,b)] and
    [rTr] is [dot(r,r)] for the vector [r] as it is at the return. *)
Theorem solve_success_is_rTr_le_err {T V M : Type}
    `{!CoeffOps T, !VectorOps T V, !MatrixOps V M, !Inhabited V}
    (ndebug : bool) (cfg : Config T) (A : M) (b x : V) (e : Exit T V) :
  A_dimension A = dimension b →
  A_dimension A = dimension x →
  0 < A_dimension A →
  solve ndebug cfg A b x = Returned e →
  ∃ r, trace e = Some r ∧
    success e = cle (rep_rTr r) (rep_err r) ∧
    rep_err r = cmul (cmul (epsilon_ cfg) (epsilon_ cfg)) (dot b b) ∧
    rep_rTr r = dot (vec (final e) Br) (vec (final e) Br).
Proof.
  intros Hb Hx Hpos Hsolve.
  destruct (solve_variant_exit ndebug Bh true cfg A b x (or_introl eq_refl)
              Hb Hx Hpos e Hsolve) as (r & Ht & Hs & _ & He & Hr & _).
  by exists r.
Qed.

(** Scenario 1 is left at the [break] of line 168. *)
Lemma solve_success_is_rTr_le_err_witness :
  ∃ e r, solve false cfg_scenario1 A_scenario1 b_scenario1 x_scenario1
           = Returned e ∧
    trace e = Some r ∧
    success e = cle (rep_rTr r) (rep_err r) ∧
    rep_err r = cmul (cmul (epsilon_ cfg_scenario1) (epsilon_ cfg_scenario1))
                     (dot b_scenario1 b_scenario1) ∧
    rep_rTr r = dot (vec (final e) Br) (vec (final e) Br).
Proof.
  assert (∃ e, solve false cfg_scenario1 A_scenario1 b_scenario1 x_scenario1
               = Returned e) as [e He].
  { eexists. vm_compute. reflexivity. }
  destruct (solve_success_is_rTr_le_err false cfg_scenario1 A_scenario1
              b_scenario1 x_scenario1 e) as (r & Hr);
    [reflexivity | reflexivity | reflexivity | exact He |].
  by exists e, r.
Defined.

(** ** Input validation *)

(** Lines 106-111. *)
Lemma solve_variant_invalid {T V M : Type}
    `{!CoeffOps T, !VectorOps T V, !MatrixOps V M, !Inhabited V}
    (ndebug : bool) (s : buf) (keep_u : bool) (cfg : Config T) (A : M)
    (b x : V) :
  A_dimension A ≠ dimension b ∨ A_dimension A ≠ dimension x ∨
    A_dimension A ≤ 0 →
  solve_variant ndebug s keep_u cfg A b x = Returned (reject (at_entry b x)).
Proof.
  intros Hbad. unfold solve_variant.
  destruct (Z.eqb_spec (A_dimension A) (dimension b)); simpl; [|done].
  destruct (Z.eqb_spec (A_dimension A) (dimension x)); simpl; [|done].
  destruct (Z.leb_spec (A_dimension A) 0); [done|]. lia.
Qed.

(** A call is rejected with nothing done, or passes the three tests. *)
Lemma solve_rejected_or_valid {T V M : Type}
    `{!CoeffOps T, !VectorOps T V, !MatrixOps V M, !Inhabited V}
    (ndebug : bool) (cfg : Config T) (A : M) (b x : V) :
  solve ndebug cfg A b x = Returned (reject (at_entry b x)) ∨
  (A_dimension A = dimension b ∧ A_dimension A = dimension x ∧
   0 < A_dimension A).
Proof.
  destruct (decide (A_dimension A = dimension b)) as [Hb|Hb]; last first.
  { left. apply solve_variant_invalid. tauto. }
  destruct (decide (A_dimension A = dimension x)) as [Hx|Hx]; last first.
  { left. apply solve_variant_invalid. tauto. }
  destruct (decide (0 < A_dimension A)) as [Hpos|Hpos]; last first.
  { left. apply solve_variant_invalid. right. right. lia. }
  by right.
Qed.

(** C5: when the dimension of the matrix differs from that of [b] or of [x],
    or is not positive, [solve] returns false with everything as it was at
    entry: [x] is the caller's [x], no vector beside [x] and [b] exists, [mult]
    was not called and no diagnostic line was written. *)
Theorem solve_rejects_bad_dimensions {T V M : Type}
    `{!CoeffOps T, !VectorOps T V, !MatrixOps V M, !Inhabited V}
    (ndebug : bool) (cfg : Config T) (A : M) (b x : V) :
  A_dimension A ≠ dimension b ∨ A_dimension A ≠ dimension x ∨
    A_dimension A ≤ 0 →
  ∃ e, solve ndebug cfg A b x = Returned e ∧
    success e = false ∧
    final e = at_entry b x ∧
    x_of e = x ∧
    live (final e) = [Bx; Bb] ∧
    mult_calls (final e) = 0%nat ∧
    trace e = None.
Proof.
  intros Hbad. exists (reject (at_entry b x)). split; [|done].
  by apply solve_variant_invalid.
Qed.

Lemma solve_rejects_bad_dimensions_witness :
  ∃ e, solve false cfg_scenario1 A_scenario5 b_scenario5 b_scenario5
         = Returned e ∧
    success e = false ∧
    final e = at_entry b_scenario5 b_scenario5 ∧
    x_of e = b_scenario5 ∧
    live (final e) = [Bx; Bb] ∧
    mult_calls (final e) = 0%nat ∧
    trace e = None.
Proof.
  apply (solve_rejects_bad_dimensions false cfg_scenario1 A_scenario5
           b_scenario5 b_scenario5).
  left. vm_compute. discriminate.
Defined.

(** ** Runs that correspond *)

Lemma outcome_rel_bind {X Y X' Y' : Type}
    (R : X → Y → Prop) (R' : X' → Y' → Prop)
    (o1 : Outcome X) (o2 : Outcome Y)
    (f1 : X → Outcome X') (f2 : Y → Outcome Y') :
  outcome_rel R o1 o2 →
  (∀ a b, R a b → outcome_rel R' (f1 a) (f2 b)) →
  outcome_rel R' (o1 ≫= f1) (o2 ≫= f2).
Proof. destruct o1, o2; simpl; try done. intros ? Hf. by apply Hf. Qed.

Lemma outcome_rel_eq {X : Type} (o : Outcome X) : outcome_rel eq o o.
Proof. by destruct o. Qed.

Lemma outcome_rel_fmap {X Y : Type} (R : X → Y → Prop) {Z : Type}
    (f : X → Z) (g : Y → Z) (o1 : Outcome X) (o2 : Outcome Y) :
  outcome_rel R o1 o2 → (∀ a b, R a b → f a = g b) → f <$> o1 = g <$> o2.
Proof. destruct o1, o2; simpl; try done. intros ? Hf. f_equal. by apply Hf. Qed.

Lemma buf_eqb_eq (v w : buf) : buf_eqb v w = true ↔ v = w.
Proof. by destruct v, w. Qed.

Lemma buf_eqb_refl (v : buf) : buf_eqb v v = true.
Proof. by destruct v. Qed.

Section Heap.
Context {T V M : Type} `{!CoeffOps T, !VectorOps T V, !MatrixOps V M, !Inhabited V}.

Lemma vec_store (y : buf) (c : V) (m : Machine V) (v : buf) :
  vec (store y c m) v = if buf_eqb v y then c else vec m v.
Proof. unfold vec, store. simpl. by destruct (buf_eqb v y). Qed.

Lemma vec_call_mult (A : M) (x y : buf) (m : Machine V) (v : buf) :
  vec (call_mult A x y m) v = if buf_eqb v y then mult A (vec m x) else vec m v.
Proof. unfold vec at 1, call_mult. simpl. by destruct (buf_eqb v y). Qed.

(** Equal contents written to paired vectors. *)
Lemma corr_store (rho rho' : Correspondence) (y1 y2 : buf) (c : V)
    (m1 m2 : Machine V) :
  write_ok rho rho' y1 y2 = true →
  corr rho m1 m2 → corr rho' (store y1 c m1) (store y2 c m2).
Proof.
  intros Hok [Hk Hv]. split; [done|]. intros v w Hvw.
  unfold write_ok in Hok. rewrite forallb_forall in Hok.
  specialize (Hok v). rewrite Hvw in Hok.
  rewrite !vec_store.
  destruct (buf_eqb v y1).
  - rewrite Hok; [done|]. destruct v; simpl; tauto.
  - assert (negb (buf_eqb w y2) && option_buf_eqb (rho v) (Some w) = true)
      as [Hne Heq]%andb_prop.
    { apply Hok. destruct v; simpl; tauto. }
    apply negb_true_iff in Hne. rewrite Hne.
    apply Hv. destruct (rho v) as [w'|]; [|done].
    simpl in Heq. by apply buf_eqb_eq in Heq as ->.
Qed.

(** A write to a vector of the first run that nothing is paired with. *)
Lemma corr_store_l (rho : Correspondence) (y : buf) (c : V)
    (m1 m2 : Machine V) :
  rho y = None → corr rho m1 m2 → corr rho (store y c m1) m2.
Proof.
  intros Hy [Hk Hv]. split; [done|]. intros v w Hvw. rewrite vec_store.
  destruct (buf_eqb v y) eqn:E; [|by apply Hv].
  apply buf_eqb_eq in E as ->. congruence.
Qed.

(** A write to a vector of the second run that nothing is paired with. *)
Lemma corr_store_r (rho : Correspondence) (y : buf) (c : V)
    (m1 m2 : Machine V) :
  forallb (λ v, negb (option_buf_eqb (rho v) (Some y))) all_bufs = true →
  corr rho m1 m2 → corr rho m1 (store y c m2).
Proof.
  rewrite forallb_forall. intros Hy [Hk Hv]. split; [done|].
  intros v w Hvw. rewrite vec_store.
  destruct (buf_eqb w y) eqn:E; [|by apply Hv].
  apply buf_eqb_eq in E as ->. specialize (Hy v). rewrite Hvw in Hy.
  simpl in Hy. rewrite buf_eqb_refl in Hy.
  discriminate Hy. destruct v; simpl; tauto.
Qed.

(** A run corresponds to itself. *)
Lemma corr_refl (rho : Correspondence) (m : Machine V) :
  forallb (λ v, match rho v with
                | Some w => buf_eqb v w
                | None => true
                end) all_bufs = true →
  corr rho m m.
Proof.
  rewrite forallb_forall. intros Hid. split; [done|]. intros v w Hvw.
  specialize (Hid v). rewrite Hvw in Hid.
  assert (buf_eqb v w = true) as ->%buf_eqb_eq; [|done].
  apply Hid. destruct v; simpl; tauto.
Qed.

Lemma corr_vec (rho : Correspondence) (v w : buf) (m1 m2 : Machine V) :
  rho v = Some w → corr rho m1 m2 → vec m1 v = vec m2 w.
Proof. intros Hvw [_ Hv]. by apply Hv. Qed.

Lemma corr_copy (rho rho' : Correspondence) (x1 y1 x2 y2 : buf)
    (m1 m2 : Machine V) :
  rho x1 = Some x2 → write_ok rho rho' y1 y2 = true →
  corr rho m1 m2 → corr rho' (blas_copy x1 y1 m1) (blas_copy x2 y2 m2).
Proof.
  intros Hx Hok Hc. unfold blas_copy.
  rewrite (corr_vec rho x1 x2 m1 m2) by done. by apply (corr_store rho).
Qed.

Lemma corr_axpy (rho : Correspondence) (a : T) (x1 y1 x2 y2 : buf)
    (m1 m2 : Machine V) :
  rho x1 = Some x2 → rho y1 = Some y2 → write_ok rho rho y1 y2 = true →
  corr rho m1 m2 → corr rho (blas_axpy a x1 y1 m1) (blas_axpy a x2 y2 m2).
Proof.
  intros Hx Hy Hok Hc. unfold blas_axpy.
  rewrite (corr_vec rho x1 x2 m1 m2), (corr_vec rho y1 y2 m1 m2) by done.
  by apply (corr_store rho).
Qed.

Lemma corr_scal (rho : Correspondence) (a : T) (x1 x2 : buf)
    (m1 m2 : Machine V) :
  rho x1 = Some x2 → write_ok rho rho x1 x2 = true →
  corr rho m1 m2 → corr rho (blas_scal a x1 m1) (blas_scal a x2 m2).
Proof.
  intros Hx Hok Hc. unfold blas_scal.
  rewrite (corr_vec rho x1 x2 m1 m2) by done. by apply (corr_store rho).
Qed.

Lemma corr_call_mult (rho : Correspondence) (A : M) (x1 y1 x2 y2 : buf)
    (m1 m2 : Machine V) :
  rho x1 = Some x2 → write_ok rho rho y1 y2 = true →
  corr rho m1 m2 → corr rho (call_mult A x1 y1 m1) (call_mult A x2 y2 m2).
Proof.
  intros Hx Hok Hc.
  destruct (corr_store rho rho y1 y2 (mult A (vec m1 x1)) m1 m2 Hok Hc)
    as [Hk Hv].
  split; [simpl in *; congruence|].
  intros v w Hvw. specialize (Hv v w Hvw). rewrite !vec_store in Hv.
  rewrite !vec_call_mult. by rewrite <-(corr_vec rho x1 x2 m1 m2).
Qed.

Lemma corr_dot (rho : Correspondence) (x1 y1 x2 y2 : buf)
    (m1 m2 : Machine V) :
  rho x1 = Some x2 → rho y1 = Some y2 →
  corr rho m1 m2 → blas_dot x1 y1 m1 = blas_dot x2 y2 m2.
Proof.
  intros Hx Hy Hc. unfold blas_dot.
  by rewrite (corr_vec rho x1 x2 m1 m2), (corr_vec rho y1 y2 m1 m2).
Qed.

Lemma corr_axpy_l (rho : Correspondence) (a : T) (x y : buf)
    (m1 m2 : Machine V) :
  rho y = None → corr rho m1 m2 → corr rho (blas_axpy a x y m1) m2.
Proof. intros. unfold blas_axpy. by apply corr_store_l. Qed.

Lemma corr_scal_l (rho : Correspondence) (a : T) (y : buf)
    (m1 m2 : Machine V) :
  rho y = None → corr rho m1 m2 → corr rho (blas_scal a y m1) m2.
Proof. intros. unfold blas_scal. by apply corr_store_l. Qed.

Lemma corr_declare (rho : Correspondence) (y1 y2 : buf) (n : Z)
    (m1 m2 : Machine V) :
  write_ok rho rho y1 y2 = true →
  corr rho m1 m2 → corr rho (declare y1 n m1) (declare y2 n m2).
Proof. intros. unfold declare. by apply (corr_store rho). Qed.

End Heap.

Lemma stable_fixed (rho : Correspondence) (v : buf) :
  stable rho = true → v ∈ [Bx; Bb; BrT; Bd; Bh; BAd; Bt; Br] →
  rho v = Some v ∧ write_ok rho rho v v = true.
Proof.
  unfold stable. rewrite forallb_forall. intros Hst Hv%list_elem_of_In.
  apply Hst in Hv as [Hf Hw]%andb_prop. split; [|done].
  destruct (rho v) as [w|]; [|done]. simpl in Hf.
  by apply buf_eqb_eq in Hf as ->.
Qed.

Section Simulation.
Context {T V M : Type} `{!CoeffOps T, !VectorOps T V, !MatrixOps V M, !Inhabited V}.
Variable ndebug : bool.
Variable cfg : Config T.
Variable A : M.

(** The two runs: what [s] names and whether [u] is updated in each; the
    correspondence at the head of the loop and the one between lines 150 and
    163. *)
Variables s1 s2 : buf.
Variables k1 k2 : bool.
Variables rho rhom : Correspondence.

Hypothesis rho_stable : stable rho = true.
Hypothesis rhom_s : rhom s1 = Some s2.
Hypothesis rhom_t : rhom Bt = Some Bt.
Hypothesis working_corr : ∀ n (m : Machine V),
  corr rho (working_vectors s1 n m) (working_vectors s2 n m).
Hypothesis bicg_corr : ∀ (a : T) (m1 m2 : Machine V),
  corr rho m1 m2 →
  corr rhom (bicg_step s1 k1 A a m1) (bicg_step s2 k2 A a m2).
Hypothesis stabilise_corr : ∀ (a w : T) (m1 m2 : Machine V)
    (st1 st2 : LoopState T V),
  corr rhom m1 m2 → rTh st1 = rTh st2 → its st1 = its st2 →
  corr_state rho (stabilise s1 a w m1 st1) (stabilise s2 a w m2 st2).

Ltac fixed v :=
  assert (rho v = Some v ∧ write_ok rho rho v v = true) as [? ?]
    by (apply stable_fixed; [exact rho_stable | by repeat constructor]).

Lemma next_direction_corr (a w : T) (st1 st2 : LoopState T V) :
  corr_state rho st1 st2 →
  outcome_rel (corr_state rho) (next_direction a w st1) (next_direction a w st2).
Proof.
  intros (Hm & Hh & Hr & _ & Hi). unfold next_direction.
  fixed BrT. fixed Bh. fixed Bd. fixed BAd.
  apply (outcome_rel_bind eq); [apply outcome_rel_eq|]. intros q ? <-.
  rewrite Hh. apply (outcome_rel_bind eq); [apply outcome_rel_eq|].
  intros beta ? <-. cbv zeta.
  rewrite (corr_dot rho BrT Bh BrT Bh (mach st1) (mach st2)) by done.
  simpl. split_and!; [|done|done|done|by rewrite Hi].
  cbn [mach]. by repeat (apply corr_axpy || apply corr_scal).
Qed.

Lemma iteration_corr (st1 st2 : LoopState T V) :
  corr_state rho st1 st2 →
  outcome_rel (corr_control rho)
    (iteration ndebug s1 k1 A st1) (iteration ndebug s2 k2 A st2).
Proof.
  intros (Hm & Hh & Hr & _ & Hi). unfold iteration. cbv zeta.
  fixed BrT. fixed Bd. fixed BAd.
  assert (corr rho (call_mult A Bd BAd (mach st1))
                   (call_mult A Bd BAd (mach st2))) as Hm1
    by by apply corr_call_mult.
  rewrite (corr_dot rho BrT BAd BrT BAd _ _) by done.
  apply (outcome_rel_bind eq); [apply outcome_rel_eq|]. intros _ _ _.
  rewrite Hh. apply (outcome_rel_bind eq); [apply outcome_rel_eq|].
  intros a ? <-. unfold after_alpha. cbv zeta.
  pose proof (bicg_corr a _ _ Hm1) as Hm2.
  rewrite (corr_dot rhom s1 Bt s2 Bt _ _ rhom_s rhom_t Hm2).
  rewrite (corr_dot rhom Bt Bt Bt Bt _ _ rhom_t rhom_t Hm2).
  apply (outcome_rel_bind eq); [apply outcome_rel_eq|]. intros w ? <-.
  pose proof (stabilise_corr a w _ _ st1 st2 Hm2 Hh Hi) as Hst.
  destruct (IsZero w); [done|].
  destruct Hst as (Hm3 & Hh' & Hrest). rewrite Hh'.
  destruct (IsZero _); [done|].
  pose proof (next_direction_corr a w _ _
                (conj Hm3 (conj Hh' Hrest))) as Hn.
  by destruct (next_direction _ _ _), (next_direction _ _ _).
Qed.

Lemma loop_corr (err : T) (max_iter : Z) (fuel : nat)
    (st1 st2 : LoopState T V) :
  corr_state rho st1 st2 →
  outcome_rel (corr_state rho)
    (loop ndebug s1 k1 A err max_iter fuel st1)
    (loop ndebug s2 k2 A err max_iter fuel st2).
Proof.
  revert st1 st2. induction fuel as [|fuel IH]; intros st1 st2 Hst; simpl;
    pose proof Hst as (_ & _ & Hr & _ & Hi);
    unfold loop_condition; rewrite Hr, Hi;
    destruct (_ && _); try done.
  apply (outcome_rel_bind (corr_control rho)); [by apply iteration_corr|].
  intros [c1|c1] [c2|c2] Hc; try done. by apply IH.
Qed.

Lemma initialise_corr (n : Z) (m : Machine V) :
  outcome_rel (λ p1 p2, p1.1 = p2.1 ∧ corr_state rho p1.2 p2.2)
    (initialise ndebug s1 cfg A n m) (initialise ndebug s2 cfg A n m).
Proof.
  unfold initialise. cbv zeta.
  fixed Bx. fixed Bb. fixed BrT. fixed Bd. fixed Bh. fixed Br.
  pose proof (working_corr n m) as Hw.
  rewrite (corr_dot rho Bb Bb Bb Bb _ _) by done.
  set (init1 := blas_copy Bh BrT _). set (init2 := blas_copy Bh BrT _).
  assert (corr rho init1 init2) as Hi.
  { unfold init1, init2.
    by repeat (apply (corr_copy rho rho) || apply corr_axpy
                 || apply corr_call_mult || apply corr_declare). }
  rewrite (corr_dot rho BrT BrT BrT BrT _ _) by done.
  apply (outcome_rel_bind eq); [apply outcome_rel_eq|]. intros _ _ _.
  rewrite (corr_dot rho BrT Bh BrT Bh _ _) by done.
  rewrite (corr_dot rho Br Br Br Br _ _) by done.
  done.
Qed.

(** The two runs return the same boolean, the same [x] and the same iteration
    count, or fail in the same way. *)
Lemma solve_variant_corr (b x : V) :
  observe <$> solve_variant ndebug s1 k1 cfg A b x =
  observe <$> solve_variant ndebug s2 k2 cfg A b x.
Proof.
  unfold solve_variant. cbv zeta.
  destruct (negb _); [done|]. destruct (negb _); [done|].
  destruct (_ <=? _); [done|].
  apply (outcome_rel_fmap (λ e1 e2, observe e1 = observe e2)); [|done].
  eapply outcome_rel_bind; [apply initialise_corr|].
  intros [err st1] [err2 st2] [Herr Hst]. simpl in Herr, Hst |- *.
  subst err2.
  eapply outcome_rel_bind; [by apply loop_corr|].
  intros st1' st2' ([_ Hv] & Hh & Hr & Ho & Hi). simpl.
  fixed Bx.
  unfold observe, x_of, its_of, finish. simpl.
  by rewrite Hr, Hi, (Hv Bx Bx).
Qed.

End Simulation.

(** ** The two variants of section 9 of the specification *)

Ltac corr_step rho :=
  first [ apply (corr_axpy rho) | apply (corr_scal rho)
        | apply (corr_call_mult rho) | apply (corr_copy rho rho)
        | apply (corr_declare rho) ];
  [reflexivity.. | ].

Section SharedStorage.
Context {T V M : Type} `{!CoeffOps T, !VectorOps T V, !MatrixOps V M, !Inhabited V}.
Variable A : M.

Lemma working_vectors_alias (n : Z) (m : Machine V) :
  corr rho_head (working_vectors Bh n m) (working_vectors Bs n m).
Proof.
  unfold working_vectors. cbv zeta. simpl.
  unfold declare at 1. apply corr_store_r; [reflexivity|].
  do 6 corr_step rho_head. by apply corr_refl.
Qed.

Lemma bicg_step_alias (k : bool) (a : T) (m1 m2 : Machine V) :
  corr rho_head m1 m2 →
  corr rho_mid (bicg_step Bh k A a m1) (bicg_step Bs k A a m2).
Proof.
  intros Hm. unfold bicg_step. cbv zeta.
  destruct k; repeat corr_step rho_mid;
    (apply (corr_copy rho_head rho_mid); [reflexivity..|]);
    by corr_step rho_head.
Qed.

Lemma stabilise_alias (a w : T) (m1 m2 : Machine V) (st1 st2 : LoopState T V) :
  corr rho_mid m1 m2 → rTh st1 = rTh st2 → its st1 = its st2 →
  corr_state rho_head (stabilise Bh a w m1 st1) (stabilise Bs a w m2 st2).
Proof.
  intros Hm Hh Hi. unfold stabilise. cbv zeta.
  set (x1 := blas_axpy (copp w) Bt Br _).
  set (x2 := blas_axpy (copp w) Bt Br _).
  assert (corr rho_head x1 x2) as Hx.
  { unfold x1, x2. corr_step rho_head.
    apply (corr_copy rho_mid rho_head); [reflexivity..|].
    by do 2 corr_step rho_mid. }
  split_and!; simpl; try done.
  - by corr_step rho_head.
  - by apply (corr_dot rho_head).
Qed.

End SharedStorage.

Section DeadAccumulator.
Context {T V M : Type} `{!CoeffOps T, !VectorOps T V, !MatrixOps V M, !Inhabited V}.
Variable A : M.

Lemma bicg_step_u (a : T) (m1 m2 : Machine V) :
  corr rho_u m1 m2 →
  corr rho_u (bicg_step Bh true A a m1) (bicg_step Bh false A a m2).
Proof.
  intros Hm. unfold bicg_step. cbv zeta.
  apply corr_scal_l; [reflexivity|]. apply corr_axpy_l; [reflexivity|].
  by repeat corr_step rho_u.
Qed.

Lemma stabilise_u (a w : T) (m1 m2 : Machine V) (st1 st2 : LoopState T V) :
  corr rho_u m1 m2 → rTh st1 = rTh st2 → its st1 = its st2 →
  corr_state rho_u (stabilise Bh a w m1 st1) (stabilise Bh a w m2 st2).
Proof.
  intros Hm Hh Hi. unfold stabilise. cbv zeta.
  set (x1 := blas_axpy (copp w) Bt Br _).
  set (x2 := blas_axpy (copp w) Bt Br _).
  assert (corr rho_u x1 x2) as Hx.
  { unfold x1, x2. by repeat corr_step rho_u. }
  split_and!; simpl; try done.
  - by corr_step rho_u.
  - by apply (corr_dot rho_u).
Qed.

End DeadAccumulator.

(** C8: the source, in which [s] is a second name of [h]'s storage, and the
    variant in which [s] is a vector of its own and the same calls are made in
    the same order, return the same boolean, leave the same [x] and report the
    same iteration count (and otherwise stop at the same assertion or
    undefined quotient). *)
Theorem shared_storage_is_unobservable {T V M : Type}
    `{!CoeffOps T, !VectorOps T V, !MatrixOps V M, !Inhabited V}
    (ndebug : bool) (cfg : Config T) (A : M) (b x : V) :
  observe <$> solve ndebug cfg A b x =
  observe <$> solve_distinct_s ndebug cfg A b x.
Proof.
  unfold solve, solve_distinct_s.
  apply (solve_variant_corr ndebug cfg A Bh Bs true true rho_head rho_mid);
    try reflexivity.
  - apply working_vectors_alias.
  - apply bicg_step_alias.
  - apply stabilise_alias.
Qed.

(** C9: the source and the variant without the two calls that update [u]
    return the same boolean, leave the same [x] and report the same iteration
    count (and otherwise stop at the same assertion or undefined quotient):
    no scalar and no other vector is computed from [u]. *)
Theorem accumulator_u_is_dead {T V M : Type}
    `{!CoeffOps T, !VectorOps T V, !MatrixOps V M, !Inhabited V}
    (ndebug : bool) (cfg : Config T) (A : M) (b x : V) :
  observe <$> solve ndebug cfg A b x =
  observe <$> solve_without_u ndebug cfg A b x.
Proof.
  unfold solve, solve_without_u.
  apply (solve_variant_corr ndebug cfg A Bh Bh true false rho_u rho_u);
    try reflexivity.
  - intros n m. by apply corr_refl.
  - apply bicg_step_u.
  - apply stabilise_u.
Qed.

(** ** States met at the loop condition *)

Section Reached.
Context {T V M : Type} `{!CoeffOps T, !VectorOps T V, !MatrixOps V M, !Inhabited V}.
Variable ndebug : bool.
Variable cfg : Config T.
Variable A : M.
Variables b x : V.

Let err : T := cmul (cmul (epsilon_ cfg) (epsilon_ cfg)) (dot b b).
Let max_iter : Z := effective_max_iter cfg (uint (A_dimension A)).

(** A state met at the loop condition after [k] iterations is the state the
    loop of the call is in after [k] iterations. *)
Lemma reached_loop (st : LoopState T V) :
  at_loop_condition ndebug cfg A b x st →
  (A_dimension A = dimension b ∧ A_dimension A = dimension x ∧
   0 < A_dimension A) ∧
  ∃ st0 k,
    initialise ndebug Bh cfg A (uint (A_dimension A)) (at_entry b x)
      = Returned (err, st0) ∧
    its st = Z.of_nat k ∧
    ∀ fuel, loop ndebug Bh true A err max_iter (k + fuel) st0
            = loop ndebug Bh true A err max_iter fuel st.
Proof.
  induction 1 as [err0 st Hb Hx Hpos Hinit | st st' Hat IH Hc Hit].
  - split; [done|].
    pose proof Hinit as (-> & Hits & _)%initialise_Returned; [|by left].
    exists st, 0%nat. by rewrite Hits.
  - destruct IH as (Hdims & st0 & k & Hinit & Hk & Hloop). split; [done|].
    exists st0, (S k). split; [done|].
    pose proof Hc as [_ Hlt%Z.ltb_lt]%andb_prop.
    pose proof (effective_max_iter_range cfg (uint (A_dimension A))) as Hmax.
    split.
    + apply (iteration_Returned ndebug Bh true A) in Hit
        as (a & w & _ & _ & _ & [[[=] _] | (st2 & [= <-] & _ & _ & Hn)]).
      apply next_direction_Returned in Hn as (-> & _).
      change (its (stabilise Bh a w _ st)) with (its st).
      rewrite uint_small by lia. lia.
    + intros fuel. replace (S k + fuel)%nat with (k + S fuel)%nat by lia.
      rewrite Hloop. cbn [loop]. fold err max_iter in Hc. rewrite Hc, Hit.
      reflexivity.
Qed.

(** A call in which the loop condition holds in such a state runs the loop
    from that state on. *)
Lemma solve_from_reached (st : LoopState T V) :
  at_loop_condition ndebug cfg A b x st →
  loop_condition err max_iter st = true →
  ∃ fuel, solve ndebug cfg A b x =
    (st' ← loop ndebug Bh true A err max_iter (S fuel) st;
     Returned (finish err max_iter st')).
Proof.
  intros ((Hb & Hx & Hpos) & st0 & k & Hinit & Hk & Hloop)%reached_loop
    [_ Hlt%Z.ltb_lt]%andb_prop.
  exists (Z.to_nat max_iter - S k)%nat.
  unfold solve.
  rewrite (solve_variant_valid ndebug Bh true cfg A b x Hb Hx Hpos), Hinit.
  cbn [mbind Outcome_bind]. fold max_iter.
  replace (Z.to_nat max_iter)
    with (k + S (Z.to_nat max_iter - S k))%nat at 1 by lia.
  by rewrite Hloop.
Qed.

End Reached.

(** ** Breakdown *)

Section Breakdown.
Context {T V M : Type} `{!CoeffOps T, !VectorOps T V, !MatrixOps V M, !Inhabited V}.
Variable ndebug : bool.
Variable A : M.

(** An iteration whose assertion holds and whose [alpha] and [omega] are
    defined ends at a [break] when [omega] or [rTh] is near zero. *)
Lemma iteration_break (st : LoopState T V) (a w : T) :
  let m1 := call_mult A Bd BAd (mach st) in
  let m2 := bicg_step Bh true A a m1 in
  ndebug || negb (IsZero (blas_dot BrT BAd m1)) = true →
  cdiv (rTh st) (blas_dot BrT BAd m1) = Some a →
  choose_omega (blas_dot Bh Bt m2) (blas_dot Bt Bt m2) = Returned w →
  IsZero w || IsZero (rTh st) = true →
  iteration ndebug Bh true A st = Returned (Break (stabilise Bh a w m2 st)).
Proof.
  intros m1 m2 Has Ha Hw Hz. unfold iteration. cbv zeta. fold m1.
  apply bind_Returned. exists (). split; [by apply c_assert_Returned|].
  apply bind_Returned. exists a. split; [by apply quotient_Returned|].
  unfold after_alpha. cbv zeta. fold m2.
  apply bind_Returned. exists w. split; [done|].
  destruct (IsZero w); [done|].
  change (rTh (stabilise Bh a w m2 st)) with (rTh st).
  simpl in Hz. by rewrite Hz.
Qed.

End Breakdown.

(** C3, as the code has it.  Take an iteration that is entered, that passes
    line 147 (the assertion holds, or [NDEBUG]) and whose quotient [rTh/rTAd]
    of line 148 is defined, in a scalar type for which 0 is near zero, and
    let [omega] be what lines 157-160 assign.  When [tt] is near zero [omega]
    is 0; and when [tt], [omega] or the [rTh] the iteration started with is
    near zero, the loop is left at the [break] of line 168 or 170, after [x],
    [r], [rTr] and [h] were updated by lines 161-166 and before [beta], the
    next direction and [its++]: line 171, with its quotients by [omega] and
    [rTh], is not reached, and [st/tt] is not taken when [tt] is near zero.
    In a call that met that state at its loop condition, [solve] then
    returns [rTr <= err], which is true when the step already reached the
    tolerance. *)
Theorem breakdown_leaves_loop {T V M : Type}
    `{!CoeffOps T, !VectorOps T V, !MatrixOps V M, !Inhabited V}
    (ndebug : bool) (A : M) (err : T) (max_iter : Z) (fuel : nat)
    (st : LoopState T V) (a w : T) :
  let m1 := call_mult A Bd BAd (mach st) in
  let rTAd := blas_dot BrT BAd m1 in
  let m2 := bicg_step Bh true A a m1 in
  let tt := blas_dot Bt Bt m2 in
  let st' := stabilise Bh a w m2 st in
  IsZero c0 = true →
  loop_condition err max_iter st = true →
  ndebug || negb (IsZero rTAd) = true →
  cdiv (rTh st) rTAd = Some a →
  choose_omega (blas_dot Bh Bt m2) tt = Returned w →
  IsZero tt = true ∨ IsZero w = true ∨ IsZero (rTh st) = true →
  (IsZero tt = true → w = c0) ∧
  loop ndebug Bh true A err max_iter (S fuel) st = Returned st' ∧
  its st' = its st ∧
  omega st' = Some w ∧
  success (finish err max_iter st') = cle (rTr st') err ∧
  (∀ (cfg : Config T) (b x : V),
     err = cmul (cmul (epsilon_ cfg) (epsilon_ cfg)) (dot b b) →
     max_iter = effective_max_iter cfg (uint (A_dimension A)) →
     at_loop_condition ndebug cfg A b x st →
     solve ndebug cfg A b x = Returned (finish err max_iter st')).
Proof.
  intros m1 rTAd m2 tt st' Hz0 Hc Has Ha Hw Hnear.
  assert (IsZero tt = true → w = c0) as Htt.
  { intros Ht. unfold choose_omega in Hw. rewrite Ht, orb_true_r in Hw.
    by inversion Hw. }
  assert (∀ f, loop ndebug Bh true A err max_iter (S f) st = Returned st')
    as Hloop.
  { intros f. cbn [loop]. rewrite Hc.
    rewrite (iteration_break ndebug A st a w); try done.
    destruct Hnear as [Ht | [Hw0 | Hh]].
    - rewrite (Htt Ht), Hz0. done.
    - by rewrite Hw0.
    - by rewrite Hh, orb_true_r. }
  split; [done|]. split; [apply Hloop|]. split; [done|]. split; [done|].
  split; [done|].
  intros cfg b x -> -> Hat.
  destruct (solve_from_reached ndebug cfg A b x st Hat Hc) as [f Hs].
  by rewrite Hs, Hloop.
Qed.

(** In scenario 1 the first step reaches the solution: [t] is the zero vector,
    [tt] is near zero and [omega] is set to 0. *)
Lemma breakdown_leaves_loop_witness :
  let m1 := call_mult A_scenario1 Bd BAd (mach st_scenario1) in
  let a := (rTh st_scenario1 / blas_dot BrT BAd m1)%Qc in
  let w : Qc := c0 in
  let m2 := bicg_step Bh true A_scenario1 a m1 in
  let tt := blas_dot Bt Bt m2 in
  let st' := stabilise Bh a w m2 st_scenario1 in
  (IsZero tt = true → w = c0) ∧
  loop false Bh true A_scenario1 err_scenario1 10 1 st_scenario1
    = Returned st' ∧
  its st' = its st_scenario1 ∧
  omega st' = Some w ∧
  success (finish err_scenario1 10 st') = cle (rTr st') err_scenario1 ∧
  solve false cfg_scenario1 A_scenario1 b_scenario1 x_scenario1
    = Returned (finish err_scenario1 10 st').
Proof.
  intros m1 a w m2 tt st'.
  destruct (breakdown_leaves_loop false A_scenario1 err_scenario1 10 0
              st_scenario1 a w)
    as (Htt & Hloop & Hits & Hom & Hs & Hcall).
  - vm_compute. reflexivity.
  - vm_compute. reflexivity.
  - vm_compute. reflexivity.
  - vm_compute. reflexivity.
  - vm_compute. reflexivity.
  - left. vm_compute. reflexivity.
  - refine (conj Htt (conj Hloop (conj Hits (conj Hom (conj Hs _))))).
    apply (Hcall cfg_scenario1 b_scenario1 x_scenario1).
    + vm_compute. reflexivity.
    + reflexivity.
    + apply (at_first false cfg_scenario1 A_scenario1 b_scenario1
               x_scenario1 err_scenario1 st_scenario1);
        vm_compute; reflexivity.
Defined.

(** C3 as stated fails in each of its three parts.
    It does not return false: in scenario 1 of the specification the loop is
    left because [omega] is near zero (it was set to 0 because [tt] is), in
    the first iteration, and [solve] returns true, in exact arithmetic and in
    binary64 alike.
    It does not keep infinities out: for A = [[2^-600]], b = [2^500], x0 = 0
    in binary64 the assertion of line 147 holds, [alpha] is 2^600, line 161
    makes [x] infinite, the loop is left with [omega = 0] and [solve] returns
    true with [x = +inf].
    It does not stop where [rTh] becomes near zero: for the system of
    dimension 3 the first iteration ends with [rTh = 0] at line 172 and goes
    on to [its++]; [rTh] is tested at line 169 of the next iteration only,
    which does not get there: [rTAd] is 0, the assertion of line 147 fails,
    and with [NDEBUG] the quotient [0/0] has no value. *)
Lemma breakdown_may_return_true :
  (∃ e r w,
     solve false cfg_scenario1 A_scenario1 b_scenario1 x_scenario1
       = Returned e ∧
     trace e = Some r ∧ rep_its r = 0 ∧
     rep_omega r = Some w ∧ IsZero w = true ∧
     success e = true) ∧
  (∃ e r w,
     solve false cfg_scenario1_double [[2%float]] [4%float] [0%float]
       = Returned e ∧
     trace e = Some r ∧ rep_its r = 0 ∧
     rep_omega r = Some w ∧ IsZero w = true ∧
     success e = true ∧ x_of e = [2%float]) ∧
  (∃ e r w,
     solve false cfg_default_double A_overflow b_overflow x_overflow
       = Returned e ∧
     trace e = Some r ∧ rep_its r = 0 ∧
     rep_omega r = Some w ∧ IsZero w = true ∧
     success e = true ∧ x_of e = [infinity]) ∧
  (iteration false Bh true A_stall st_stall
     = Returned (Continue st_stall_next) ∧
   IsZero (rTh st_stall_next) = true ∧ its st_stall_next = 1 ∧
   solve false cfg_default A_stall b_stall x_stall = AssertionFailed ∧
   solve true cfg_default A_stall b_stall x_stall = DivisionUndefined).
Proof.
  split_and!.
  - eexists _, _, _. split; [vm_compute; reflexivity|].
    split; [reflexivity|]. split; [reflexivity|].
    split; [reflexivity|]. split; vm_compute; reflexivity.
  - eexists _, _, _. split; [vm_compute; reflexivity|].
    split; [reflexivity|]. split; [reflexivity|].
    split; [reflexivity|]. split; [vm_compute; reflexivity|].
    split; vm_compute; reflexivity.
  - eexists _, _, _. split; [vm_compute; reflexivity|].
    split; [reflexivity|]. split; [reflexivity|].
    split; [reflexivity|]. split; [vm_compute; reflexivity|].
    split; vm_compute; reflexivity.
  - vm_compute. reflexivity.
  - vm_compute. reflexivity.
  - vm_compute. reflexivity.
  - vm_compute. reflexivity.
  - vm_compute. reflexivity.
Qed.

(** ** A near-zero [rTAd] *)

(** C4, as the code has it: there is no guard on [rTAd] as there is on
    [omega] and [rTh].  In a call that comes to an iteration in which [rTAd]
    is near zero: with assertions enabled the assertion of line 147 fails and
    the call does not return; with [NDEBUG] [rTh] is divided by [rTAd] at
    line 148 and lines 149-166 run with that [alpha], so that the iteration
    leaves [x - alpha*d - omega*s] in [x]; it then ends as any iteration
    does, at a [break] of line 168 or 170 or at its end, and when it ends at
    a [break] that [x] is the one [solve] returns. *)
Theorem near_zero_rTAd_is_asserted {T V M : Type}
    `{!CoeffOps T, !VectorOps T V, !MatrixOps V M, !Inhabited V}
    (ndebug : bool) (cfg : Config T) (A : M) (b x : V) (st : LoopState T V) :
  let err := cmul (cmul (epsilon_ cfg) (epsilon_ cfg)) (dot b b) in
  let max_iter := effective_max_iter cfg (uint (A_dimension A)) in
  let Ad := mult A (vec (mach st) Bd) in
  let rTAd := dot (vec (mach st) BrT) Ad in
  at_loop_condition ndebug cfg A b x st →
  loop_condition err max_iter st = true →
  IsZero rTAd = true →
  if ndebug then
    ∀ e, solve true cfg A b x = Returned e →
      ∃ alpha w c,
        cdiv (rTh st) rTAd = Some alpha ∧
        iteration true Bh true A st = Returned c ∧
        omega (state_of c) = Some w ∧
        vec (mach (state_of c)) Bx
          = axpy (copp w) (axpy (copp alpha) Ad (vec (mach st) Bh))
              (axpy (copp alpha) (vec (mach st) Bd) (vec (mach st) Bx)) ∧
        (∀ st', c = Break st' → e = finish err max_iter st')
  else solve false cfg A b x = AssertionFailed.
Proof.
  intros err max_iter Ad rTAd Hat Hc Hz.
  destruct (solve_from_reached ndebug cfg A b x st Hat Hc) as [fuel Hsolve].
  fold err max_iter in Hsolve. destruct ndebug.
  - intros e He. rewrite Hsolve in He.
    apply bind_Returned in He as (st' & Hloop & [= <-]).
    cbn [loop] in Hloop. rewrite Hc in Hloop.
    apply bind_Returned in Hloop as (c & Hit & Hrest).
    pose proof Hit as (a & w & _ & Ha & _ & Hcases)%iteration_Returned.
    assert (vec (mach (stabilise Bh a w
                         (bicg_step Bh true A a
                            (call_mult A Bd BAd (mach st))) st)) Bx
            = axpy (copp w) (axpy (copp a) Ad (vec (mach st) Bh))
                (axpy (copp a) (vec (mach st) Bd) (vec (mach st) Bx)))
      as Ex by reflexivity.
    exists a, w, c. split; [exact Ha|]. split; [exact Hit|].
    destruct Hcases as [[-> _] | (st2 & -> & _ & _ & Hn)]; cbn [state_of].
    + split; [reflexivity|]. split; [exact Ex|].
      intros st'' [= <-]. by injection Hrest as <-.
    + apply next_direction_Returned in Hn as (_ & _ & Ho & _ & Hv).
      rewrite Hv by done. by split_and!.
  - rewrite Hsolve. cbn [loop]. rewrite Hc. unfold iteration. cbv zeta.
    change (blas_dot BrT BAd (call_mult A Bd BAd (mach st))) with rTAd.
    by rewrite Hz.
Qed.

(** The quarter turn with assertions enabled, and the system of dimension 3
    in binary64 with [NDEBUG], at its second iteration. *)
Lemma near_zero_rTAd_is_asserted_witness :
  solve false cfg_default A_turn b_turn x_turn = AssertionFailed ∧
  ∃ e alpha w c,
    solve true cfg_default_double A_stall_double b_stall_double
      x_stall_double = Returned e ∧
    cdiv (rTh st_stall_double_next)
         (dot (vec (mach st_stall_double_next) BrT)
              (mult A_stall_double (vec (mach st_stall_double_next) Bd)))
      = Some alpha ∧
    iteration true Bh true A_stall_double st_stall_double_next
      = Returned c ∧
    omega (state_of c) = Some w ∧
    vec (mach (state_of c)) Bx
      = axpy (copp w)
          (axpy (copp alpha)
             (mult A_stall_double (vec (mach st_stall_double_next) Bd))
             (vec (mach st_stall_double_next) Bh))
          (axpy (copp alpha) (vec (mach st_stall_double_next) Bd)
             (vec (mach st_stall_double_next) Bx)) ∧
    (∀ st', c = Break st' →
       e = finish
             (cmul (cmul (epsilon_ cfg_default_double)
                      (epsilon_ cfg_default_double))
                (dot b_stall_double b_stall_double))
             (effective_max_iter cfg_default_double
                (uint (A_dimension A_stall_double))) st').
Proof.
  split.
  - apply (near_zero_rTAd_is_asserted false cfg_default A_turn b_turn x_turn
             st_turn).
    + apply (at_first false cfg_default A_turn b_turn x_turn err_turn st_turn);
        vm_compute; reflexivity.
    + vm_compute. reflexivity.
    + vm_compute. reflexivity.
  - assert (∃ e, solve true cfg_default_double A_stall_double b_stall_double
                   x_stall_double = Returned e) as [e He].
    { eexists. vm_compute. reflexivity. }
    destruct (near_zero_rTAd_is_asserted true cfg_default_double
                A_stall_double b_stall_double x_stall_double
                st_stall_double_next) with (e := e)
      as (alpha & w & c & Hrest).
    + eapply at_next.
      * apply (at_first true cfg_default_double A_stall_double
                 b_stall_double x_stall_double 0x1.5798ee2308c3ap-27%float
                 st_stall_double);
          vm_compute; reflexivity.
      * vm_compute. reflexivity.
      * vm_compute. reflexivity.
    + vm_compute. reflexivity.
    + vm_compute. reflexivity.
    + exact He.
    + exists e, alpha, w, c. exact (conj He Hrest).
Defined.

(** C4 as stated fails.  For the quarter turn [rTAd] is 0 in the first
    iteration: with assertions enabled [solve] does not return, and with
    [NDEBUG] it divides by [rTAd]: the quotient has no value in exact
    arithmetic, and in binary64 [solve] returns false with an [x] made of
    NaNs in place of the last iterate [0,0].  For the system of dimension 3
    in binary64 with [NDEBUG], [rTAd] is 0 in the second iteration: [alpha]
    is [0/0], lines 149-166 fill [x] with NaNs in place of the last iterate,
    and the iteration is left at the [break] of line 170, on [rTh]. *)
Lemma near_zero_rTAd_is_no_breakdown :
  IsZero (blas_dot BrT BAd (call_mult A_turn Bd BAd (mach st_turn))) = true ∧
  solve false cfg_default A_turn b_turn x_turn = AssertionFailed ∧
  solve true cfg_default A_turn b_turn x_turn = DivisionUndefined ∧
  solve false cfg_default_double A_turn_double b_turn_double x_turn_double
    = AssertionFailed ∧
  (∃ e, solve true cfg_default_double A_turn_double b_turn_double x_turn_double
          = Returned e ∧
        success e = false ∧
        forallb PrimFloat.is_nan (x_of e) = true) ∧
  IsZero (blas_dot BrT BAd
            (call_mult A_stall_double Bd BAd (mach st_stall_double_next)))
    = true ∧
  vec (mach st_stall_double_next) Bx = [-1; -0.5; 0]%float ∧
  (∃ st' w,
     iteration true Bh true A_stall_double st_stall_double_next
       = Returned (Break st') ∧
     omega st' = Some w ∧ IsZero w = false ∧ IsZero (rTh st') = true ∧
     forallb PrimFloat.is_nan (vec (mach st') Bx) = true ∧
     ∃ e, solve true cfg_default_double A_stall_double b_stall_double
            x_stall_double = Returned e ∧
          success e = false ∧ its_of e = Some 1 ∧ x_of e = vec (mach st') Bx).
Proof.
  split_and!; try (vm_compute; reflexivity).
  - eexists. split; [vm_compute; reflexivity|].
    split; vm_compute; reflexivity.
  - eexists _, _. split; [vm_compute; reflexivity|].
    split; [reflexivity|]. split; [vm_compute; reflexivity|].
    split; [vm_compute; reflexivity|]. split; [vm_compute; reflexivity|].
    eexists. split; [vm_compute; reflexivity|].
    split; [reflexivity|]. split; [reflexivity|]. vm_compute. reflexivity.
Qed.

(** ** The residual in exact arithmetic *)

Section ExactArithmetic.
Context {T V M : Type} `{!CoeffOps T, !VectorOps T V, !MatrixOps V M, !Inhabited V}.
Variable ndebug : bool.
Variable cfg : Config T.
Variable A : M.
Variables b x : V.

(** What exact arithmetic gives and rounding takes away: updates commute, and
    [mult] is linear.  Dimensions are kept by every operation. *)
Hypothesis axpy_comm : ∀ (a c : T) (u v w : V),
  axpy a u (axpy c v w) = axpy c v (axpy a u w).
Hypothesis mult_axpy : ∀ (a : T) (u v : V),
  dimension u = dimension v →
  mult A (axpy a u v) = axpy a (mult A u) (mult A v).
Hypothesis dimension_axpy : ∀ (a : T) (u v : V),
  dimension u = dimension v → dimension (axpy a u v) = dimension v.
Hypothesis dimension_scal : ∀ (a : T) (v : V),
  dimension (scal a v) = dimension v.
Hypothesis dimension_mult : ∀ v : V, dimension (mult A v) = A_dimension A.

(** The vectors after line 166, from those before line 145. *)
Lemma step_vectors (a w : T) (st : LoopState T V) :
  let m := mach st in
  let Ad := mult A (vec m Bd) in
  let s := axpy (copp a) Ad (vec m Bh) in
  let t := mult A s in
  let st' :=
    stabilise Bh a w (bicg_step Bh true A a (call_mult A Bd BAd m)) st in
  vec (mach st') Bx = axpy (copp w) s (axpy (copp a) (vec m Bd) (vec m Bx)) ∧
  vec (mach st') Br = axpy (copp w) t (axpy (copp a) Ad (vec m Br)) ∧
  vec (mach st') Bh = axpy (copp w) t s ∧
  vec (mach st') Bd = vec m Bd ∧
  vec (mach st') BAd = Ad ∧
  vec (mach st') Bb = vec m Bb.
Proof. intros. split_and!; reflexivity. Qed.

(** Lines 145-166 keep [r = A*x - b]: [r] and [x] move by the same
    combination of [d] and [s], seen through [A] for [r]. *)
Lemma stabilise_residual (a w : T) (st : LoopState T V) :
  residual_holds A b st →
  residual_holds A b
    (stabilise Bh a w (bicg_step Bh true A a (call_mult A Bd BAd (mach st))) st).
Proof.
  intros (Hb & Hr & Hx & Hd & Hh).
  destruct (step_vectors a w st) as (Ex & Er & Eh & Ed & EAd & Eb).
  unfold residual_holds. cbv zeta. rewrite Ex, Er, Eh, Ed, Eb. clear Ex Er Eh Ed EAd Eb.
  set (Ad := mult A (vec (mach st) Bd)).
  set (s := axpy (copp a) Ad (vec (mach st) Bh)).
  assert (dimension Ad = A_dimension A) as HAd by apply dimension_mult.
  assert (dimension s = A_dimension A) as Hs.
  { unfold s. rewrite dimension_axpy; congruence. }
  assert (dimension (axpy (copp a) (vec (mach st) Bd) (vec (mach st) Bx))
          = A_dimension A) as Hx1.
  { rewrite dimension_axpy; congruence. }
  split_and!; try done.
  - rewrite mult_axpy by congruence.
    rewrite mult_axpy by congruence.
    rewrite Hr. fold Ad.
    rewrite (axpy_comm (copp c1) (copp w)).
    by rewrite (axpy_comm (copp c1) (copp a)).
  - rewrite dimension_axpy; congruence.
  - rewrite dimension_axpy; [done|]. rewrite dimension_mult. congruence.
Qed.

(** Lines 171-177 change [d] only. *)
Lemma next_direction_residual (a w : T) (st st' : LoopState T V) :
  dimension (vec (mach st) BAd) = A_dimension A →
  residual_holds A b st → next_direction a w st = Returned st' →
  residual_holds A b st'.
Proof.
  intros HAd (Hb & Hr & Hx & Hd & Hh). unfold next_direction.
  intros (q & _ & (beta & _ & [= <-])%bind_Returned)%bind_Returned.
  unfold residual_holds. cbv zeta. split_and!; try done.
  cbn [mach].
  set (beta' := cmul beta _).
  change (dimension (axpy (cmul (copp beta') w) (vec (mach st) BAd)
            (axpy c1 (vec (mach st) Bh) (scal beta' (vec (mach st) Bd))))
          = A_dimension A).
  rewrite dimension_axpy.
  - rewrite dimension_axpy; rewrite dimension_scal; congruence.
  - rewrite dimension_axpy; rewrite dimension_scal; congruence.
Qed.

(** Every iteration keeps [r = A*x - b], whether it ends at a [break] or at
    the end of the body. *)
Lemma iteration_residual (st : LoopState T V) (c : Control (LoopState T V)) :
  residual_holds A b st →
  iteration ndebug Bh true A st = Returned c →
  residual_holds A b (state_of c).
Proof.
  intros Hst Hit.
  apply (iteration_Returned ndebug Bh true A) in Hit
    as (a & w & _ & _ & _ & [[-> _] | (st2 & -> & _ & _ & Hn)]);
    cbn [state_of].
  - by apply stabilise_residual.
  - eapply next_direction_residual; [| |exact Hn].
    + destruct (step_vectors a w st) as (_ & _ & _ & _ & -> & _).
      apply dimension_mult.
    + by apply stabilise_residual.
Qed.

Hypothesis dimension_b : A_dimension A = dimension b.
Hypothesis dimension_x : A_dimension A = dimension x.
Hypothesis dimension_pos : 0 < A_dimension A.

(** The initialisation establishes [r = A*x - b]. *)
Lemma initialise_residual (err : T) (st : LoopState T V) :
  initialise ndebug Bh cfg A (uint (A_dimension A)) (at_entry b x)
    = Returned (err, st) →
  residual_holds A b st.
Proof.
  intros (_ & _ & _ & _ & _ & Hx & Hb & Hr & Hd & Hh & _)%initialise_Returned;
    [|by left].
  unfold residual_holds. cbv zeta.
  rewrite Hd, Hh, Hr, Hx, Hb.
  rewrite dimension_axpy by (by rewrite dimension_mult).
  by rewrite dimension_mult.
Qed.

(** The invariant holds when [solve] returns. *)
Lemma solve_residual (e : Exit T V) :
  solve ndebug cfg A b x = Returned e →
  vec (final e) Br = axpy (copp c1) b (mult A (x_of e)).
Proof.
  intros (err & st0 & st & Hinit & Hloop & ->)%solve_variant_Returned;
    [|done..].
  apply initialise_residual in Hinit.
  assert (residual_holds A b st) as (_ & Hr & _); [|done].
  eapply (loop_invariant ndebug Bh true A (residual_holds A b)); [|done|exact Hloop].
  intros st1 c Hst1 _ Hit. by eapply iteration_residual.
Qed.

End ExactArithmetic.

(** ** Exact dense systems *)

Section ExactDense.
Local Open Scope Qc_scope.

Lemma dense_dot_acc (acc : Qc) (u v : list Qc) :
  foldl (λ acc p, cadd acc (cmul p.1 p.2)) acc (zip u v)
  = acc + sum_Qc (zip_with Qcmult u v).
Proof.
  revert acc v. induction u as [|c u IH]; intros acc [|d v]; simpl;
    try (by rewrite Qcplus_0_r).
  rewrite IH. ring.
Qed.

Lemma dense_dot_sum (u v : list Qc) :
  dense_dot u v = sum_Qc (zip_with Qcmult u v).
Proof. unfold dense_dot. rewrite dense_dot_acc. apply Qcplus_0_l. Qed.

Lemma dense_mult_matvec (A : list (list Qc)) (x : list Qc) :
  dense_mult A x = matvec A x.
Proof.
  unfold dense_mult, matvec. apply map_ext. intros row. apply dense_dot_sum.
Qed.

Lemma dense_dot_norm2 (v : list Qc) : dense_dot v v = norm2 v.
Proof.
  rewrite dense_dot_sum. unfold norm2. f_equal.
  induction v as [|c v IH]; simpl; by f_equal.
Qed.

Lemma dense_axpy_minus (b y : list Qc) :
  dense_axpy (copp c1) b y = zip_with Qcminus y b.
Proof.
  unfold dense_axpy. revert y. induction b as [|c b IH]; intros [|d y];
    simpl; try done.
  rewrite IH. f_equal; ring.
Qed.

Lemma dense_axpy_comm (a c : Qc) (u v w : list Qc) :
  dense_axpy a u (dense_axpy c v w) = dense_axpy c v (dense_axpy a u w).
Proof.
  unfold dense_axpy. revert v w.
  induction u as [|x u IH]; intros [|y v] [|z w]; simpl; try done.
  rewrite IH. f_equal; ring.
Qed.

Lemma sum_Qc_axpy (a : Qc) (row u v : list Qc) :
  length u = length v →
  sum_Qc (zip_with Qcmult row (dense_axpy a u v))
  = sum_Qc (zip_with Qcmult row v) + a * sum_Qc (zip_with Qcmult row u).
Proof.
  unfold dense_axpy. revert u v.
  induction row as [|c row IH]; intros [|x u] [|y v] Hlen; simpl;
    try discriminate Hlen; try ring.
  rewrite IH by (simpl in Hlen; congruence). ring.
Qed.

Lemma dense_mult_axpy (A : list (list Qc)) (a : Qc) (u v : list Qc) :
  dimension u = dimension v →
  mult A (axpy a u v) = axpy a (mult A u) (mult A v).
Proof.
  simpl. intros Hlen%Nat2Z.inj. unfold dense_mult.
  induction A as [|row A IH]; simpl; [done|].
  rewrite IH. f_equal. rewrite !dense_dot_sum, sum_Qc_axpy by done.
  reflexivity.
Qed.

Lemma dense_dimension_axpy (a : Qc) (u v : list Qc) :
  dimension u = dimension v → dimension (axpy a u v) = dimension v.
Proof.
  simpl. intros Hlen%Nat2Z.inj. unfold dense_axpy.
  rewrite length_zip_with. f_equal. lia.
Qed.

Lemma dense_dimension_scal (a : Qc) (v : list Qc) :
  dimension (scal a v) = dimension v.
Proof. simpl. unfold dense_scal. by rewrite length_map. Qed.

Lemma dense_dimension_mult (A : list (list Qc)) (v : list Qc) :
  dimension (mult A v) = A_dimension A.
Proof. simpl. unfold dense_mult. by rewrite length_map. Qed.

Lemma Qc_leb_le (a b : Qc) : Qc_leb a b = true ↔ a <= b.
Proof.
  unfold Qc_leb. rewrite Qcle_alt.
  destruct (a ?= b); split; try done; by intros [].
Qed.

Lemma Qc_ltb_lt (a b : Qc) : Qc_ltb a b = true ↔ a < b.
Proof.
  unfold Qc_ltb. rewrite Qclt_alt. by destruct (a ?= b).
Qed.

Lemma Qc_square_nonneg (c : Qc) : 0 <= c * c.
Proof.
  assert (∀ d : Qc, 0 <= d → 0 <= d * d) as Hpos.
  { intros d Hd. rewrite <-(Qcmult_0_l d) at 1.
    by apply Qcmult_le_compat_r. }
  destruct (Qclt_le_dec c 0) as [Hneg | Hc]; [|by apply Hpos].
  replace (c * c) with ((- c) * (- c)) by ring.
  apply Hpos. replace 0 with (- 0) by ring.
  by apply Qcopp_le_compat, Qclt_le_weak.
Qed.

Lemma norm2_nonneg (v : list Qc) : 0 <= norm2 v.
Proof.
  unfold norm2. induction v as [|c v IH]; simpl; [apply Qcle_refl|].
  replace 0 with (0 + 0) by ring.
  apply Qcplus_le_compat; [apply Qc_square_nonneg|apply IH].
Qed.

(** The exact residual is what [mult] and [axpy] compute on rationals. *)
Lemma dense_residual (A : list (list Qc)) (b x : list Qc) :
  axpy (copp c1) b (mult A x) = residual A b x.
Proof.
  simpl. unfold residual. by rewrite dense_axpy_minus, dense_mult_matvec.
Qed.

Lemma dense_residual_holds (ndebug : bool) (cfg : Config Qc)
    (A : list (list Qc)) (b x : list Qc) (st : LoopState Qc (list Qc)) :
  at_loop_condition ndebug cfg A b x st → residual_holds A b st.
Proof.
  induction 1 as [err st Hb Hx Hpos Hinit | st st' _ IH _ Hit].
  - eapply (initialise_residual ndebug cfg A b x); try done.
    + apply dense_dimension_axpy.
    + apply dense_dimension_mult.
  - eapply (iteration_residual ndebug A b) in Hit; try done.
    + apply dense_axpy_comm.
    + apply dense_mult_axpy.
    + apply dense_dimension_axpy.
    + apply dense_dimension_scal.
    + apply dense_dimension_mult.
Qed.

(** C10: in exact arithmetic, whenever the loop condition is evaluated the
    vector [r] is the residual [A*x - b] of the current [x]: the
    initialisation sets [r] so, and an iteration moves [x] by
    [-alpha*d - omega*s] and [r] by [-alpha*A*d - omega*A*s]. *)
Theorem residual_at_loop_condition (ndebug : bool) (cfg : Config Qc)
    (A : list (list Qc)) (b x : list Qc) (st : LoopState Qc (list Qc)) :
  at_loop_condition ndebug cfg A b x st →
  vec (mach st) Br = residual A b (vec (mach st) Bx).
Proof.
  intros (Hb & Hr & _)%dense_residual_holds.
  by rewrite Hr, dense_residual.
Qed.

(** C1, in exact arithmetic: when [solve] returns true, the residual of the
    final [x], computed afresh from [A], [b] and [x], satisfies
    [|A*x - b|^2 <= eps^2 * |b|^2]. *)
Theorem solve_true_bounds_residual (ndebug : bool) (cfg : Config Qc)
    (A : list (list Qc)) (b x : list Qc) (e : Exit Qc (list Qc)) :
  solve ndebug cfg A b x = Returned e →
  success e = true →
  norm2 (residual A b (x_of e)) <= epsilon_ cfg * epsilon_ cfg * norm2 b.
Proof.
  intros Hsolve Hok.
  destruct (solve_rejected_or_valid ndebug cfg A b x)
    as [Hrej | (Hb & Hx & Hpos)].
  { rewrite Hrej in Hsolve. by inversion Hsolve; subst. }
  destruct (solve_variant_exit ndebug Bh true cfg A b x (or_introl eq_refl)
              Hb Hx Hpos e Hsolve) as (r & _ & Hs & _ & He & Hr & _).
  rewrite Hok in Hs. symmetry in Hs. apply Qc_leb_le in Hs.
  rewrite He, Hr in Hs.
  rewrite (solve_residual ndebug cfg A b x) in Hs; try done.
  - rewrite dense_residual in Hs.
    change (dense_dot (residual A b (x_of e)) (residual A b (x_of e))
            <= epsilon_ cfg * epsilon_ cfg * dense_dot b b) in Hs.
    by rewrite !dense_dot_norm2 in Hs.
  - apply dense_axpy_comm.
  - apply dense_mult_axpy.
  - apply dense_dimension_axpy.
  - apply dense_dimension_scal.
  - apply dense_dimension_mult.
Qed.

Lemma norm2_zero_residual (b : list Qc) : norm2 (zip_with Qcminus b b) = 0.
Proof.
  unfold norm2. induction b as [|c b IH]; simpl; [done|].
  rewrite IH. ring.
Qed.

Lemma err_nonneg (eps : Qc) (b : list Qc) : 0 <= eps * eps * norm2 b.
Proof.
  rewrite <-(Qcmult_0_l (norm2 b)) at 1.
  apply Qcmult_le_compat_r; [apply Qc_square_nonneg|apply norm2_nonneg].
Qed.

(** The initialisation, with the vectors it leaves kept abstract. *)
Lemma initialise_unfold (ndebug : bool) (cfg : Config Qc)
    (A : list (list Qc)) (n : Z) (b x : list Qc) :
  ∃ m, (vec m Bx = x ∧ mult_calls m = 1%nat) ∧
    initialise ndebug Bh cfg A n (at_entry b x) =
    (_ ← c_assert ndebug (negb (IsZero (norm2 (residual A b x))));
     Returned (epsilon_ cfg * epsilon_ cfg * norm2 b,
               {| mach := m; rTh := norm2 (residual A b x);
                  rTr := norm2 (residual A b x); omega := None;
                  its := 0%Z |})).
Proof.
  eexists. split; last first.
  - rewrite <-!dense_dot_norm2, <-dense_residual. unfold initialise.
    reflexivity.
  - split; reflexivity.
Qed.

(** In exact arithmetic: when [A*x0 = b] the assertion of line 138 fails;
    with [NDEBUG] the loop is not entered and [solve] returns true with
    [its = 0], after one call of [mult], leaving [x] as it was. *)
Lemma exact_zero_residual (cfg : Config Qc)
    (A : list (list Qc)) (b x : list Qc) :
  length b = length A →
  length x = length A →
  (0 < length A)%nat →
  matvec A x = b →
  solve false cfg A b x = AssertionFailed ∧
  ∃ e, solve true cfg A b x = Returned e ∧
    success e = true ∧ its_of e = Some 0%Z ∧ x_of e = x ∧
    mult_calls (final e) = 1%nat.
Proof.
  intros Hb Hx Hpos HAx.
  assert (norm2 (residual A b x) = 0) as Hzero.
  { unfold residual. rewrite HAx. apply norm2_zero_residual. }
  assert (∀ ndebug, solve ndebug cfg A b x =
     '(err, st) ← initialise ndebug Bh cfg A (uint (A_dimension A))
                    (at_entry b x);
     st ← loop ndebug Bh true A err
            (effective_max_iter cfg (uint (A_dimension A)))
            (Z.to_nat (effective_max_iter cfg (uint (A_dimension A)))) st;
     Returned (finish err
                 (effective_max_iter cfg (uint (A_dimension A))) st)) as Hvalid.
  { intros ndebug. apply solve_variant_valid; simpl; lia. }
  split.
  - rewrite Hvalid.
    destruct (initialise_unfold false cfg A (uint (A_dimension A)) b x)
      as (m & _ & ->).
    by rewrite Hzero.
  - rewrite Hvalid.
    destruct (initialise_unfold true cfg A (uint (A_dimension A)) b x)
      as (m & [Hm Hcalls] & ->).
    rewrite Hzero.
    set (err := epsilon_ cfg * epsilon_ cfg * norm2 b).
    set (st0 := {| mach := m; rTh := 0; rTr := 0; omega := None;
                   its := 0%Z |}).
    assert (loop_condition err
              (effective_max_iter cfg (uint (A_dimension A))) st0 = false)
      as Hcond.
    { unfold loop_condition. simpl.
      destruct (Qc_ltb err 0) eqn:Hlt; [|done].
      apply Qc_ltb_lt, Qclt_not_le in Hlt. destruct Hlt. apply err_nonneg. }
    assert (∀ fuel, loop true Bh true A err
              (effective_max_iter cfg (uint (A_dimension A))) fuel st0
            = Returned st0) as Hloop.
    { intros [|fuel]; cbn [loop]; by rewrite Hcond. }
    change (c_assert true (negb (IsZero 0))) with (Returned ()).
    cbn [mbind Outcome_bind]. rewrite Hloop. cbn [mbind Outcome_bind].
    eexists. split; [reflexivity|].
    split_and!; try done.
    apply Qc_leb_le, err_nonneg.
Qed.

End ExactDense.

Lemma solve_true_bounds_residual_witness :
  ∃ e, solve false cfg_scenario2 A_scenario2 b_scenario2 x_scenario2
         = Returned e ∧
    success e = true ∧
    (norm2 (residual A_scenario2 b_scenario2 (x_of e))
     <= epsilon_ cfg_scenario2 * epsilon_ cfg_scenario2
        * norm2 b_scenario2)%Qc.
Proof.
  assert (∃ e, solve false cfg_scenario2 A_scenario2 b_scenario2 x_scenario2
               = Returned e ∧ success e = true) as (e & He & Hok).
  { eexists. split; vm_compute; reflexivity. }
  exists e. split_and!; [done..|].
  exact (solve_true_bounds_residual false cfg_scenario2 A_scenario2
           b_scenario2 x_scenario2 e He Hok).
Defined.

(** C1 as stated fails in binary64: for the equation x = 1 with first guess
    1e20 and the default tolerance 1e-4, the first residual [1e20 - 1] rounds
    to [1e20], the step brings [x] to 0 and the carried [r] to 0, and [solve]
    returns true with [x = 0], whose true residual is 1. *)
Lemma solve_true_binary64_residual_exceeds :
  ∃ e, solve false cfg_default_double A_far b_far x_far = Returned e ∧
    success e = true ∧
    x_of e = [0%float] ∧
    exact_residual_ok (epsilon_ cfg_default_double) A_far b_far (x_of e)
      = Some false.
Proof.
  eexists. split; [vm_compute; reflexivity|].
  split_and!; vm_compute; reflexivity.
Qed.

Lemma residual_at_loop_condition_witness :
  vec (mach st_scenario2_next) Br
  = residual A_scenario2 b_scenario2 (vec (mach st_scenario2_next) Bx).
Proof.
  apply (residual_at_loop_condition false cfg_scenario2 A_scenario2
           b_scenario2 x_scenario2).
  eapply at_next.
  - apply (at_first false cfg_scenario2 A_scenario2 b_scenario2 x_scenario2
             err_scenario2 st_scenario2); vm_compute; reflexivity.
  - vm_compute. reflexivity.
  - vm_compute. reflexivity.
Defined.

(** ** The iteration cap *)

Lemma effective_max_iter_default {T : Type} (cfg : Config T) (n : Z) :
  max_iter_ cfg = 0 → 0 ≤ 10 * n ≤ UINT_MAX →
  effective_max_iter cfg n = 10 * n.
Proof.
  intros H0 Hn. unfold effective_max_iter. rewrite H0.
  change (uint 0 =? 0) with true. cbv iota. by apply uint_small.
Qed.

Lemma effective_max_iter_set {T : Type} (cfg : Config T) (n : Z) :
  0 < max_iter_ cfg ≤ UINT_MAX →
  effective_max_iter cfg n = max_iter_ cfg.
Proof.
  intros Hk. unfold effective_max_iter. rewrite uint_small by lia.
  destruct (Z.eqb_spec (max_iter_ cfg) 0); [lia|done].
Qed.

(** C6 fails on the code for large systems: the default cap is computed as
    [10*n] in [unsigned int].  For this system of dimension 429496730 the cap
    is 4294967300 mod 2^32 = 4: with [max_iter_ = 0] the loop is left after 4
    iterations and [solve] returns false, although the fifth iteration would
    reach the solution, as the same call with a cap of 5 shows.  For a
    dimension of 2^31 the cap is 0. *)
Lemma default_cap_wraps_at_large_dimension :
  A_dimension A_large = 429496730 ∧
  10 * A_dimension A_large = 4294967300 ∧
  effective_max_iter cfg_default (uint (A_dimension A_large)) = 4 ∧
  effective_max_iter cfg_default (uint (2 ^ 31)) = 0 ∧
  (∃ e, solve false cfg_default A_large b_large x_large = Returned e ∧
        success e = false ∧ its_of e = Some 4) ∧
  (∃ e, solve false cfg_cap5 A_large b_large x_large = Returned e ∧
        success e = true ∧ its_of e = Some 4).
Proof.
  split_and!; try reflexivity.
  - eexists. split; [vm_compute; reflexivity|]. split; reflexivity.
  - eexists. split; [vm_compute; reflexivity|]. split; reflexivity.
Qed.

(** Where [10*n] fits in an [unsigned int], C6 holds.  First part (X1): a
    configured cap of 0 behaves as a configured cap of [10*n]. *)
Theorem default_cap_is_ten_n {T V M : Type}
    `{!CoeffOps T, !VectorOps T V, !MatrixOps V M, !Inhabited V}
    (ndebug : bool) (cfg : Config T) (A : M) (b x : V) :
  max_iter_ cfg = 0 →
  10 * A_dimension A ≤ UINT_MAX →
  solve ndebug cfg A b x =
  solve ndebug {| epsilon_ := epsilon_ cfg; max_iter_ := 10 * A_dimension A |}
        A b x.
Proof.
  intros H0 Hfit. unfold solve, solve_variant.
  destruct (negb _); [done|]. destruct (negb _); [done|].
  destruct (Z.leb_spec (A_dimension A) 0) as [|Hpos]; [done|].
  cbv zeta.
  assert (uint (A_dimension A) = A_dimension A) as -> by (apply uint_small; lia).
  rewrite (effective_max_iter_default cfg) by (done || lia).
  rewrite effective_max_iter_set by (simpl; lia).
  reflexivity.
Qed.

Lemma default_cap_is_ten_n_witness :
  solve false cfg_scenario2 A_scenario2 b_scenario2 x_scenario2 =
  solve false {| epsilon_ := epsilon_ cfg_scenario2;
                 max_iter_ := 10 * A_dimension A_scenario2 |}
        A_scenario2 b_scenario2 x_scenario2.
Proof.
  apply (default_cap_is_ten_n false cfg_scenario2 A_scenario2 b_scenario2
           x_scenario2).
  - reflexivity.
  - vm_compute. discriminate.
Defined.

(** Second part (X2): the iteration count never exceeds the cap in force,
    which is the configured cap when that is positive. *)
Theorem iterations_within_cap {T V M : Type}
    `{!CoeffOps T, !VectorOps T V, !MatrixOps V M, !Inhabited V}
    (ndebug : bool) (cfg : Config T) (A : M) (b x : V) (e : Exit T V)
    (r : Report T) :
  solve ndebug cfg A b x = Returned e →
  trace e = Some r →
  rep_max_iter r = effective_max_iter cfg (uint (A_dimension A)) ∧
  0 ≤ rep_its r ≤ rep_max_iter r ∧
  (0 < max_iter_ cfg ≤ UINT_MAX → rep_max_iter r = max_iter_ cfg).
Proof.
  intros Hsolve Htrace.
  destruct (solve_rejected_or_valid ndebug cfg A b x)
    as [Hrej | (Hb & Hx & Hpos)].
  { rewrite Hrej in Hsolve. by inversion Hsolve; subst. }
  destruct (solve_variant_exit ndebug Bh true cfg A b x (or_introl eq_refl)
              Hb Hx Hpos e Hsolve) as (r' & Ht & _ & _ & _ & _ & Hm & Hi).
  rewrite Htrace in Ht. injection Ht as <-.
  split_and!; try done; try lia.
  intros Hk. rewrite Hm. by apply effective_max_iter_set.
Qed.

Lemma iterations_within_cap_witness :
  ∃ e r, solve false cfg_cap1 laplace5 b_laplace5 x_laplace5 = Returned e ∧
    trace e = Some r ∧ success e = false ∧ rep_its r = 1 ∧
    rep_max_iter r
      = effective_max_iter cfg_cap1 (uint (A_dimension laplace5)) ∧
    0 ≤ rep_its r ≤ rep_max_iter r ∧
    (0 < max_iter_ cfg_cap1 ≤ UINT_MAX → rep_max_iter r = max_iter_ cfg_cap1).
Proof.
  assert (∃ e r, solve false cfg_cap1 laplace5 b_laplace5 x_laplace5
                 = Returned e ∧ trace e = Some r ∧ success e = false ∧
                 rep_its r = 1) as (e & r & He & Hr & Hs & Hi).
  { eexists _, _. split; [vm_compute; reflexivity|].
    split; [reflexivity|]. split; reflexivity. }
  destruct (iterations_within_cap false cfg_cap1 laplace5 b_laplace5
              x_laplace5 e r He Hr) as (Hcap & Hits & Hset).
  exists e, r.
  exact (conj He (conj Hr (conj Hs (conj Hi (conj Hcap (conj Hits Hset)))))).
Defined.

(** Third part (X4), in exact arithmetic: a call that ends with [rTr > err],
    at the cap or elsewhere, returns false. *)
Theorem unconverged_returns_false {V M : Type}
    `{!VectorOps Qc V, !MatrixOps V M, !Inhabited V}
    (ndebug : bool) (cfg : Config Qc) (A : M) (b x : V) (e : Exit Qc V)
    (r : Report Qc) :
  solve ndebug cfg A b x = Returned e →
  trace e = Some r →
  (rep_err r < rep_rTr r)%Qc →
  success e = false.
Proof.
  intros Hsolve Htrace Hlt.
  destruct (solve_rejected_or_valid ndebug cfg A b x)
    as [Hrej | (Hb & Hx & Hpos)].
  { rewrite Hrej in Hsolve. by inversion Hsolve; subst. }
  destruct (solve_variant_exit ndebug Bh true cfg A b x (or_introl eq_refl)
              Hb Hx Hpos e Hsolve) as (r' & Ht & Hs & _).
  rewrite Htrace in Ht. injection Ht as <-.
  rewrite Hs. destruct (cle _ _) eqn:Hle; [|done].
  apply Qc_leb_le in Hle. by apply Qcle_not_lt in Hle.
Qed.

Lemma unconverged_returns_false_witness :
  ∃ e r, solve false cfg_cap1 laplace5 b_laplace5 x_laplace5 = Returned e ∧
    trace e = Some r ∧ rep_its r = rep_max_iter r ∧
    (rep_err r < rep_rTr r)%Qc ∧
    success e = false.
Proof.
  assert (∃ e r, solve false cfg_cap1 laplace5 b_laplace5 x_laplace5
                 = Returned e ∧ trace e = Some r ∧
                 rep_its r = rep_max_iter r ∧
                 Qc_ltb (rep_err r) (rep_rTr r) = true)
    as (e & r & He & Hr & Hi & Hlt%Qc_ltb_lt).
  { eexists _, _. split; [vm_compute; reflexivity|].
    split; [reflexivity|]. split; vm_compute; reflexivity. }
  exists e, r.
  exact (conj He (conj Hr (conj Hi (conj Hlt
           (unconverged_returns_false false cfg_cap1 laplace5 b_laplace5
              x_laplace5 e r He Hr Hlt))))).
Defined.

(** X3: the loop of [solve] terminates: the fuel of the embedding is never
    used up. *)
Theorem solve_terminates {T V M : Type}
    `{!CoeffOps T, !VectorOps T V, !MatrixOps V M, !Inhabited V}
    (ndebug : bool) (cfg : Config T) (A : M) (b x : V) :
  ended (solve ndebug cfg A b x) = true.
Proof.
  assert (solve ndebug cfg A b x ≠ OutOfFuel) as Hfuel;
    [|by destruct (solve ndebug cfg A b x)].
  destruct (solve_rejected_or_valid ndebug cfg A b x)
    as [Hrej | (Hb & Hx & Hpos)]; [by rewrite Hrej|].
  apply solve_variant_fuel; try done. by left.
Qed.

(** ** How the loop is left *)

Section Exits.
Context {T V M : Type} `{!CoeffOps T, !VectorOps T V, !MatrixOps V M, !Inhabited V}.
Variable ndebug : bool.
Variable A : M.

(** The loop is left at its condition, in a state every full iteration
    keeps [P] for, or at a [break] of an iteration started in such a state. *)
Lemma loop_exit (P : LoopState T V → Prop) (err : T) (max_iter : Z) :
  (∀ st st', P st → loop_condition err max_iter st = true →
             iteration ndebug Bh true A st = Returned (Continue st') → P st') →
  ∀ fuel st st', P st →
    loop ndebug Bh true A err max_iter fuel st = Returned st' →
    (P st' ∧ loop_condition err max_iter st' = false) ∨
    ∃ st1, P st1 ∧ loop_condition err max_iter st1 = true ∧
           iteration ndebug Bh true A st1 = Returned (Break st').
Proof.
  intros Hstep. induction fuel as [|fuel IH]; intros st st' HP; simpl;
    destruct (loop_condition err max_iter st) eqn:Hc; try done;
    try (intros [= <-]; by left).
  intros ([st1|st1] & Hit & Hrest)%bind_Returned.
  - injection Hrest as <-. right. by exists st.
  - apply (IH st1); [|done]. by eapply Hstep.
Qed.

(** What an iteration counts and what it leaves untouched: two calls of
    [mult], and [b] and [rT] as they were. *)
Lemma iteration_frame (st : LoopState T V) (c : Control (LoopState T V)) :
  iteration ndebug Bh true A st = Returned c →
  mult_calls (mach (state_of c)) = S (S (mult_calls (mach st))) ∧
  vec (mach (state_of c)) Bb = vec (mach st) Bb ∧
  vec (mach (state_of c)) BrT = vec (mach st) BrT ∧
  ∃ w, omega (state_of c) = Some w ∧
    match c with
    | Break st' => its st' = its st ∧ rTh st' = rTh st ∧
                   IsZero w || IsZero (rTh st) = true
    | Continue st' => its st' = uint (its st + 1)
    end.
Proof.
  intros (a & w & _ & _ & _ & [[-> Hz] | (st2 & -> & _ & _ & Hn)])
    %iteration_Returned; cbn [state_of].
  - split_and!; try reflexivity. exists w. by split_and!.
  - apply next_direction_Returned in Hn as (Hi & _ & Ho & Hk & Hv).
    rewrite Hk, !Hv by done. split_and!; try reflexivity.
    exists w. by split.
Qed.

End Exits.

Section ExitCases.
Context {T V M : Type} `{!CoeffOps T, !VectorOps T V, !MatrixOps V M, !Inhabited V}.
Variable ndebug : bool.
Variable cfg : Config T.
Variable A : M.
Variables b x : V.

Hypothesis dimension_b : A_dimension A = dimension b.
Hypothesis dimension_x : A_dimension A = dimension x.
Hypothesis dimension_pos : 0 < A_dimension A.

(** Lines 119-141 call [mult] once. *)
Lemma initialise_calls (n : Z) (err : T) (st : LoopState T V) :
  initialise ndebug Bh cfg A n (at_entry b x) = Returned (err, st) →
  mult_calls (mach st) = 1%nat.
Proof.
  unfold initialise. by intros ([] & _ & [= <- <-])%bind_Returned.
Qed.

(** The two ways a valid call comes to its [return]: from the loop condition,
    after [its] full iterations, or from a [break] in the iteration after
    them.  [b] and [rT] are then what they were when the loop was entered. *)
Lemma solve_exit_cases (e : Exit T V) :
  solve ndebug cfg A b x = Returned e →
  ∃ r, trace e = Some r ∧
    rep_max_iter r = effective_max_iter cfg (uint (A_dimension A)) ∧
    rep_err r = cmul (cmul (epsilon_ cfg) (epsilon_ cfg)) (dot b b) ∧
    success e = cle (rep_rTr r) (rep_err r) ∧
    vec (final e) Bb = b ∧
    vec (final e) BrT = axpy (copp c1) b (mult A x) ∧
    0 ≤ rep_its r ≤ rep_max_iter r ∧
    ((Z.of_nat (mult_calls (final e)) = 2 * rep_its r + 1 ∧
      (rep_omega r = None ↔ rep_its r = 0) ∧
      clt (rep_err r) (rep_rTr r) && (rep_its r <? rep_max_iter r) = false) ∨
     (Z.of_nat (mult_calls (final e)) = 2 * rep_its r + 3 ∧
      rep_its r < rep_max_iter r ∧
      ∃ w, rep_omega r = Some w ∧ IsZero w || IsZero (rep_rTh r) = true)).
Proof.
  intros (err & st0 & st & Hinit & Hloop & ->)%solve_variant_Returned;
    [|done..].
  pose proof (initialise_calls _ _ _ Hinit) as Hcalls.
  apply initialise_Returned in Hinit
    as (-> & Hits & Hom & _ & _ & _ & Hb & Hr & _ & _ & HrT); [|by left..].
  set (err := cmul (cmul (epsilon_ cfg) (epsilon_ cfg)) (dot b b)) in *.
  set (max_iter := effective_max_iter cfg (uint (A_dimension A))) in *.
  pose proof (effective_max_iter_range cfg (uint (A_dimension A))) as Hmax.
  fold max_iter in Hmax.
  set (P := λ st : LoopState T V,
         Z.of_nat (mult_calls (mach st)) = 2 * its st + 1 ∧
         0 ≤ its st ≤ max_iter ∧
         (omega st = None ↔ its st = 0) ∧
         vec (mach st) Bb = b ∧
         vec (mach st) BrT = axpy (copp c1) b (mult A x)).
  assert (P st0) as HP0.
  { unfold P. rewrite Hcalls, Hits, Hom, Hb, HrT, Hr. split_and!; try done; lia. }
  destruct (loop_exit ndebug A P err max_iter) with (2 := HP0) (3 := Hloop)
    as [[(Hk & Hi & Ho & Hb' & HrT') Hc] | (st1 & (Hk & Hi & Ho & Hb' & HrT') & Hc & Hit)].
  - intros st1 st2 (Hk & Hi & Ho & Hb' & HrT') [_ Hlt%Z.ltb_lt]%andb_prop
      (Hk2 & Hb2 & HrT2 & w & Hw & Hi2)%iteration_frame.
    cbn [state_of] in *. unfold P.
    rewrite uint_small in Hi2 by lia.
    rewrite Hk2, Hb2, HrT2, Hw, Hi2. split_and!; try done; try lia.
    split; [done|lia].
  - eexists. split; [reflexivity|]. cbn [finish final success rep_max_iter
      rep_err rep_rTr rep_its rep_omega rep_rTh].
    split_and!; try done; try lia. left. by split_and!.
  - apply andb_prop in Hc as [_ Hlt%Z.ltb_lt].
    apply iteration_frame in Hit
      as (Hk2 & Hb2 & HrT2 & w & Hw & Hi2 & Hh2 & Hz). cbn [state_of] in *.
    eexists. split; [reflexivity|]. cbn [finish final success rep_max_iter
      rep_err rep_rTr rep_its rep_omega rep_rTh].
    rewrite Hb2, HrT2, Hi2, Hk2, Hw, Hh2.
    split_and!; try done; try lia. right. split_and!; try lia.
    by exists w.
Qed.

End ExitCases.

(** ** The cost of a call *)

(** The two ways the loop of a valid call is left, each with its count of
    [mult] calls. *)
Lemma solve_exit_paths {T V M : Type}
    `{!CoeffOps T, !VectorOps T V, !MatrixOps V M, !Inhabited V}
    (ndebug : bool) (cfg : Config T) (A : M) (b x : V) (e : Exit T V) :
  let err := cmul (cmul (epsilon_ cfg) (epsilon_ cfg)) (dot b b) in
  let max_iter := effective_max_iter cfg (uint (A_dimension A)) in
  A_dimension A = dimension b →
  A_dimension A = dimension x →
  0 < A_dimension A →
  solve ndebug cfg A b x = Returned e →
  ∃ st, e = finish err max_iter st ∧
    ((at_loop_condition ndebug cfg A b x st ∧
      loop_condition err max_iter st = false ∧
      Z.of_nat (mult_calls (mach st)) = 2 * its st + 1) ∨
     (∃ st1, at_loop_condition ndebug cfg A b x st1 ∧
        loop_condition err max_iter st1 = true ∧
        iteration ndebug Bh true A st1 = Returned (Break st) ∧
        Z.of_nat (mult_calls (mach st)) = 2 * its st + 3 ∧
        ∃ w, omega st = Some w ∧ IsZero w || IsZero (rTh st) = true)).
Proof.
  intros err max_iter Hb Hx Hpos
    (err0 & st0 & st & Hinit & Hloop & ->)%solve_variant_Returned;
    [|done..].
  pose proof (initialise_calls ndebug cfg A b x _ _ _ Hinit) as Hcalls.
  pose proof (at_first ndebug cfg A b x err0 st0 Hb Hx Hpos Hinit) as Hat0.
  apply initialise_Returned in Hinit as (-> & Hits & _); [|by left..].
  fold err max_iter in Hloop |- *.
  pose proof (effective_max_iter_range cfg (uint (A_dimension A))) as Hmax.
  fold max_iter in Hmax.
  set (P := λ st : LoopState T V,
         at_loop_condition ndebug cfg A b x st ∧
         Z.of_nat (mult_calls (mach st)) = 2 * its st + 1 ∧
         0 ≤ its st).
  assert (P st0) as HP0 by (unfold P; rewrite Hcalls, Hits; by split_and!).
  exists st. split; [done|].
  destruct (loop_exit ndebug A P err max_iter) with (2 := HP0) (3 := Hloop)
    as [[(Hat & Hk & _) Hc] | (st1 & (Hat & Hk & Hi) & Hc & Hit)].
  - intros st1 st2 (Hat & Hk & Hi) Hc Hit.
    pose proof Hc as [_ Hlt%Z.ltb_lt]%andb_prop.
    pose proof Hit as (Hk2 & _ & _ & w & _ & Hi2)%iteration_frame.
    cbn [state_of] in Hk2, Hi2. rewrite uint_small in Hi2 by lia.
    unfold P. rewrite Hk2, Hi2. split; [|lia]. by eapply at_next.
  - left. by split_and!.
  - right. exists st1.
    pose proof Hit as (Hk2 & _ & _ & w & Hw & Hi2 & Hh2 & Hz)%iteration_frame.
    cbn [state_of] in Hk2, Hw, Hi2, Hh2.
    split_and!; try done.
    + rewrite Hk2, Hi2. lia.
    + exists w. by rewrite Hh2.
Qed.

(** X5: a call that wrote its diagnostic line has called [mult] once before
    the loop and twice in every iteration, and the count tells how the loop
    was left.  When the loop was left at its condition (the final state was
    met at the loop condition, which was false) [mult] was called
    [2*its + 1] times.  When it was left at a [break] (the final state is the
    one an iteration started at a true loop condition ended in at line 168 or
    170) [mult] was called [2*its + 3] times, and the [omega] or the [rTh] of
    the diagnostic line is near zero. *)
Theorem mult_calls_follow_iterations {T V M : Type}
    `{!CoeffOps T, !VectorOps T V, !MatrixOps V M, !Inhabited V}
    (ndebug : bool) (cfg : Config T) (A : M) (b x : V) (e : Exit T V)
    (r : Report T) :
  let err := cmul (cmul (epsilon_ cfg) (epsilon_ cfg)) (dot b b) in
  let max_iter := effective_max_iter cfg (uint (A_dimension A)) in
  solve ndebug cfg A b x = Returned e →
  trace e = Some r →
  ∃ st, e = finish err max_iter st ∧
    ((at_loop_condition ndebug cfg A b x st ∧
      loop_condition err max_iter st = false ∧
      Z.of_nat (mult_calls (final e)) = 2 * rep_its r + 1) ∨
     (∃ st1, at_loop_condition ndebug cfg A b x st1 ∧
        loop_condition err max_iter st1 = true ∧
        iteration ndebug Bh true A st1 = Returned (Break st) ∧
        Z.of_nat (mult_calls (final e)) = 2 * rep_its r + 3 ∧
        ∃ w, rep_omega r = Some w ∧
          IsZero w || IsZero (rep_rTh r) = true)).
Proof.
  intros err max_iter Hsolve Htrace.
  destruct (solve_rejected_or_valid ndebug cfg A b x)
    as [Hrej | (Hb & Hx & Hpos)].
  { rewrite Hrej in Hsolve. by inversion Hsolve; subst. }
  destruct (solve_exit_paths ndebug cfg A b x e Hb Hx Hpos Hsolve)
    as (st & -> & Hpaths).
  injection Htrace as <-. exists st. split; [done|].
  cbn [finish final rep_its rep_omega rep_rTh].
  destruct Hpaths as [(Hat & Hc & Hk) | (st1 & Hat & Hc & Hit & Hk & Hw)].
  - left. by split_and!.
  - right. by exists st1.
Qed.

(** The 5x5 system with a cap of 1 leaves the loop at its condition after
    one iteration, and scenario 1 at the [break] of line 168 in its first
    iteration. *)
Lemma mult_calls_follow_iterations_witness :
  (∃ e r st,
     solve false cfg_cap1 laplace5 b_laplace5 x_laplace5 = Returned e ∧
     trace e = Some r ∧ rep_its r = 1 ∧ mult_calls (final e) = 3%nat ∧
     e = finish (cmul (cmul (epsilon_ cfg_cap1) (epsilon_ cfg_cap1))
                   (dot b_laplace5 b_laplace5))
           (effective_max_iter cfg_cap1 (uint (A_dimension laplace5))) st ∧
     at_loop_condition false cfg_cap1 laplace5 b_laplace5 x_laplace5 st ∧
     loop_condition
       (cmul (cmul (epsilon_ cfg_cap1) (epsilon_ cfg_cap1))
          (dot b_laplace5 b_laplace5))
       (effective_max_iter cfg_cap1 (uint (A_dimension laplace5))) st
       = false) ∧
  (∃ e r st st1 w,
     solve false cfg_scenario1 A_scenario1 b_scenario1 x_scenario1
       = Returned e ∧
     trace e = Some r ∧ rep_its r = 0 ∧ mult_calls (final e) = 3%nat ∧
     e = finish (cmul (cmul (epsilon_ cfg_scenario1) (epsilon_ cfg_scenario1))
                   (dot b_scenario1 b_scenario1))
           (effective_max_iter cfg_scenario1
              (uint (A_dimension A_scenario1))) st ∧
     at_loop_condition false cfg_scenario1 A_scenario1 b_scenario1
       x_scenario1 st1 ∧
     iteration false Bh true A_scenario1 st1 = Returned (Break st) ∧
     rep_omega r = Some w ∧ IsZero w || IsZero (rep_rTh r) = true).
Proof.
  split.
  - assert (∃ e r, solve false cfg_cap1 laplace5 b_laplace5 x_laplace5
                   = Returned e ∧ trace e = Some r ∧
                   rep_its r = 1 ∧ mult_calls (final e) = 3%nat)
      as (e & r & He & Hr & Hi & Hk).
    { eexists _, _. split; [vm_compute; reflexivity|].
      split; [reflexivity|]. split; reflexivity. }
    destruct (mult_calls_follow_iterations false cfg_cap1 laplace5
                b_laplace5 x_laplace5 e r He Hr)
      as (st & Hst & [(Hat & Hc & _) | (st1 & _ & _ & _ & Hk' & _)]).
    + exists e, r, st.
      exact (conj He (conj Hr (conj Hi (conj Hk (conj Hst (conj Hat Hc)))))).
    + rewrite Hk, Hi in Hk'. discriminate Hk'.
  - assert (∃ e r, solve false cfg_scenario1 A_scenario1 b_scenario1
                     x_scenario1 = Returned e ∧ trace e = Some r ∧
                   rep_its r = 0 ∧ mult_calls (final e) = 3%nat)
      as (e & r & He & Hr & Hi & Hk).
    { eexists _, _. split; [vm_compute; reflexivity|].
      split; [reflexivity|]. split; reflexivity. }
    destruct (mult_calls_follow_iterations false cfg_scenario1 A_scenario1
                b_scenario1 x_scenario1 e r He Hr)
      as (st & Hst & [(_ & _ & Hk') |
                      (st1 & Hat & _ & Hit & _ & w & Hw & Hz)]).
    + rewrite Hk, Hi in Hk'. discriminate Hk'.
    + exists e, r, st, st1, w.
      exact (conj He (conj Hr (conj Hi (conj Hk (conj Hst (conj Hat
               (conj Hit (conj Hw Hz)))))))).
Defined.

(** X6: after [set_max_iter(k)] with [0 < k <= UINT_MAX], a call that returns
    has called [mult] at most [2*k + 1] times. *)
Theorem configured_cap_bounds_mult_calls {T V M : Type}
    `{!CoeffOps T, !VectorOps T V, !MatrixOps V M, !Inhabited V}
    (ndebug : bool) (k : Z) (cfg : Config T) (A : M) (b x : V)
    (e : Exit T V) :
  0 < k ≤ UINT_MAX →
  solve ndebug (set_max_iter k cfg) A b x = Returned e →
  Z.of_nat (mult_calls (final e)) ≤ 2 * k + 1.
Proof.
  intros Hk Hsolve.
  destruct (solve_rejected_or_valid ndebug (set_max_iter k cfg) A b x)
    as [Hrej | (Hb & Hx & Hpos)].
  { rewrite Hrej in Hsolve. injection Hsolve as <-. simpl. lia. }
  destruct (solve_exit_cases ndebug (set_max_iter k cfg) A b x Hb Hx Hpos e
              Hsolve)
    as (r & _ & Hm & _ & _ & _ & _ & Hi & Hcases).
  rewrite effective_max_iter_set in Hm
    by (simpl; by rewrite uint_small by lia).
  simpl in Hm. rewrite uint_small in Hm by lia.
  destruct Hcases as [(Hc & _) | (Hc & Hlt & _)]; lia.
Qed.

Lemma configured_cap_bounds_mult_calls_witness :
  ∃ e, solve false (set_max_iter 1 cfg_default) laplace5 b_laplace5 x_laplace5
         = Returned e ∧
    mult_calls (final e) = 3%nat ∧
    Z.of_nat (mult_calls (final e)) ≤ 2 * 1 + 1.
Proof.
  assert (∃ e, solve false (set_max_iter 1 cfg_default) laplace5 b_laplace5
                 x_laplace5 = Returned e ∧ mult_calls (final e) = 3%nat)
    as (e & He & Hk).
  { eexists. split; [vm_compute; reflexivity|reflexivity]. }
  assert (0 < 1 ≤ UINT_MAX) as Hcap by (unfold UINT_MAX; lia).
  exists e.
  exact (conj He (conj Hk
           (configured_cap_bounds_mult_calls false 1 cfg_default laplace5
              b_laplace5 x_laplace5 e Hcap He))).
Defined.

(** ** The diagnostic line *)

(** X7: [omega] is declared without a value (line 126) and assigned only in
    the loop body; the diagnostic line of line 181 reads it before any
    assignment exactly when the loop body was never executed, that is when
    [mult] was called once. *)
Theorem omega_unassigned_iff_no_iteration {T V M : Type}
    `{!CoeffOps T, !VectorOps T V, !MatrixOps V M, !Inhabited V}
    (ndebug : bool) (cfg : Config T) (A : M) (b x : V) (e : Exit T V)
    (r : Report T) :
  solve ndebug cfg A b x = Returned e →
  trace e = Some r →
  rep_omega r = None ↔ mult_calls (final e) = 1%nat.
Proof.
  intros Hsolve Htrace.
  destruct (solve_rejected_or_valid ndebug cfg A b x)
    as [Hrej | (Hb & Hx & Hpos)].
  { rewrite Hrej in Hsolve. by inversion Hsolve; subst. }
  destruct (solve_exit_cases ndebug cfg A b x Hb Hx Hpos e Hsolve)
    as (r' & Ht & _ & _ & _ & _ & _ & Hi
        & [(Hk & Ho & _) | (Hk & _ & w & Hw & _)]);
    rewrite Htrace in Ht; injection Ht as <-.
  - rewrite Ho. lia.
  - rewrite Hw. split; [done|lia].
Qed.

Lemma omega_unassigned_iff_no_iteration_witness :
  ∃ e r, solve true cfg_default A_scenario4 b_scenario4 b_scenario4
           = Returned e ∧
    trace e = Some r ∧
    rep_omega r = None ∧
    (rep_omega r = None ↔ mult_calls (final e) = 1%nat).
Proof.
  assert (∃ e r, solve true cfg_default A_scenario4 b_scenario4 b_scenario4
                 = Returned e ∧ trace e = Some r ∧ rep_omega r = None)
    as (e & r & He & Hr & Ho).
  { eexists _, _. split; [vm_compute; reflexivity|].
    split; reflexivity. }
  exists e, r.
  exact (conj He (conj Hr (conj Ho
           (omega_unassigned_iff_no_iteration true cfg_default A_scenario4
              b_scenario4 b_scenario4 e r He Hr)))).
Defined.

(** ** What [solve] never writes *)

(** X8: a call that passes the validation and returns, with [b] and [x]
    two objects as [at_entry] has them, leaves [b] as it was, and [rT]
    holding the residual [A*x0 - b] of the first guess as lines 131-137
    computed it: the loop never writes either.  (With one object passed for
    both, lines 161-162 write to it, and what is kept is [rT] only.) *)
Theorem shadow_residual_is_fixed {T V M : Type}
    `{!CoeffOps T, !VectorOps T V, !MatrixOps V M, !Inhabited V}
    (ndebug : bool) (cfg : Config T) (A : M) (b x : V) (e : Exit T V) :
  A_dimension A = dimension b →
  A_dimension A = dimension x →
  0 < A_dimension A →
  solve ndebug cfg A b x = Returned e →
  vec (final e) Bb = b ∧
  vec (final e) BrT = axpy (copp c1) b (mult A x).
Proof.
  intros Hb Hx Hpos Hsolve.
  destruct (solve_exit_cases ndebug cfg A b x Hb Hx Hpos e Hsolve)
    as (r & _ & _ & _ & _ & Hb' & HrT & _).
  by split.
Qed.

Lemma shadow_residual_is_fixed_witness :
  ∃ e, solve false cfg_scenario2 A_scenario2 b_scenario2 x_scenario2
         = Returned e ∧
    its_of e = Some 1 ∧
    vec (final e) Bb = b_scenario2 ∧
    vec (final e) BrT
      = axpy (copp c1) b_scenario2 (mult A_scenario2 x_scenario2).
Proof.
  assert (∃ e, solve false cfg_scenario2 A_scenario2 b_scenario2 x_scenario2
               = Returned e ∧ its_of e = Some 1) as (e & He & Hi).
  { eexists. split; [vm_compute; reflexivity|reflexivity]. }
  exists e.
  exact (conj He (conj Hi
           (shadow_residual_is_fixed false cfg_scenario2 A_scenario2
              b_scenario2 x_scenario2 e eq_refl eq_refl eq_refl He))).
Defined.

(** ** Why a call returns false *)

(** X9: in exact arithmetic, a call that wrote its diagnostic line and
    returns false has used up its iterations ([its = max_iter]) or left the
    loop at a [break], and the line tells which: after a [break] the [omega]
    or the [rTh] it shows is near zero. *)
Theorem false_is_cap_or_breakdown {V M : Type}
    `{!VectorOps Qc V, !MatrixOps V M, !Inhabited V}
    (ndebug : bool) (cfg : Config Qc) (A : M) (b x : V) (e : Exit Qc V)
    (r : Report Qc) :
  solve ndebug cfg A b x = Returned e →
  trace e = Some r →
  success e = false →
  rep_its r = rep_max_iter r ∨
  ∃ w, rep_omega r = Some w ∧ IsZero w || IsZero (rep_rTh r) = true.
Proof.
  intros Hsolve Htrace Hfalse.
  destruct (solve_rejected_or_valid ndebug cfg A b x)
    as [Hrej | (Hb & Hx & Hpos)].
  { rewrite Hrej in Hsolve. by inversion Hsolve; subst. }
  destruct (solve_exit_cases ndebug cfg A b x Hb Hx Hpos e Hsolve)
    as (r' & Ht & _ & _ & Hs & _ & _ & Hi & [(_ & _ & Hc) | (_ & _ & Hw)]);
    rewrite Htrace in Ht; injection Ht as <-; [|by right].
  left. rewrite Hfalse in Hs. symmetry in Hs.
  assert (clt (rep_err r) (rep_rTr r) = true) as Hlt.
  { apply Qc_ltb_lt. apply Qcnot_le_lt. intros Hle%Qc_leb_le.
    change (cle (rep_rTr r) (rep_err r) = true) in Hle. congruence. }
  rewrite Hlt in Hc. simpl in Hc. apply Z.ltb_ge in Hc. lia.
Qed.

Lemma false_is_cap_or_breakdown_witness :
  ∃ e r, solve false cfg_cap1 laplace5 b_laplace5 x_laplace5 = Returned e ∧
    trace e = Some r ∧ success e = false ∧
    (rep_its r = rep_max_iter r ∨
     ∃ w, rep_omega r = Some w ∧ IsZero w || IsZero (rep_rTh r) = true).
Proof.
  assert (∃ e r, solve false cfg_cap1 laplace5 b_laplace5 x_laplace5
                 = Returned e ∧ trace e = Some r ∧ success e = false)
    as (e & r & He & Hr & Hs).
  { eexists _, _. split; [vm_compute; reflexivity|].
    split; reflexivity. }
  exists e, r.
  exact (conj He (conj Hr (conj Hs
           (false_is_cap_or_breakdown false cfg_cap1 laplace5 b_laplace5
              x_laplace5 e r He Hr Hs)))).
Defined.

(** ** Quotients in exact arithmetic *)

(** A loop that stops at an undefined quotient does so in an iteration
    started from a state the loop condition held in. *)
Lemma loop_undefined {T V M : Type}
    `{!CoeffOps T, !VectorOps T V, !MatrixOps V M, !Inhabited V}
    (ndebug : bool) (cfg : Config T) (A : M) (b x : V) (fuel : nat)
    (st : LoopState T V) :
  let err := cmul (cmul (epsilon_ cfg) (epsilon_ cfg)) (dot b b) in
  let max_iter := effective_max_iter cfg (uint (A_dimension A)) in
  at_loop_condition ndebug cfg A b x st →
  loop ndebug Bh true A err max_iter fuel st = DivisionUndefined →
  ∃ st1, at_loop_condition ndebug cfg A b x st1 ∧
         loop_condition err max_iter st1 = true ∧
         iteration ndebug Bh true A st1 = DivisionUndefined.
Proof.
  intros err max_iter. revert st.
  induction fuel as [|fuel IH]; intros st Hat; simpl;
    destruct (loop_condition err max_iter st) eqn:Hc; try done.
  destruct (iteration ndebug Bh true A st) as [[st1|st1]| | |] eqn:Hit;
    simpl; try done.
  - intros Hloop. apply (IH st1); [|done]. by eapply at_next.
  - intros _. by exists st.
Qed.

Section ExactQuotients.
Context {V M : Type} `{!VectorOps Qc V, !MatrixOps V M, !Inhabited V}.

(** A number that [IsZero] lets pass is not zero. *)
Lemma IsZero_nonzero (a : Qc) : IsZero a = false → a ≠ Q2Qc 0.
Proof. intros Hz ->. by vm_compute in Hz. Qed.

Lemma quotient_defined (a c : Qc) :
  c ≠ Q2Qc 0 → quotient a c = Returned (a / c)%Qc.
Proof.
  intros Hc. unfold quotient. simpl. by destruct (Qc_eq_dec c (Q2Qc 0)).
Qed.

(** Lines 149-177 divide by [tt], [omega] and [rTh] only after [IsZero] let
    them pass. *)
Lemma after_alpha_defined (A : M) (a : Qc) (m : Machine V)
    (st : LoopState Qc V) :
  after_alpha Bh true A a m st ≠ DivisionUndefined.
Proof.
  unfold after_alpha. cbv zeta.
  set (m2 := bicg_step Bh true A a m).
  assert (∃ w, choose_omega (blas_dot Bh Bt m2) (blas_dot Bt Bt m2)
               = Returned w) as [w ->].
  { unfold choose_omega. destruct (_ || _) eqn:Hz; [by eexists|].
    apply orb_false_elim in Hz as [_ Htt%IsZero_nonzero].
    eexists. by apply quotient_defined. }
  cbn [mbind Outcome_bind].
  destruct (IsZero w) eqn:Hw; [done|].
  change (rTh (stabilise Bh a w m2 st)) with (rTh st).
  destruct (IsZero (rTh st)) eqn:Hh; [done|].
  unfold next_direction.
  rewrite (quotient_defined a w) by by apply IsZero_nonzero.
  cbn [mbind Outcome_bind].
  change (rTh (stabilise Bh a w m2 st)) with (rTh st).
  rewrite (quotient_defined _ (rTh st)) by by apply IsZero_nonzero.
  done.
Qed.

(** The one quotient of an iteration that can be undefined is [rTh/rTAd] of
    line 148, where [assert] does nothing. *)
Lemma iteration_undefined (ndebug : bool) (A : M) (st : LoopState Qc V) :
  iteration ndebug Bh true A st = DivisionUndefined →
  ndebug = true ∧
  blas_dot BrT BAd (call_mult A Bd BAd (mach st)) = Q2Qc 0.
Proof.
  unfold iteration. cbv zeta.
  set (m1 := call_mult A Bd BAd (mach st)).
  set (rTAd := blas_dot BrT BAd m1).
  unfold c_assert. destruct (ndebug || negb (IsZero rTAd)) eqn:Has; [|done].
  cbn [mbind Outcome_bind].
  destruct (decide (rTAd = Q2Qc 0)) as [H0|Hn].
  - intros _. split; [|done]. rewrite H0 in Has.
    by destruct ndebug; [|vm_compute in Has].
  - rewrite (quotient_defined _ rTAd) by done. cbn [mbind Outcome_bind].
    intros Hu. by apply after_alpha_defined in Hu.
Qed.

End ExactQuotients.

(** X10: in exact arithmetic a call stops at an undefined quotient only
    where assertions are compiled out, and only at [rTh/rTAd] of line 148
    with [rTAd = 0]: every other quotient ([st/tt], [alpha/omega], [../rTh])
    is taken after [IsZero] let its divisor pass, and with assertions
    enabled line 147 stops the call before line 148. *)
Theorem undefined_quotient_is_rTAd {V M : Type}
    `{!VectorOps Qc V, !MatrixOps V M, !Inhabited V}
    (ndebug : bool) (cfg : Config Qc) (A : M) (b x : V) :
  solve ndebug cfg A b x = DivisionUndefined →
  ndebug = true ∧
  ∃ st, at_loop_condition ndebug cfg A b x st ∧
    blas_dot BrT BAd (call_mult A Bd BAd (mach st)) = Q2Qc 0.
Proof.
  intros Hsolve.
  destruct (solve_rejected_or_valid ndebug cfg A b x)
    as [Hrej | (Hb & Hx & Hpos)]; [congruence|].
  unfold solve in Hsolve.
  rewrite (solve_variant_valid ndebug Bh true cfg A b x Hb Hx Hpos) in Hsolve.
  destruct (initialise ndebug Bh cfg A (uint (A_dimension A)) (at_entry b x))
    as [[err st0]| | |] eqn:Hinit; cbn [mbind Outcome_bind] in Hsolve;
    try done.
  - pose proof (at_first ndebug cfg A b x err st0 Hb Hx Hpos Hinit) as Hat.
    apply initialise_Returned in Hinit as (-> & _); [|by left].
    destruct (loop _ _ _ _ _ _ _ _) eqn:Hloop in Hsolve; try done.
    apply (loop_undefined ndebug cfg A b x) in Hloop
      as (st1 & Hat1 & _ & [Hn H0]%iteration_undefined); [|done].
    split; [done|]. by exists st1.
  - unfold initialise in Hinit. cbv zeta in Hinit. unfold c_assert in Hinit.
    by destruct (ndebug || _) in Hinit.
Qed.

Lemma undefined_quotient_is_rTAd_witness :
  solve true cfg_default A_turn b_turn x_turn = DivisionUndefined ∧
  true = true ∧
  ∃ st, at_loop_condition true cfg_default A_turn b_turn x_turn st ∧
    blas_dot BrT BAd (call_mult A_turn Bd BAd (mach st)) = Q2Qc 0.
Proof.
  assert (solve true cfg_default A_turn b_turn x_turn = DivisionUndefined)
    as Hs by (vm_compute; reflexivity).
  exact (conj Hs (undefined_quotient_is_rTAd true cfg_default A_turn b_turn
                    x_turn Hs)).
Defined.

(** ** Binary64: NaN and the comparisons of lines 143 and 180 *)

Lemma SFcompare_refl (x : spec_float) :
  x ≠ S754_nan → SFcompare x x = Some Eq.
Proof.
  destruct x as [[]|[]| |[] m e]; try done; intros _; simpl;
    by rewrite Z.compare_refl, Pos.compare_cont_refl.
Qed.

Lemma SFcompare_antisym (x y : spec_float) (c : comparison) :
  SFcompare x y = Some c → SFcompare y x = Some (CompOpp c).
Proof.
  destruct x as [[]|[]| |[] m1 e1], y as [[]|[]| |[] m2 e2]; simpl;
    try done; try (by intros [= <-]).
  - intros [= <-]. rewrite (Z.compare_antisym e1 e2).
    destruct (e1 ?= e2); simpl; try done.
    by rewrite (Pos.compare_cont_antisym m1 m2 Eq).
  - intros [= <-]. rewrite (Z.compare_antisym e1 e2).
    destruct (e1 ?= e2); simpl; try done.
    rewrite (Pos.compare_cont_antisym m1 m2 Eq). simpl.
    by destruct (Pos.compare_cont Eq m2 m1).
Qed.

Lemma is_nan_Prim2SF (f : float) :
  PrimFloat.is_nan f = true ↔ Prim2SF f = S754_nan.
Proof.
  unfold PrimFloat.is_nan. rewrite FloatAxioms.eqb_spec. unfold SFeqb. split.
  - intros H. destruct (Prim2SF f) eqn:E; try done;
      by rewrite SFcompare_refl in H.
  - by intros ->.
Qed.

Lemma leb_nan (f g : float) :
  PrimFloat.is_nan f = true ∨ PrimFloat.is_nan g = true →
  PrimFloat.leb f g = false.
Proof.
  rewrite FloatAxioms.leb_spec, !is_nan_Prim2SF. unfold SFleb.
  intros [-> | ->]; [done|]. by destruct (Prim2SF f).
Qed.

Lemma ltb_nan (f g : float) :
  PrimFloat.is_nan f = true ∨ PrimFloat.is_nan g = true →
  PrimFloat.ltb f g = false.
Proof.
  rewrite FloatAxioms.ltb_spec, !is_nan_Prim2SF. unfold SFltb.
  intros [-> | ->]; [done|]. by destruct (Prim2SF f).
Qed.

(** Two numbers are ordered unless one of them is a NaN. *)
Lemma leb_false_ltb (f g : float) :
  PrimFloat.leb f g = false →
  PrimFloat.ltb g f = true ∨
  PrimFloat.is_nan f = true ∨ PrimFloat.is_nan g = true.
Proof.
  rewrite FloatAxioms.leb_spec, FloatAxioms.ltb_spec, !is_nan_Prim2SF.
  unfold SFleb, SFltb.
  destruct (SFcompare (Prim2SF f) (Prim2SF g)) as [c|] eqn:Hc.
  - apply SFcompare_antisym in Hc. rewrite Hc. destruct c; try done. by left.
  - intros _. right.
    destruct (Prim2SF f) as [[]|[]| |[] m1 e1],
             (Prim2SF g) as [[]|[]| |[] m2 e2]; try done;
      (by left) || (by right).
Qed.

(** Squares, and sums and products of numbers whose sign bit is clear, have
    a clear sign bit or are NaNs. *)
Lemma binary_round_aux_clear (mx ex : Z) (lx : location) :
  sign_clear (binary_round_aux prec emax false mx ex lx) = true.
Proof.
  unfold binary_round_aux.
  destruct (shr_fexp prec emax mx ex lx) as [mrs' e'].
  destruct (shr_fexp prec emax _ e' loc_Exact) as [mrs'' e''].
  destruct (shr_m mrs''); [done| |done].
  by destruct (e'' <=? emax - prec).
Qed.

Lemma SFmul_clear (x y : spec_float) :
  sign_clear x = true → sign_clear y = true →
  sign_clear (SFmul prec emax x y) = true.
Proof.
  destruct x as [[]|[]| |[] m1 e1], y as [[]|[]| |[] m2 e2]; try done.
  intros _ _. apply binary_round_aux_clear.
Qed.

Lemma SFmul_square_clear (x : spec_float) :
  sign_clear (SFmul prec emax x x) = true.
Proof.
  destruct x as [[]|[]| |[] m e]; try done; apply binary_round_aux_clear.
Qed.

Lemma SFadd_clear (x y : spec_float) :
  sign_clear x = true → sign_clear y = true →
  sign_clear (SFadd prec emax x y) = true.
Proof.
  destruct x as [[]|[]| |[] m1 e1], y as [[]|[]| |[] m2 e2]; try done.
  intros _ _. unfold SFadd, cond_Zopp.
  set (p1 := (shl_align m1 e1 (e1 `min` e2)).1).
  set (p2 := (shl_align m2 e2 (e1 `min` e2)).1).
  change (Z.pos p1 + Z.pos p2) with (Z.pos (p1 + p2)).
  clearbody p1 p2. unfold binary_normalize, binary_round.
  destruct (shl_align _ _ _) as [mz ez]. apply binary_round_aux_clear.
Qed.

Lemma dense_dot_square_clear (b : list float) :
  sign_clear (Prim2SF (dense_dot b b)) = true.
Proof.
  unfold dense_dot.
  assert (∀ acc : float, sign_clear (Prim2SF acc) = true →
    sign_clear (Prim2SF (foldl (λ acc p, cadd acc (cmul p.1 p.2)) acc
                           (zip b b))) = true) as Hfold.
  { induction b as [|c b IH]; intros acc Hacc; [done|].
    cbn [zip zip_with foldl]. apply IH.
    change (sign_clear (Prim2SF (acc + c * c)%float) = true).
    rewrite add_spec, mul_spec.
    apply SFadd_clear; [done|apply SFmul_square_clear]. }
  by apply Hfold.
Qed.

(** [err = epsilon_*epsilon_*dot(b,b)] is never negative in binary64. *)
Lemma err_clear (eps : float) (b : list float) :
  sign_clear (Prim2SF (eps * eps * dense_dot b b)%float) = true.
Proof.
  rewrite !mul_spec.
  apply SFmul_clear; [apply SFmul_square_clear|].
  apply dense_dot_square_clear.
Qed.

Lemma ltb_clear_zero (f : float) :
  sign_clear (Prim2SF f) = true → PrimFloat.ltb f 0 = false.
Proof.
  rewrite FloatAxioms.ltb_spec. change (Prim2SF 0) with (S754_zero false).
  by destruct (Prim2SF f) as [[]|[]| |[] m e].
Qed.

Lemma leb_zero_clear (f : float) :
  sign_clear (Prim2SF f) = true →
  PrimFloat.leb 0 f = negb (PrimFloat.is_nan f).
Proof.
  intros Hf. rewrite FloatAxioms.leb_spec.
  change (Prim2SF 0) with (S754_zero false).
  destruct (PrimFloat.is_nan f) eqn:Hn.
  - apply is_nan_Prim2SF in Hn. by rewrite Hn.
  - destruct (Prim2SF f) as [[]|[]| |[] m e] eqn:E; try done.
    assert (PrimFloat.is_nan f = true) by (by apply is_nan_Prim2SF).
    congruence.
Qed.

Lemma is_zero_cases (f : float) :
  PrimFloat.is_zero f = true → f = 0%float ∨ f = (-0)%float.
Proof.
  unfold PrimFloat.is_zero. rewrite FloatAxioms.eqb_spec.
  change (Prim2SF zero) with (S754_zero false).
  destruct (Prim2SF f) as [[]|[]| |[] m e] eqn:E; try done; intros _.
  - right. by apply Prim2SF_inj.
  - left. by apply Prim2SF_inj.
Qed.

(** The squared norm of a vector of zeros, of either sign, is [+0]. *)
Lemma dense_dot_zeros (r : list float) :
  forallb PrimFloat.is_zero r = true → dense_dot r r = 0%float.
Proof.
  unfold dense_dot. induction r as [|c r IH]; [done|].
  intros [Hc Hr]%andb_prop. cbn [zip zip_with foldl].
  apply is_zero_cases in Hc as [-> | ->]; by apply IH.
Qed.

(** ** A first residual that is zero *)

(** For every scalar type: when the squared norm of the first residual, as
    lines 131-141 compute it, is near zero and not above [err], the assertion
    of line 138 fails; and with [NDEBUG] the loop is not entered. *)
Lemma near_zero_at_entry {T V M : Type}
    `{!CoeffOps T, !VectorOps T V, !MatrixOps V M, !Inhabited V}
    (cfg : Config T) (A : M) (b x : V) :
  let r0 := axpy (copp c1) b (mult A x) in
  let err := cmul (cmul (epsilon_ cfg) (epsilon_ cfg)) (dot b b) in
  A_dimension A = dimension b →
  A_dimension A = dimension x →
  0 < A_dimension A →
  IsZero (dot r0 r0) = true →
  clt err (dot r0 r0) = false →
  solve false cfg A b x = AssertionFailed ∧
  ∃ e, solve true cfg A b x = Returned e ∧
    success e = cle (dot r0 r0) err ∧ its_of e = Some 0 ∧ x_of e = x ∧
    mult_calls (final e) = 1%nat.
Proof.
  intros r0 err Hb Hx Hpos Hz Hlt.
  set (n := uint (A_dimension A)).
  set (max_iter := effective_max_iter cfg n).
  assert (∀ ndebug, ∃ m, (vec m Bx = x ∧ mult_calls m = 1%nat) ∧
    initialise ndebug Bh cfg A n (at_entry b x) =
    (_ ← c_assert ndebug (negb (IsZero (dot r0 r0)));
     Returned (err, {| mach := m; rTh := dot r0 r0; rTr := dot r0 r0;
                       omega := None; its := 0 |}))) as Hinit.
  { intros ndebug. eexists. split; last first.
    - unfold initialise. reflexivity.
    - split; reflexivity. }
  unfold solve. rewrite !solve_variant_valid by done. fold n max_iter.
  split.
  - destruct (Hinit false) as (m & _ & ->). by rewrite Hz.
  - destruct (Hinit true) as (m & [Hm Hcalls] & ->).
    change (c_assert true (negb (IsZero (dot r0 r0)))) with (Returned ()).
    cbn [mbind Outcome_bind].
    set (st0 := {| mach := m; rTh := dot r0 r0; rTr := dot r0 r0;
                   omega := None; its := 0 |}).
    assert (∀ fuel, loop true Bh true A err max_iter fuel st0 = Returned st0)
      as Hloop.
    { intros [|fuel]; cbn [loop]; unfold loop_condition;
        cbn [rTr its st0]; by rewrite Hlt. }
    rewrite Hloop. cbn [mbind Outcome_bind].
    eexists. split; [reflexivity|]. by split_and!.
Qed.

(** In binary64, for a first residual made of zeros. *)
Lemma binary64_zero_residual (cfg : Config float) (A : list (list float))
    (b x : list float) :
  length b = length A →
  length x = length A →
  (0 < length A)%nat →
  forallb PrimFloat.is_zero (axpy (copp c1) b (mult A x)) = true →
  solve false cfg A b x = AssertionFailed ∧
  ∃ e, solve true cfg A b x = Returned e ∧
    success e
      = negb (PrimFloat.is_nan (epsilon_ cfg * epsilon_ cfg * dot b b)) ∧
    its_of e = Some 0 ∧ x_of e = x ∧ mult_calls (final e) = 1%nat.
Proof.
  intros Hb Hx Hpos Hzero.
  pose proof (dense_dot_zeros _ Hzero) as Hdot.
  pose proof (err_clear (epsilon_ cfg) b) as Herr.
  destruct (near_zero_at_entry cfg A b x) as (Hfail & e & He & Hs & Hrest).
  - simpl. lia.
  - simpl. lia.
  - simpl. lia.
  - change (dot (axpy (copp c1) b (mult A x)) (axpy (copp c1) b (mult A x)))
      with (dense_dot (axpy (copp c1) b (mult A x))
              (axpy (copp c1) b (mult A x))).
    rewrite Hdot. vm_compute. reflexivity.
  - change (PrimFloat.ltb (epsilon_ cfg * epsilon_ cfg * dense_dot b b)
              (dense_dot (axpy (copp c1) b (mult A x))
                 (axpy (copp c1) b (mult A x))) = false).
    rewrite Hdot. by apply ltb_clear_zero.
  - split; [exact Hfail|]. exists e. split; [exact He|]. split; [|exact Hrest].
    rewrite Hs.
    change (PrimFloat.leb (dense_dot (axpy (copp c1) b (mult A x))
                             (axpy (copp c1) b (mult A x)))
              (epsilon_ cfg * epsilon_ cfg * dense_dot b b)
            = negb (PrimFloat.is_nan
                      (epsilon_ cfg * epsilon_ cfg * dense_dot b b))).
    rewrite Hdot. by apply leb_zero_clear.
Qed.

(** C7, as the code has it.  For an input whose first residual is zero
    ([A*x0 = b] in exact arithmetic; in binary64 a residual that lines
    131-132 compute as zeros): with assertions enabled the assertion of line
    138 fails and [solve] does not return; with [NDEBUG] the loop is not
    entered, [its] is 0, [mult] was called once, [x] is as it was, and
    [solve] returns [0 <= err]: true in exact arithmetic, and in binary64
    true unless [err] is a NaN. *)
Theorem zero_residual_returns_at_once :
  (∀ (cfg : Config Qc) (A : list (list Qc)) (b x : list Qc),
     length b = length A →
     length x = length A →
     (0 < length A)%nat →
     matvec A x = b →
     solve false cfg A b x = AssertionFailed ∧
     ∃ e, solve true cfg A b x = Returned e ∧
       success e = true ∧ its_of e = Some 0 ∧ x_of e = x ∧
       mult_calls (final e) = 1%nat) ∧
  (∀ (cfg : Config float) (A : list (list float)) (b x : list float),
     length b = length A →
     length x = length A →
     (0 < length A)%nat →
     forallb PrimFloat.is_zero (axpy (copp c1) b (mult A x)) = true →
     solve false cfg A b x = AssertionFailed ∧
     ∃ e, solve true cfg A b x = Returned e ∧
       success e
         = negb (PrimFloat.is_nan (epsilon_ cfg * epsilon_ cfg * dot b b)) ∧
       its_of e = Some 0 ∧ x_of e = x ∧ mult_calls (final e) = 1%nat).
Proof.
  split.
  - intros cfg A b x. apply exact_zero_residual.
  - intros cfg A b x. apply binary64_zero_residual.
Qed.

(** Scenario 4 of the specification, A the identity and x0 = b, in exact
    arithmetic and in binary64. *)
Lemma zero_residual_returns_at_once_witness :
  (solve false cfg_default A_scenario4 b_scenario4 b_scenario4
     = AssertionFailed ∧
   ∃ e, solve true cfg_default A_scenario4 b_scenario4 b_scenario4
          = Returned e ∧
     success e = true ∧ its_of e = Some 0 ∧ x_of e = b_scenario4 ∧
     mult_calls (final e) = 1%nat) ∧
  (solve false cfg_default_double A_scenario4_double b_scenario4_double
     b_scenario4_double = AssertionFailed ∧
   ∃ e, solve true cfg_default_double A_scenario4_double b_scenario4_double
          b_scenario4_double = Returned e ∧
     success e
       = negb (PrimFloat.is_nan
                 (epsilon_ cfg_default_double * epsilon_ cfg_default_double
                  * dot b_scenario4_double b_scenario4_double)) ∧
     its_of e = Some 0 ∧ x_of e = b_scenario4_double ∧
     mult_calls (final e) = 1%nat).
Proof.
  split.
  - apply (proj1 zero_residual_returns_at_once cfg_default A_scenario4
             b_scenario4 b_scenario4).
    + reflexivity.
    + reflexivity.
    + vm_compute. lia.
    + vm_compute. reflexivity.
  - apply (proj2 zero_residual_returns_at_once cfg_default_double
             A_scenario4_double b_scenario4_double b_scenario4_double).
    + reflexivity.
    + reflexivity.
    + vm_compute. lia.
    + vm_compute. reflexivity.
Defined.

(** C7 as stated fails, in two ways.  Where assertions are enabled: in
    scenario 4 of the specification the first residual is zero, the assertion
    of line 138 fails and [solve] does not return, in exact arithmetic and in
    binary64.  In binary64 where they are compiled out: for b = 0, x0 = 0 and
    a tolerance of 1e200, [epsilon_*epsilon_] is infinite, [err] is
    [inf * 0], a NaN, and [solve] returns false, with [its = 0] and [x]
    unchanged. *)
Lemma zero_residual_fails_assertion :
  matvec A_scenario4 b_scenario4 = b_scenario4 ∧
  solve false cfg_default A_scenario4 b_scenario4 b_scenario4
    = AssertionFailed ∧
  solve false cfg_default_double A_scenario4_double b_scenario4_double
    b_scenario4_double = AssertionFailed ∧
  (∃ e r, solve true cfg_huge_epsilon A_scenario4_double zeros2_double
            zeros2_double = Returned e ∧
     trace e = Some r ∧ PrimFloat.is_nan (rep_err r) = true ∧
     success e = false ∧ rep_its r = 0 ∧ x_of e = zeros2_double).
Proof.
  split_and!; try (vm_compute; reflexivity).
  eexists _, _. split; [vm_compute; reflexivity|].
  split; [reflexivity|]. split; [vm_compute; reflexivity|].
  split; [reflexivity|]. split; reflexivity.
Qed.

(** X11: in binary64 a NaN is never a success: a call whose last [rTr] or
    whose [err] is a NaN returns false, since [rTr <= err] is then false; and
    when [err] is a NaN (a NaN in [epsilon_] or in [b]) the loop condition
    [rTr > err] is false at once, so that no iteration is run. *)
Theorem nan_is_never_success {V M : Type}
    `{!VectorOps float V, !MatrixOps V M, !Inhabited V}
    (ndebug : bool) (cfg : Config float) (A : M) (b x : V)
    (e : Exit float V) (r : Report float) :
  solve ndebug cfg A b x = Returned e →
  trace e = Some r →
  PrimFloat.is_nan (rep_rTr r) = true ∨ PrimFloat.is_nan (rep_err r) = true →
  success e = false ∧
  (PrimFloat.is_nan (rep_err r) = true →
   rep_its r = 0 ∧ mult_calls (final e) = 1%nat ∧ x_of e = x).
Proof.
  intros Hsolve Htrace Hnan.
  destruct (solve_rejected_or_valid ndebug cfg A b x)
    as [Hrej | (Hb & Hx & Hpos)].
  { rewrite Hrej in Hsolve. by inversion Hsolve; subst. }
  apply solve_variant_Returned in Hsolve
    as (err & st0 & st & Hinit & Hloop & ->); [|done..].
  injection Htrace as <-.
  cbn [finish success final rep_rTr rep_err rep_its] in *.
  split; [by apply leb_nan|].
  intros Herr.
  pose proof (initialise_calls ndebug cfg A b x _ _ _ Hinit) as Hcalls.
  apply initialise_Returned in Hinit
    as (_ & Hits & _ & _ & _ & Hx0 & _); [|by left..].
  assert (st = st0) as ->; [|done].
  assert (loop_condition err
            (effective_max_iter cfg (uint (A_dimension A))) st0 = false)
    as Hc.
  { unfold loop_condition.
    change (clt err (rTr st0)) with (PrimFloat.ltb err (rTr st0)).
    rewrite ltb_nan; [done|by left]. }
  destruct (Z.to_nat _) in Hloop; cbn [loop] in Hloop; rewrite Hc in Hloop;
    by injection Hloop.
Qed.

Lemma nan_is_never_success_witness :
  ∃ e r, solve false (set_epsilon nan cfg_default_double) A_far b_far x_far
           = Returned e ∧
    trace e = Some r ∧
    PrimFloat.is_nan (rep_err r) = true ∧
    success e = false ∧
    (PrimFloat.is_nan (rep_err r) = true →
     rep_its r = 0 ∧ mult_calls (final e) = 1%nat ∧ x_of e = x_far).
Proof.
  assert (∃ e r, solve false (set_epsilon nan cfg_default_double) A_far b_far
                   x_far = Returned e ∧ trace e = Some r ∧
                 PrimFloat.is_nan (rep_err r) = true)
    as (e & r & He & Hr & Hn).
  { eexists _, _. split; [vm_compute; reflexivity|].
    split; [reflexivity|vm_compute; reflexivity]. }
  exists e, r.
  exact (conj He (conj Hr (conj Hn
           (nan_is_never_success false (set_epsilon nan cfg_default_double)
              A_far b_far x_far e r He Hr (or_intror Hn))))).
Defined.

(** X12: in binary64, a call that wrote its diagnostic line and returns
    false has used up its iterations, or left the loop at a [break], or ended
    with a NaN in [rTr] or [err]: the line tells which. *)
Theorem false_is_cap_breakdown_or_nan {V M : Type}
    `{!VectorOps float V, !MatrixOps V M, !Inhabited V}
    (ndebug : bool) (cfg : Config float) (A : M) (b x : V)
    (e : Exit float V) (r : Report float) :
  solve ndebug cfg A b x = Returned e →
  trace e = Some r →
  success e = false →
  rep_its r = rep_max_iter r ∨
  (∃ w, rep_omega r = Some w ∧ IsZero w || IsZero (rep_rTh r) = true) ∨
  PrimFloat.is_nan (rep_rTr r) = true ∨ PrimFloat.is_nan (rep_err r) = true.
Proof.
  intros Hsolve Htrace Hfalse.
  destruct (solve_rejected_or_valid ndebug cfg A b x)
    as [Hrej | (Hb & Hx & Hpos)].
  { rewrite Hrej in Hsolve. by inversion Hsolve; subst. }
  destruct (solve_exit_cases ndebug cfg A b x Hb Hx Hpos e Hsolve)
    as (r' & Ht & _ & _ & Hs & _ & _ & Hi & [(_ & _ & Hc) | (_ & _ & Hw)]);
    rewrite Htrace in Ht; injection Ht as <-; [|by right; left].
  rewrite Hfalse in Hs. symmetry in Hs.
  apply leb_false_ltb in Hs as [Hlt | Hnan]; [|by right; right].
  left. change (clt (rep_err r) (rep_rTr r)) with
    (PrimFloat.ltb (rep_err r) (rep_rTr r)) in Hc.
  rewrite Hlt in Hc. simpl in Hc. apply Z.ltb_ge in Hc. lia.
Qed.

Lemma false_is_cap_breakdown_or_nan_witness :
  ∃ e r, solve true cfg_default_double A_turn_double b_turn_double
           x_turn_double = Returned e ∧
    trace e = Some r ∧ success e = false ∧
    rep_its r = 1 ∧ rep_max_iter r = 20 ∧
    PrimFloat.is_nan (rep_rTr r) = true ∧
    (rep_its r = rep_max_iter r ∨
     (∃ w, rep_omega r = Some w ∧ IsZero w || IsZero (rep_rTh r) = true) ∨
     PrimFloat.is_nan (rep_rTr r) = true ∨
     PrimFloat.is_nan (rep_err r) = true).
Proof.
  assert (∃ e r, solve true cfg_default_double A_turn_double b_turn_double
                   x_turn_double = Returned e ∧ trace e = Some r ∧
                 success e = false ∧ rep_its r = 1 ∧ rep_max_iter r = 20 ∧
                 PrimFloat.is_nan (rep_rTr r) = true)
    as (e & r & He & Hr & Hs & Hi & Hm & Hn).
  { eexists _, _. split; [vm_compute; reflexivity|].
    split; [reflexivity|]. split; [reflexivity|]. split; [reflexivity|].
    split; [reflexivity|vm_compute; reflexivity]. }
  exists e, r.
  exact (conj He (conj Hr (conj Hs (conj Hi (conj Hm (conj Hn
           (false_is_cap_breakdown_or_nan true cfg_default_double
              A_turn_double b_turn_double x_turn_double e r He Hr Hs))))))).
Defined.

(** ** [IsZero] *)

(** X13: in binary64 only finite numbers are near zero: [IsZero] is false
    for a NaN and for an infinity, which therefore pass the guards of lines
    138, 147, 157, 167 and 169. *)
Theorem near_zero_is_finite (f : float) :
  IsZero f = true → PrimFloat.is_finite f = true.
Proof.
  unfold IsZero.
  change (PrimFloat.ltb (PrimFloat.abs f) (10 * 0x1p-1022)%float = true →
          PrimFloat.is_finite f = true).
  rewrite FloatAxioms.ltb_spec, FloatAxioms.abs_spec.
  assert (∃ m e, Prim2SF (10 * 0x1p-1022)%float = S754_finite false m e)
    as (m & e & ->) by (eexists _, _; vm_compute; reflexivity).
  unfold PrimFloat.is_finite, PrimFloat.is_infinity.
  rewrite FloatAxioms.eqb_spec, FloatAxioms.abs_spec.
  change (Prim2SF infinity) with (S754_infinity false).
  destruct (PrimFloat.is_nan f) eqn:Hn.
  { apply is_nan_Prim2SF in Hn as ->. done. }
  by destruct (Prim2SF f) as [[]|[]| |[] m' e'].
Qed.

Lemma near_zero_is_finite_witness :
  IsZero 0x1p-1020%float = true ∧ PrimFloat.is_finite 0x1p-1020%float = true.
Proof.
  assert (IsZero 0x1p-1020%float = true) as Hz by (vm_compute; reflexivity).
  exact (conj Hz (near_zero_is_finite 0x1p-1020%float Hz)).
Defined.

Lemma Qc_opp_lt (p q : Qc) : (p < q → - q < - p)%Qc.
Proof.
  rewrite (Qclt_minus_iff p q), (Qclt_minus_iff (- q) (- p)).
  by replace (- p + - - q)%Qc with (q + - p)%Qc by ring.
Qed.

(** X14: in exact arithmetic [IsZero(a)] holds exactly for the numbers
    strictly between [-10*min] and [10*min], [min] being
    [numeric_limits<double>::min()]; in particular it is the same for [a] and
    [-a], and it holds for 0. *)
Theorem IsZero_exact_threshold (a : Qc) :
  (IsZero a = true ↔
   (- (Q2Qc 10 * DBL_MIN_Qc) < a ∧ a < Q2Qc 10 * DBL_MIN_Qc)%Qc) ∧
  IsZero (- a)%Qc = IsZero a.
Proof.
  assert (∀ c : Qc, IsZero c = true ↔
            (- (Q2Qc 10 * DBL_MIN_Qc) < c ∧ c < Q2Qc 10 * DBL_MIN_Qc)%Qc)
    as Hband.
  { intros c. unfold IsZero.
    change (Qc_ltb (Qc_abs c) (Q2Qc 10 * DBL_MIN_Qc) = true ↔
            (- (Q2Qc 10 * DBL_MIN_Qc) < c ∧ c < Q2Qc 10 * DBL_MIN_Qc)%Qc).
    set (t := (Q2Qc 10 * DBL_MIN_Qc)%Qc).
    assert (0 < t)%Qc as Ht by (apply Qc_ltb_lt; vm_compute; reflexivity).
    rewrite Qc_ltb_lt. unfold Qc_abs.
    destruct (Qc_ltb c (Q2Qc 0)) eqn:Hneg.
    - apply Qc_ltb_lt in Hneg. split.
      + intros Hlt. split.
        * apply Qc_opp_lt in Hlt. by rewrite Qcopp_involutive in Hlt.
        * by transitivity (Q2Qc 0).
      + intros [Hlt _]. apply Qc_opp_lt in Hlt.
        by rewrite Qcopp_involutive in Hlt.
    - assert (0 <= c)%Qc as Hpos.
      { apply Qcnot_lt_le. intros H%Qc_ltb_lt. congruence. }
      split; [|by intros [_ ?]]. intros Hlt. split; [|done].
      apply Qclt_le_trans with (Q2Qc 0); [|done].
      apply Qc_opp_lt in Ht. exact Ht. }
  split; [apply Hband|].
  destruct (IsZero a) eqn:Ha.
  - apply Hband in Ha as [Hl Hu]. apply Hband. split.
    + by apply Qc_opp_lt.
    + apply Qc_opp_lt in Hl. by rewrite Qcopp_involutive in Hl.
  - destruct (IsZero (- a)%Qc) eqn:Hn; [|done].
    apply Hband in Hn as [Hl Hu]. rewrite <-Ha. symmetry. apply Hband. split.
    + apply Qc_opp_lt in Hu. by rewrite Qcopp_involutive in Hu.
    + apply Qc_opp_lt in Hl. by rewrite !Qcopp_involutive in Hl.
Qed.

(** ** The tolerance *)

(** [solve] reads [epsilon_] in the product [epsilon_*epsilon_] of line 128
    only. *)
Lemma solve_epsilon_square {T V M : Type}
    `{!CoeffOps T, !VectorOps T V, !MatrixOps V M, !Inhabited V}
    (ndebug : bool) (cfg cfg' : Config T) (A : M) (b x : V) :
  cmul (epsilon_ cfg) (epsilon_ cfg) = cmul (epsilon_ cfg') (epsilon_ cfg') →
  max_iter_ cfg = max_iter_ cfg' →
  solve ndebug cfg A b x = solve ndebug cfg' A b x.
Proof.
  intros Heps Hmax. unfold solve, solve_variant, initialise, effective_max_iter.
  cbv zeta. by rewrite Heps, Hmax.
Qed.

Lemma mul_opp_opp (f : float) : (- f * - f = f * f)%float.
Proof.
  apply Prim2SF_inj. rewrite !FloatAxioms.mul_spec, !FloatAxioms.opp_spec.
  destruct (Prim2SF f) as [[]|[]| |[] m e]; reflexivity.
Qed.

(** X15: [set_epsilon] accepts any number, and the sign of the tolerance is
    of no effect: after [set_epsilon(-eps)] every call does what it does
    after [set_epsilon(eps)], in exact arithmetic and in binary64. *)
Theorem epsilon_sign_is_irrelevant {V M V' M' : Type}
    `{!VectorOps Qc V, !MatrixOps V M, !Inhabited V}
    `{!VectorOps float V', !MatrixOps V' M', !Inhabited V'}
    (ndebug : bool)
    (eps : Qc) (cfg : Config Qc) (A : M) (b x : V)
    (eps' : float) (cfg' : Config float) (A' : M') (b' x' : V') :
  solve ndebug (set_epsilon (- eps)%Qc cfg) A b x
    = solve ndebug (set_epsilon eps cfg) A b x ∧
  solve ndebug (set_epsilon (- eps')%float cfg') A' b' x'
    = solve ndebug (set_epsilon eps' cfg') A' b' x'.
Proof.
  split; apply solve_epsilon_square; try reflexivity.
  - simpl. ring.
  - apply mul_opp_opp.
Qed.

(** ** The dimension of the vectors *)

Section Dimensions.
Context {T V M : Type} `{!CoeffOps T, !VectorOps T V, !MatrixOps V M, !Inhabited V}.
Variable ndebug : bool.
Variable cfg : Config T.
Variable A : M.
Variables b x : V.

(** Every operation keeps the dimension of the vector it writes. *)
Hypothesis dimension_axpy : ∀ (a : T) (u v : V),
  dimension u = dimension v → dimension (axpy a u v) = dimension v.
Hypothesis dimension_scal : ∀ (a : T) (v : V),
  dimension (scal a v) = dimension v.
Hypothesis dimension_mult : ∀ v : V, dimension (mult A v) = A_dimension A.

(** An iteration keeps the dimension of [x], [d], [h] and [r]. *)
Lemma iteration_dimensions (st : LoopState T V) (c : Control (LoopState T V)) :
  (∀ v, v ∈ [Bx; Bd; Bh; Br] → dimension (vec (mach st) v) = A_dimension A) →
  iteration ndebug Bh true A st = Returned c →
  ∀ v, v ∈ [Bx; Bd; Bh; Br] →
    dimension (vec (mach (state_of c)) v) = A_dimension A.
Proof.
  intros Hst Hit.
  assert (dimension (vec (mach st) Bx) = A_dimension A) as Hx
    by (apply Hst; repeat constructor).
  assert (dimension (vec (mach st) Bd) = A_dimension A) as Hd
    by (apply Hst; repeat constructor).
  assert (dimension (vec (mach st) Bh) = A_dimension A) as Hh
    by (apply Hst; repeat constructor).
  assert (dimension (vec (mach st) Br) = A_dimension A) as Hr
    by (apply Hst; repeat constructor).
  apply (iteration_Returned ndebug Bh true A) in Hit
    as (a & w & _ & _ & _ & Hc).
  destruct (step_vectors A a w st) as (Ex & Er & Eh & Ed & EAd & _).
  cbv zeta in Ex, Er, Eh, Ed, EAd.
  set (st1 := stabilise Bh a w _ st) in *.
  set (Ad := mult A (vec (mach st) Bd)) in *.
  set (s := axpy (copp a) Ad (vec (mach st) Bh)) in *.
  assert (dimension Ad = A_dimension A) as HAd by apply dimension_mult.
  assert (dimension s = A_dimension A) as Hs.
  { unfold s. rewrite dimension_axpy; congruence. }
  assert (dimension (mult A s) = A_dimension A) as Ht by apply dimension_mult.
  assert (dimension (vec (mach st1) Bx) = A_dimension A) as Hx1.
  { rewrite Ex. rewrite !dimension_axpy; try congruence.
    rewrite dimension_axpy; congruence. }
  assert (dimension (vec (mach st1) Br) = A_dimension A) as Hr1.
  { rewrite Er. rewrite !dimension_axpy; try congruence.
    rewrite dimension_axpy; congruence. }
  assert (dimension (vec (mach st1) Bh) = A_dimension A) as Hh1.
  { rewrite Eh. rewrite dimension_axpy; congruence. }
  assert (dimension (vec (mach st1) Bd) = A_dimension A) as Hd1
    by congruence.
  destruct Hc as [[-> _] | (st2 & -> & _ & _ & Hn)]; cbn [state_of].
  - intros v Hv. repeat (apply elem_of_cons in Hv as [-> | Hv]; [done|]).
    by apply elem_of_nil in Hv.
  - pose proof Hn as (_ & _ & _ & _ & Hv2)%next_direction_Returned.
    assert (dimension (vec (mach st2) Bd) = A_dimension A) as Hd2.
    { revert Hn. unfold next_direction.
      intros (q & _ & (beta & _ & [= <-])%bind_Returned)%bind_Returned.
      cbn [mach]. set (beta' := cmul beta _).
      change (dimension (axpy (cmul (copp beta') w) (vec (mach st1) BAd)
                (axpy c1 (vec (mach st1) Bh) (scal beta' (vec (mach st1) Bd))))
              = A_dimension A).
      rewrite EAd.
      rewrite dimension_axpy; rewrite dimension_axpy;
        rewrite ?dimension_scal; congruence. }
    intros v Hv. repeat (apply elem_of_cons in Hv as [-> | Hv];
      [first [exact Hd2 | by rewrite Hv2]|]).
    by apply elem_of_nil in Hv.
Qed.

(** [solve] returns [x] with the dimension it had. *)
Lemma solve_dimension (e : Exit T V) :
  solve ndebug cfg A b x = Returned e → dimension (x_of e) = dimension x.
Proof.
  intros Hsolve.
  destruct (solve_rejected_or_valid ndebug cfg A b x)
    as [Hrej | (Hb & Hx & Hpos)].
  { rewrite Hrej in Hsolve. by injection Hsolve as <-. }
  apply solve_variant_Returned in Hsolve
    as (err & st0 & st & Hinit & Hloop & ->); [|done..].
  apply initialise_Returned in Hinit
    as (_ & _ & _ & _ & _ & Hx0 & Hb0 & Hr0 & Hd0 & Hh0 & _); [|by left..].
  unfold x_of. cbn [finish final]. rewrite <-Hx.
  eapply (loop_invariant ndebug Bh true A
            (λ st, ∀ v, v ∈ [Bx; Bd; Bh; Br] →
                        dimension (vec (mach st) v) = A_dimension A));
    [ | |exact Hloop|repeat constructor].
  - intros st1 c Hst1 _ Hit. by eapply iteration_dimensions.
  - assert (dimension (vec (mach st0) Br) = A_dimension A) as Hr.
    { rewrite Hr0. rewrite dimension_axpy; rewrite dimension_mult; done. }
    intros v Hv. repeat (apply elem_of_cons in Hv as [-> | Hv];
      [congruence|]).
    by apply elem_of_nil in Hv.
Qed.

End Dimensions.

Section DenseDimensions.
Context {T : Type} `{!CoeffOps T}.

Lemma dense_axpy_length (a : T) (u v : list T) :
  dimension u = dimension v → dimension (axpy a u v) = dimension v.
Proof.
  simpl. intros Hlen%Nat2Z.inj. unfold dense_axpy.
  rewrite length_zip_with. f_equal. lia.
Qed.

Lemma dense_scal_length (a : T) (v : list T) :
  dimension (scal a v) = dimension v.
Proof. simpl. unfold dense_scal. by rewrite length_map. Qed.

Lemma dense_mult_length (A : list (list T)) (v : list T) :
  dimension (mult A v) = A_dimension A.
Proof. simpl. unfold dense_mult. by rewrite length_map. Qed.

End DenseDimensions.

(** X16: on dense vectors and matrices, for every scalar type (binary64
    included, whatever the rounding, NaN or infinity met on the way), a call
    that returns leaves an [x] of the dimension it was given. *)
Theorem x_keeps_dimension {T : Type} `{!CoeffOps T}
    (ndebug : bool) (cfg : Config T) (A : list (list T)) (b x : list T)
    (e : Exit T (list T)) :
  solve ndebug cfg A b x = Returned e → length (x_of e) = length x.
Proof.
  intros Hsolve. apply Nat2Z.inj.
  change (dimension (x_of e) = dimension x).
  apply (solve_dimension ndebug cfg A b x); [| | |done].
  - apply dense_axpy_length.
  - apply dense_scal_length.
  - apply dense_mult_length.
Qed.

Lemma x_keeps_dimension_witness :
  ∃ e, solve true cfg_default_double A_turn_double b_turn_double x_turn_double
         = Returned e ∧
    forallb PrimFloat.is_nan (x_of e) = true ∧
    length (x_of e) = length x_turn_double.
Proof.
  assert (∃ e, solve true cfg_default_double A_turn_double b_turn_double
                 x_turn_double = Returned e ∧
               forallb PrimFloat.is_nan (x_of e) = true) as (e & He & Hn).
  { eexists. split; vm_compute; reflexivity. }
  exists e.
  exact (conj He (conj Hn
           (x_keeps_dimension true cfg_default_double A_turn_double
              b_turn_double x_turn_double e He))).
Defined.

(** ** Exact dense runs *)

Section ExactDenseRuns.
Local Open Scope Qc_scope.
(** In exact arithmetic the [rTr] of the diagnostic line is the squared norm
    of the residual of the returned [x]. *)
Lemma solve_exit_norm2 (ndebug : bool) (cfg : Config Qc)
    (A : list (list Qc)) (b x : list Qc) (e : Exit Qc (list Qc))
    (r : Report Qc) :
  solve ndebug cfg A b x = Returned e →
  trace e = Some r →
  rep_rTr r = norm2 (residual A b (x_of e)) ∧
  rep_err r = epsilon_ cfg * epsilon_ cfg * norm2 b ∧
  success e = Qc_leb (rep_rTr r) (rep_err r).
Proof.
  intros Hsolve Htrace.
  destruct (solve_rejected_or_valid ndebug cfg A b x)
    as [Hrej | (Hb & Hx & Hpos)].
  { rewrite Hrej in Hsolve. by inversion Hsolve; subst. }
  destruct (solve_variant_exit ndebug Bh true cfg A b x (or_introl eq_refl)
              Hb Hx Hpos e Hsolve) as (r' & Ht & Hs & _ & He & Hr & _).
  rewrite Htrace in Ht. injection Ht as <-.
  rewrite (solve_residual ndebug cfg A b x) in Hr; try done.
  - rewrite dense_residual in Hr. split_and!; [|  |done].
    + rewrite Hr. apply dense_dot_norm2.
    + rewrite He. f_equal. apply dense_dot_norm2.
  - apply dense_axpy_comm.
  - apply dense_mult_axpy.
  - apply dense_dimension_axpy.
  - apply dense_dimension_scal.
  - apply dense_dimension_mult.
Qed.


(** X17: in exact arithmetic, whatever the boolean and also after a
    [break], the vector [r] is at the return the true residual [A*x - b] of
    the returned [x], the [rTr] of the diagnostic line is its squared norm,
    and [err] is [eps^2 * |b|^2]. *)
Theorem reported_rTr_is_true_residual (ndebug : bool) (cfg : Config Qc)
    (A : list (list Qc)) (b x : list Qc) (e : Exit Qc (list Qc))
    (r : Report Qc) :
  solve ndebug cfg A b x = Returned e →
  trace e = Some r →
  vec (final e) Br = residual A b (x_of e) ∧
  rep_rTr r = norm2 (residual A b (x_of e)) ∧
  rep_err r = epsilon_ cfg * epsilon_ cfg * norm2 b ∧
  success e = Qc_leb (rep_rTr r) (rep_err r).
Proof.
  intros Hsolve Htrace. split; [|by apply (solve_exit_norm2 ndebug cfg A b x)].
  destruct (solve_rejected_or_valid ndebug cfg A b x)
    as [Hrej | (Hb & Hx & Hpos)].
  { rewrite Hrej in Hsolve. by inversion Hsolve; subst. }
  rewrite <-dense_residual.
  apply (solve_residual ndebug cfg A b x); try done.
  - apply dense_axpy_comm.
  - apply dense_mult_axpy.
  - apply dense_dimension_axpy.
  - apply dense_dimension_scal.
  - apply dense_dimension_mult.
Qed.

(** A valid call whose loop condition is false when first evaluated (the
    first residual is within the tolerance, or the cap is 0): the loop is not
    entered and lines 180-182 follow the initialisation. *)
Lemma loop_not_entered (ndebug : bool) (cfg : Config Qc)
    (A : list (list Qc)) (b x : list Qc) :
  length b = length A →
  length x = length A →
  (0 < length A)%nat →
  ndebug || negb (IsZero (norm2 (residual A b x))) = true →
  Qc_ltb (epsilon_ cfg * epsilon_ cfg * norm2 b) (norm2 (residual A b x))
    && (0 <? effective_max_iter cfg (uint (A_dimension A)))%Z = false →
  ∃ e, solve ndebug cfg A b x = Returned e ∧
    success e = Qc_leb (norm2 (residual A b x))
                       (epsilon_ cfg * epsilon_ cfg * norm2 b) ∧
    its_of e = Some 0%Z ∧ x_of e = x ∧ mult_calls (final e) = 1%nat.
Proof.
  intros Hb Hx Hpos Has Hcond.
  unfold solve. rewrite solve_variant_valid by (simpl; lia).
  destruct (initialise_unfold ndebug cfg A (uint (A_dimension A)) b x)
    as (m & [Hm Hcalls] & ->).
  apply c_assert_Returned with (u := ()) in Has. rewrite Has.
  cbn [mbind Outcome_bind].
  set (err := epsilon_ cfg * epsilon_ cfg * norm2 b) in *.
  set (rr := norm2 (residual A b x)) in *.
  set (st0 := {| mach := m; rTh := rr; rTr := rr; omega := None;
                 its := 0%Z |}).
  assert (∀ fuel, loop ndebug Bh true A err
            (effective_max_iter cfg (uint (A_dimension A))) fuel st0
          = Returned st0) as Hloop.
  { intros [|fuel]; cbn [loop]; unfold loop_condition;
      cbn [rTr its st0];
      change (clt err rr) with (Qc_ltb err rr); by rewrite Hcond. }
  rewrite Hloop. cbn [mbind Outcome_bind].
  eexists. split; [reflexivity|]. by split_and!.
Qed.

(** X18: in exact arithmetic, a first guess whose residual is already
    within the tolerance, [|A*x0 - b|^2 <= eps^2 * |b|^2], makes [solve]
    return true with [its = 0] and [x] unchanged after one call of [mult],
    provided the assertion of line 138 holds or is compiled out. *)
Theorem first_guess_within_tolerance (ndebug : bool) (cfg : Config Qc)
    (A : list (list Qc)) (b x : list Qc) :
  length b = length A →
  length x = length A →
  (0 < length A)%nat →
  norm2 (residual A b x) <= epsilon_ cfg * epsilon_ cfg * norm2 b →
  ndebug || negb (IsZero (norm2 (residual A b x))) = true →
  ∃ e, solve ndebug cfg A b x = Returned e ∧
    success e = true ∧ its_of e = Some 0%Z ∧ x_of e = x ∧
    mult_calls (final e) = 1%nat.
Proof.
  intros Hb Hx Hpos Htol Has.
  destruct (loop_not_entered ndebug cfg A b x Hb Hx Hpos Has)
    as (e & He & Hs & Hrest).
  - destruct (Qc_ltb _ _) eqn:Hlt; [|done].
    apply Qc_ltb_lt, Qclt_not_le in Hlt. by destruct Hlt.
  - exists e. split; [done|]. split; [|done].
    rewrite Hs. by apply Qc_leb_le.
Qed.

(** X19: in exact arithmetic, calling [solve] again from the [x] of a call
    that returned true (assertions compiled out, since the residual may be
    near zero) returns true at once: [its = 0], one call of [mult], and [x]
    unchanged. *)
Theorem solving_again_returns_at_once (ndebug : bool) (cfg : Config Qc)
    (A : list (list Qc)) (b x : list Qc) (e : Exit Qc (list Qc)) :
  solve ndebug cfg A b x = Returned e →
  success e = true →
  ∃ e', solve true cfg A b (x_of e) = Returned e' ∧
    success e' = true ∧ its_of e' = Some 0%Z ∧ x_of e' = x_of e ∧
    mult_calls (final e') = 1%nat.
Proof.
  intros Hsolve Hok.
  destruct (solve_rejected_or_valid ndebug cfg A b x)
    as [Hrej | (Hb & Hx & Hpos)].
  { rewrite Hrej in Hsolve. by inversion Hsolve; subst. }
  pose proof (solve_dimension ndebug cfg A b x dense_axpy_length
                dense_scal_length (dense_mult_length A) e Hsolve) as Hlen.
  change (Z.of_nat (length (x_of e)) = Z.of_nat (length x)) in Hlen.
  destruct (solve_variant_exit ndebug Bh true cfg A b x (or_introl eq_refl)
              Hb Hx Hpos e Hsolve) as (r & Ht & _).
  destruct (solve_exit_norm2 ndebug cfg A b x e r Hsolve Ht)
    as (Hr & He & Hs).
  simpl in Hb, Hx, Hpos.
  rewrite Hok, Hr, He in Hs. symmetry in Hs.
  destruct (loop_not_entered true cfg A b (x_of e))
    as (e' & He' & Hs' & Hrest); try lia; try done.
  - destruct (Qc_ltb _ _) eqn:Hlt; [|done].
    apply Qc_ltb_lt, Qclt_not_le in Hlt. destruct Hlt. by apply Qc_leb_le.
  - exists e'. split; [done|]. split; [|done]. by rewrite Hs'.
Qed.


(** Zero vectors, and a vector that [A] only scales. *)

Lemma sum_zeros_r (row : list Qc) (k : nat) :
  sum_Qc (zip_with Qcmult row (replicate k 0)) = 0.
Proof.
  revert k. induction row as [|c row IH]; intros [|k]; simpl; try done.
  rewrite IH. ring.
Qed.

Lemma dense_dot_zeros_r (row : list Qc) (k : nat) :
  dense_dot row (replicate k 0) = 0.
Proof. rewrite dense_dot_sum. apply sum_zeros_r. Qed.

Lemma dense_mult_zeros (A : list (list Qc)) (k : nat) :
  dense_mult A (replicate k 0) = replicate (length A) 0.
Proof.
  unfold dense_mult. induction A as [|row A IH]; simpl; [done|].
  by rewrite IH, dense_dot_zeros_r.
Qed.

Lemma dense_axpy_zeros (a : Qc) (k : nat) (v : list Qc) :
  length v = k → dense_axpy a (replicate k 0) v = v.
Proof.
  unfold dense_axpy. revert k. induction v as [|c v IH]; intros [|k] Hlen;
    simpl in *; try done.
  rewrite IH by congruence. f_equal. ring.
Qed.

Lemma dense_axpy_eigen (a c : Qc) (v : list Qc) :
  a * c = 1 → dense_axpy (- a) (map (Qcmult c) v) v = replicate (length v) 0.
Proof.
  intros Hac. unfold dense_axpy. induction v as [|d v IH]; simpl; [done|].
  f_equal; [|exact IH].
  replace (d + - a * (c * d)) with (d - (a * c) * d) by ring.
  rewrite Hac. ring.
Qed.

Lemma dense_dot_eigen (c : Qc) (v : list Qc) :
  dense_dot v (map (Qcmult c) v) = c * norm2 v.
Proof.
  rewrite dense_dot_sum. unfold norm2.
  induction v as [|d v IH]; simpl; [ring|]. rewrite IH. ring.
Qed.

Lemma zip_minus_zeros (u v : list Qc) :
  length u = length v →
  zip_with Qcminus u v = replicate (length u) 0 → u = v.
Proof.
  revert v. induction u as [|c u IH]; intros [|d v] Hlen; simpl in *;
    try done.
  intros H.
  assert (c - d = 0) as Hcd
    by exact (f_equal (λ l, default 0 (head l)) H).
  assert (zip_with Qcminus u v = replicate (length u) 0) as Hrest
    by exact (f_equal tail H).
  f_equal; [|apply IH; congruence].
  replace c with (c - d + d) by ring. rewrite Hcd. ring.
Qed.

Lemma residual_length (A : list (list Qc)) (b x : list Qc) :
  length b = length A → length (residual A b x) = length A.
Proof.
  intros Hb. unfold residual, matvec.
  rewrite length_zip_with, length_map. lia.
Qed.


(** X20: in exact arithmetic, when [A] only scales the first residual
    [r0 = A*x0 - b] ([A*r0 = c*r0] with [c] not 0: every system with
    [A = c*I], every system of one equation), and the loop is entered, the
    first iteration reaches the exact solution: [r] becomes 0, [omega] is set
    to 0, the loop is left at the [break] of line 168 and [solve] returns
    true with [its = 0], after three calls of [mult], with [A*x = b]. *)
Theorem eigen_residual_is_solved_in_one_step (ndebug : bool)
    (cfg : Config Qc) (A : list (list Qc)) (b x : list Qc) (c : Qc) :
  let r0 := residual A b x in
  let err := epsilon_ cfg * epsilon_ cfg * norm2 b in
  length b = length A →
  length x = length A →
  (0 < length A)%nat →
  (0 < effective_max_iter cfg (uint (A_dimension A)))%Z →
  matvec A r0 = map (Qcmult c) r0 →
  c ≠ 0 →
  err < norm2 r0 →
  ndebug || negb (IsZero (norm2 r0)) && negb (IsZero (c * norm2 r0)) = true →
  ∃ e, solve ndebug cfg A b x = Returned e ∧
    success e = true ∧ its_of e = Some 0%Z ∧
    mult_calls (final e) = 3%nat ∧
    matvec A (x_of e) = b.
Proof.
  intros r0 err Hb Hx Hpos Hmax Heig Hc Hent Has.
  assert (A_dimension A = dimension b) as Hdb by (simpl; lia).
  assert (A_dimension A = dimension x) as Hdx by (simpl; lia).
  assert (0 < A_dimension A)%Z as Hdpos by (simpl; lia).
  set (n := uint (A_dimension A)) in *.
  set (max_iter := effective_max_iter cfg n) in *.
  assert (0 < norm2 r0) as Hrr.
  { eapply Qcle_lt_trans; [apply err_nonneg | exact Hent]. }
  assert (norm2 r0 ≠ 0) as Hrr0.
  { intros H0. rewrite H0 in Hrr. by apply Qclt_not_eq in Hrr. }
  assert (c * norm2 r0 ≠ 0) as Hcr.
  { intros [H0 | H0]%Qcmult_integral; done. }
  assert (length r0 = length A) as Hlen0 by by apply residual_length.
  (* lines 119-141 *)
  destruct (initialise_unfold ndebug cfg A n b x) as (m & _ & Hinit).
  assert (c_assert ndebug (negb (IsZero (norm2 r0))) = Returned ()) as Has1.
  { apply c_assert_Returned. destruct ndebug; [done|].
    simpl in Has |- *. by apply andb_prop in Has as [-> _]. }
  fold r0 in Hinit. rewrite Has1 in Hinit. cbn [mbind Outcome_bind] in Hinit.
  fold err in Hinit.
  set (st0 := {| mach := m; rTh := norm2 r0; rTr := norm2 r0; omega := None;
                 its := 0%Z |}) in *.
  pose proof (initialise_calls _ _ _ _ _ _ _ _ Hinit) as Hcalls.
  pose proof (initialise_residual ndebug cfg A b x dense_dimension_axpy
                (dense_dimension_mult A) Hdb Hdx _ _ Hinit) as Hres0.
  pose proof Hinit
    as (_ & _ & _ & _ & _ & _ & _ & Hr0 & Hd0 & Hh0 & HrT0)
         %initialise_Returned; [|by left].
  rewrite dense_residual in Hr0. fold r0 in Hr0.
  rewrite Hr0 in Hd0, Hh0, HrT0.
  (* lines 145-148 *)
  set (m1 := call_mult A Bd BAd (mach st0)).
  assert (vec m1 BAd = map (Qcmult c) r0) as HAd.
  { change (vec m1 BAd) with (dense_mult A (vec (mach st0) Bd)).
    by rewrite Hd0, dense_mult_matvec. }
  assert (blas_dot BrT BAd m1 = c * norm2 r0) as HrTAd.
  { unfold blas_dot. rewrite HAd.
    change (vec m1 BrT) with (vec (mach st0) BrT). rewrite HrT0.
    apply dense_dot_eigen. }
  set (a := norm2 r0 / (c * norm2 r0)).
  assert (a * c = 1) as Hac by (unfold a; by field).
  assert (cdiv (rTh st0) (blas_dot BrT BAd m1) = Some a) as Ha.
  { rewrite HrTAd. apply quotient_Returned. by apply quotient_defined. }
  (* lines 149-160 *)
  set (m2 := bicg_step Bh true A a m1).
  assert (vec m2 Bh = replicate (length A) 0) as Hs.
  { change (vec m2 Bh)
      with (dense_axpy (- a) (vec m1 BAd) (vec (mach st0) Bh)).
    rewrite HAd, Hh0, dense_axpy_eigen by done. by rewrite Hlen0. }
  assert (vec m2 Bt = replicate (length A) 0) as Ht.
  { change (vec m2 Bt) with (dense_mult A (vec m2 Bh)).
    by rewrite Hs, dense_mult_zeros. }
  assert (choose_omega (blas_dot Bh Bt m2) (blas_dot Bt Bt m2) = Returned 0)
    as Hw.
  { unfold choose_omega, blas_dot. rewrite Ht.
    change (dot (replicate (length A) 0) (replicate (length A) 0))
      with (dense_dot (replicate (length A) (Q2Qc 0))
                      (replicate (length A) (Q2Qc 0))).
    rewrite dense_dot_zeros_r.
    change (IsZero 0) with true. by rewrite orb_true_r. }
  assert (iteration ndebug Bh true A st0
          = Returned (Break (stabilise Bh a 0 m2 st0))) as Hit.
  { apply iteration_break; try done. fold m1. rewrite HrTAd.
    destruct ndebug; [done|]. simpl in Has |- *.
    by apply andb_prop in Has as [_ ->]. }
  set (st1 := stabilise Bh a 0 m2 st0) in *.
  (* lines 161-166 *)
  destruct (step_vectors A a 0 st0) as (_ & Er & _).
  fold m1 m2 st1 in Er. cbv zeta in Er.
  assert (vec (mach st1) Br = replicate (length A) 0) as Hr1.
  { rewrite Er.
    change (mult A (axpy (copp a) (mult A (vec (mach st0) Bd))
                      (vec (mach st0) Bh))) with (vec m2 Bt).
    change (mult A (vec (mach st0) Bd)) with (vec m1 BAd).
    rewrite Ht, HAd, Hr0.
    change (dense_axpy (- 0) (replicate (length A) 0)
              (dense_axpy (- a) (map (Qcmult c) r0) r0)
            = replicate (length A) 0).
    rewrite dense_axpy_eigen by done. rewrite Hlen0.
    apply dense_axpy_zeros. by rewrite length_replicate. }
  assert (rTr st1 = 0) as HrTr1.
  { unfold st1. rewrite stabilise_rTr by by left. fold st1.
    unfold blas_dot. rewrite Hr1. apply dense_dot_zeros_r. }
  pose proof (stabilise_residual A b dense_axpy_comm (dense_mult_axpy A)
                dense_dimension_axpy (dense_dimension_mult A) a 0 st0 Hres0)
    as (_ & Hres1 & _).
  fold m1 m2 st1 in Hres1.
  (* the loop and lines 180-182 *)
  assert (loop_condition err max_iter st0 = true) as Hcond.
  { unfold loop_condition. apply andb_true_intro. split.
    - by apply Qc_ltb_lt.
    - by apply Z.ltb_lt. }
  unfold solve. rewrite solve_variant_valid by done.
  fold n max_iter. rewrite Hinit. cbn [mbind Outcome_bind].
  destruct (Z.to_nat max_iter) as [|fuel] eqn:Hfuel; [lia|].
  cbn [loop]. rewrite Hcond, Hit. cbn [mbind Outcome_bind].
  eexists. split; [reflexivity|].
  cbn [finish success final its_of trace fmap option_fmap option_map rep_its].
  split_and!.
  - rewrite HrTr1. apply Qc_leb_le, err_nonneg.
  - reflexivity.
  - change (mult_calls (mach st1)) with (S (S (mult_calls (mach st0)))).
    by rewrite Hcalls.
  - unfold x_of. cbn [final].
    rewrite Hr1, dense_residual in Hres1. unfold residual in Hres1.
    apply zip_minus_zeros.
    + unfold matvec. rewrite length_map. by rewrite Hb.
    + unfold matvec at 2. by rewrite length_map.
Qed.

End ExactDenseRuns.

Lemma reported_rTr_is_true_residual_witness :
  ∃ e r, solve false cfg_cap1 laplace5 b_laplace5 x_laplace5 = Returned e ∧
    trace e = Some r ∧ success e = false ∧
    vec (final e) Br = residual laplace5 b_laplace5 (x_of e) ∧
    rep_rTr r = norm2 (residual laplace5 b_laplace5 (x_of e)) ∧
    rep_err r
      = (epsilon_ cfg_cap1 * epsilon_ cfg_cap1 * norm2 b_laplace5)%Qc ∧
    success e = Qc_leb (rep_rTr r) (rep_err r).
Proof.
  assert (∃ e r, solve false cfg_cap1 laplace5 b_laplace5 x_laplace5
                 = Returned e ∧ trace e = Some r ∧ success e = false)
    as (e & r & He & Hr & Hs).
  { eexists _, _. split; [vm_compute; reflexivity|].
    split; reflexivity. }
  exists e, r.
  exact (conj He (conj Hr (conj Hs
           (reported_rTr_is_true_residual false cfg_cap1 laplace5 b_laplace5
              x_laplace5 e r He Hr)))).
Defined.

(** The equation x = 1 with the first guess 1.00001 and the default
    tolerance 1e-4. *)
Lemma first_guess_within_tolerance_witness :
  ∃ e, solve false cfg_default [[Qz 1]] [Qz 1] [Q2Qc (100001 # 100000)]
         = Returned e ∧
    success e = true ∧ its_of e = Some 0 ∧
    x_of e = [Q2Qc (100001 # 100000)] ∧
    mult_calls (final e) = 1%nat.
Proof.
  apply (first_guess_within_tolerance false cfg_default [[Qz 1]] [Qz 1]
           [Q2Qc (100001 # 100000)]).
  - reflexivity.
  - reflexivity.
  - vm_compute. lia.
  - apply Qc_leb_le. vm_compute. reflexivity.
  - vm_compute. reflexivity.
Defined.

Lemma solving_again_returns_at_once_witness :
  ∃ e e', solve false cfg_scenario2 A_scenario2 b_scenario2 x_scenario2
            = Returned e ∧
    success e = true ∧ its_of e = Some 1 ∧
    solve true cfg_scenario2 A_scenario2 b_scenario2 (x_of e) = Returned e' ∧
    success e' = true ∧ its_of e' = Some 0 ∧ x_of e' = x_of e ∧
    mult_calls (final e') = 1%nat.
Proof.
  assert (∃ e, solve false cfg_scenario2 A_scenario2 b_scenario2 x_scenario2
               = Returned e ∧ success e = true ∧ its_of e = Some 1)
    as (e & He & Hs & Hi).
  { eexists. split; [vm_compute; reflexivity|]. split; reflexivity. }
  destruct (solving_again_returns_at_once false cfg_scenario2 A_scenario2
              b_scenario2 x_scenario2 e He Hs) as (e' & Hagain).
  exists e, e'.
  exact (conj He (conj Hs (conj Hi Hagain))).
Defined.

(** The identity matrix of dimension 2 with b = [3,-5] and the first guess 0:
    the first residual is [-3,5], which [A] leaves as it is. *)
Lemma eigen_residual_is_solved_in_one_step_witness :
  ∃ e, solve false cfg_default A_scenario4 b_scenario4 x_turn = Returned e ∧
    success e = true ∧ its_of e = Some 0 ∧
    mult_calls (final e) = 3%nat ∧
    matvec A_scenario4 (x_of e) = b_scenario4.
Proof.
  apply (eigen_residual_is_solved_in_one_step false cfg_default A_scenario4
           b_scenario4 x_turn (Qz 1)).
  - reflexivity.
  - reflexivity.
  - vm_compute. lia.
  - reflexivity.
  - vm_compute. reflexivity.
  - intros H. by vm_compute in H.
  - apply Qc_ltb_lt. vm_compute. reflexivity.
  - vm_compute. reflexivity.
Defined.

(** ** Calls that run no iteration, and a tolerance of zero *)

(** X21: [x] is written in the loop body only (lines 161-162): a call that
    returns after at most one call of [mult], that is without having run an
    iteration, leaves [x] as it was, for every scalar type. *)
Theorem no_iteration_leaves_x {T V M : Type}
    `{!CoeffOps T, !VectorOps T V, !MatrixOps V M, !Inhabited V}
    (ndebug : bool) (cfg : Config T) (A : M) (b x : V) (e : Exit T V) :
  solve ndebug cfg A b x = Returned e →
  (mult_calls (final e) ≤ 1)%nat →
  x_of e = x.
Proof.
  intros Hsolve Hcalls.
  destruct (solve_rejected_or_valid ndebug cfg A b x)
    as [Hrej | (Hb & Hx & Hpos)].
  { rewrite Hrej in Hsolve. by injection Hsolve as <-. }
  apply solve_variant_Returned in Hsolve
    as (err & st0 & st & Hinit & Hloop & ->); [|done..].
  pose proof (initialise_calls ndebug cfg A b x _ _ _ Hinit) as Hcalls0.
  apply initialise_Returned in Hinit
    as (_ & _ & _ & _ & _ & Hx0 & _); [|by left..].
  unfold x_of. cbn [finish final] in *.
  set (P := λ st : LoopState T V,
         (1 ≤ mult_calls (mach st))%nat ∧
         (mult_calls (mach st) = 1%nat → vec (mach st) Bx = x)).
  assert (P st0) as HP0 by (unfold P; rewrite Hcalls0; by split).
  destruct (loop_exit ndebug A P err
              (effective_max_iter cfg (uint (A_dimension A))))
    with (2 := HP0) (3 := Hloop)
    as [[[Hge Hst] _] | (st1 & [Hk _] & _ & Hit)].
  - intros st1 st2 [Hk _] _ (Hk2 & _)%iteration_frame.
    cbn [state_of] in Hk2. unfold P. rewrite Hk2. split; lia.
  - apply Hst. lia.
  - apply iteration_frame in Hit as (Hk2 & _). cbn [state_of] in Hk2. lia.
Qed.

Lemma no_iteration_leaves_x_witness :
  ∃ e, solve true cfg_default_double A_scenario4_double b_scenario4_double
         b_scenario4_double = Returned e ∧
    (mult_calls (final e) ≤ 1)%nat ∧
    x_of e = b_scenario4_double.
Proof.
  assert (∃ e, solve true cfg_default_double A_scenario4_double
                 b_scenario4_double b_scenario4_double = Returned e ∧
               (mult_calls (final e) ≤ 1)%nat) as (e & He & Hk).
  { eexists. split; [vm_compute; reflexivity|]. vm_compute. lia. }
  exists e.
  exact (conj He (conj Hk
           (no_iteration_leaves_x true cfg_default_double A_scenario4_double
              b_scenario4_double b_scenario4_double e He Hk))).
Defined.

Section ZeroTolerance.
Local Open Scope Qc_scope.

(** A sum of squares is zero only when every term is. *)
Lemma norm2_zero (v : list Qc) :
  norm2 v = 0 → v = replicate (length v) 0.
Proof.
  unfold norm2. induction v as [|c v IH]; simpl; [done|]. intros Hsum.
  pose proof (Qc_square_nonneg c) as Hc.
  pose proof (norm2_nonneg v) as Hv. unfold norm2 in Hv.
  set (rest := sum_Qc (map (λ c, c * c) v)) in *.
  assert (c * c = 0) as Hcc.
  { apply Qcle_antisym; [|done].
    replace (c * c) with (0 + - rest) by (rewrite <-Hsum; ring).
    rewrite Qcplus_0_l. replace 0 with (- 0) by ring.
    by apply Qcopp_le_compat. }
  assert (rest = 0) as Hrest.
  { rewrite Hcc, Qcplus_0_l in Hsum. done. }
  f_equal.
  - by apply Qcmult_integral in Hcc as [H0 | H0].
  - by apply IH.
Qed.

(** X22: in exact arithmetic, with a tolerance of zero ([epsilon_ = 0], or
    [b = 0], so that [err = 0]) a return of true means that the returned [x]
    solves the system exactly: [A*x = b]. *)
Theorem zero_tolerance_true_is_exact (ndebug : bool) (cfg : Config Qc)
    (A : list (list Qc)) (b x : list Qc) (e : Exit Qc (list Qc)) :
  epsilon_ cfg * epsilon_ cfg * norm2 b = 0 →
  solve ndebug cfg A b x = Returned e →
  success e = true →
  matvec A (x_of e) = b.
Proof.
  intros Herr Hsolve Hok.
  destruct (solve_rejected_or_valid ndebug cfg A b x)
    as [Hrej | (Hb & Hx & Hpos)].
  { rewrite Hrej in Hsolve. by inversion Hsolve; subst. }
  destruct (solve_variant_exit ndebug Bh true cfg A b x (or_introl eq_refl)
              Hb Hx Hpos e Hsolve) as (r & Ht & _).
  destruct (solve_exit_norm2 ndebug cfg A b x e r Hsolve Ht)
    as (Hr & He & Hs).
  rewrite Hok, Hr, He, Herr in Hs. symmetry in Hs. apply Qc_leb_le in Hs.
  assert (norm2 (residual A b (x_of e)) = 0) as Hzero
    by (apply Qcle_antisym; [done|apply norm2_nonneg]).
  apply norm2_zero in Hzero. unfold residual in Hzero.
  simpl in Hb.
  assert (length (matvec A (x_of e)) = length b) as Hlen.
  { unfold matvec. rewrite length_map. lia. }
  apply zip_minus_zeros; [done|].
  rewrite Hzero. f_equal. rewrite length_zip_with. lia.
Qed.

End ZeroTolerance.

Lemma zero_tolerance_true_is_exact_witness :
  ∃ e, solve false (set_epsilon (Qz 0) cfg_default) A_scenario2 b_scenario2
         x_scenario2 = Returned e ∧
    success e = true ∧ its_of e = Some 1 ∧
    matvec A_scenario2 (x_of e) = b_scenario2.
Proof.
  assert (∃ e, solve false (set_epsilon (Qz 0) cfg_default) A_scenario2
                 b_scenario2 x_scenario2 = Returned e ∧
               success e = true ∧ its_of e = Some 1) as (e & He & Hs & Hi).
  { eexists. split; [vm_compute; reflexivity|]. split; reflexivity. }
  exists e.
  exact (conj He (conj Hs (conj Hi
           (zero_tolerance_true_is_exact false
              (set_epsilon (Qz 0) cfg_default) A_scenario2 b_scenario2
              x_scenario2 e eq_refl He Hs)))).
Defined.

(** ** A solver as the constructor leaves it *)

(** X23: what a solver used as constructed (lines 90-94: [epsilon_ = 1e-4],
    [max_iter_ = 0]) promises in exact arithmetic, on a dense system of
    dimension [n] with [10*n <= UINT_MAX]: a call that returns has called
    [mult] at most [20*n + 1] times, and when it returns true the returned
    [x] satisfies [|A*x - b|^2 <= 1e-8 * |b|^2]. *)
Theorem default_solver_guarantee (ndebug : bool) (A : list (list Qc))
    (b x : list Qc) (e : Exit Qc (list Qc)) :
  10 * Z.of_nat (length A) ≤ UINT_MAX →
  solve ndebug cfg_default A b x = Returned e →
  Z.of_nat (mult_calls (final e)) ≤ 20 * Z.of_nat (length A) + 1 ∧
  (success e = true →
   (norm2 (residual A b (x_of e)) <= Q2Qc (1 # 100000000) * norm2 b)%Qc).
Proof.
  intros Hfit Hsolve.
  destruct (solve_rejected_or_valid ndebug cfg_default A b x)
    as [Hrej | (Hb & Hx & Hpos)].
  { rewrite Hrej in Hsolve. injection Hsolve as <-. simpl. split; [lia|done]. }
  destruct (solve_exit_cases ndebug cfg_default A b x Hb Hx Hpos e Hsolve)
    as (r & Ht & Hm & _ & _ & _ & _ & Hi & Hcases).
  simpl in Hpos.
  assert (uint (A_dimension A) = Z.of_nat (length A)) as Hn
    by (apply uint_small; simpl; lia).
  rewrite Hn, effective_max_iter_default in Hm by (done || lia).
  split.
  - destruct Hcases as [(Hc & _) | (Hc & Hlt & _)]; lia.
  - intros Hok.
    destruct (solve_exit_norm2 ndebug cfg_default A b x e r Hsolve Ht)
      as (Hr & He & Hs).
    rewrite Hok, Hr, He in Hs. symmetry in Hs. apply Qc_leb_le in Hs.
    replace (Q2Qc (1 # 100000000))
      with (epsilon_ cfg_default * epsilon_ cfg_default)%Qc; [done|].
    apply Qc_is_canon. reflexivity.
Qed.

Lemma default_solver_guarantee_witness :
  ∃ e, solve false cfg_default A_scenario2 b_scenario2 x_scenario2
         = Returned e ∧
    success e = true ∧ mult_calls (final e) = 5%nat ∧
    Z.of_nat (mult_calls (final e)) ≤ 20 * Z.of_nat (length A_scenario2) + 1 ∧
    (success e = true →
     (norm2 (residual A_scenario2 b_scenario2 (x_of e))
      <= Q2Qc (1 # 100000000) * norm2 b_scenario2)%Qc).
Proof.
  assert (∃ e, solve false cfg_default A_scenario2 b_scenario2 x_scenario2
               = Returned e ∧ success e = true ∧
               mult_calls (final e) = 5%nat) as (e & He & Hs & Hk).
  { eexists. split; [vm_compute; reflexivity|]. split; reflexivity. }
  assert (10 * Z.of_nat (length A_scenario2) ≤ UINT_MAX) as Hfit
    by (vm_compute; discriminate).
  exists e.
  exact (conj He (conj Hs (conj Hk
           (default_solver_guarantee false A_scenario2 b_scenario2
              x_scenario2 e Hfit He)))).
Defined.

(** ** The scenarios of the specification *)

(** Scenario 2: the exact solution [1/11, 7/11] is reached. *)
Example scenario2_exact :
  (λ e, (success e, x_of e, its_of e))
    <$> solve false cfg_scenario2 A_scenario2 b_scenario2 x_scenario2
  = Returned (true, [Q2Qc (1 # 11); Q2Qc (7 # 11)], Some 1).
Proof. vm_compute. reflexivity. Qed.

(** Scenario 2 in binary64, with the double nearest to 1e-8 for [eps]. *)
Example scenario2_binary64 :
  (λ e, (success e, x_of e, its_of e))
    <$> solve false {| epsilon_ := 0x1.5798ee2308c3ap-27%float; max_iter_ := 0 |}
          [[4; 1]; [1; 3]]%float [1; 2]%float [0; 0]%float
  = Returned (true, [0x1.745d1745d1747p-4; 0x1.45d1745d1745cp-1]%float, Some 2).
Proof. vm_compute. reflexivity. Qed.

(** Scenario 3: A = diag(1,2,4), b = [1,2,4], x0 = 0, eps = 1e-10. *)
Example scenario3_exact :
  (λ e, (success e, x_of e, its_of e))
    <$> solve false {| epsilon_ := Q2Qc (1 # 10000000000); max_iter_ := 0 |}
          [[Qz 1; Qz 0; Qz 0]; [Qz 0; Qz 2; Qz 0]; [Qz 0; Qz 0; Qz 4]]
          [Qz 1; Qz 2; Qz 4] [Qz 0; Qz 0; Qz 0]
  = Returned (true, [Qz 1; Qz 1; Qz 1], Some 2).
Proof. vm_compute. reflexivity. Qed.

(** Scenario 4 where assertions are compiled out, in binary64. *)
Example scenario4_binary64_ndebug :
  (λ e, (success e, x_of e, its_of e))
    <$> solve true cfg_default_double A_scenario4_double b_scenario4_double
          b_scenario4_double
  = Returned (true, b_scenario4_double, Some 0).
Proof. vm_compute. reflexivity. Qed.
